(** * A shallow embedding of the CMP memory-system simulator

    The development follows the C++ sources: [cache.cpp] (the
    set-associative cache and its four replacement policies), [dram.cpp]
    (the banked DRAM with row buffers) and [memsys.cpp] (the orchestration
    of L1, L2 and DRAM, with address translation).

    Conventions.
    - A C unsigned integer of width [w] is a [Z] in [0, 2^w); every
      arithmetic result is wrapped explicitly ([u32], [u64]).
    - A C array is a list, read with stdpp's total lookup [l !!! i] and
      written with [<[i:=x]> l].  An access outside the array is undefined
      behaviour in C; the functions below are total, and the theorems carry
      the well-formedness that keeps every index in range.
    - The one array that is indexed by caller-supplied data without any
      bound, [ways_per_core[core_id]], is modelled as fallible: an index
      outside [0, 2) makes [cache_install] return [None].
    - The process-wide variables ([current_cycle], [SWP_CORE0_WAYS],
      [DWP_CORE0_WAYS], [SIM_MODE], ... and the state of [rand()]) are the
      fields of one record [Globals], passed explicitly. *)

From Stdlib Require Import ZArith Lia Bool.
From Stdlib Require Import Floats.SpecFloat.
From stdpp Require Import base option list.

Local Open Scope Z_scope.

(** ** Machine integers *)

Definition u32 (x : Z) : Z := x mod 2 ^ 32.
Definition u64 (x : Z) : Z := x mod 2 ^ 64.

(** Conversion of an unsigned value to [int] (two's complement). *)
Definition to_int (x : Z) : Z :=
  let y := u32 x in if y <? 2 ^ 31 then y else y - 2 ^ 32.

(** A small option monad for the fallible steps. *)
Notation "'do' x <- m ; k" := (match m with Some x => k | None => None end)
  (at level 10, x pattern, m at level 100, k at level 200, only parsing).

(** ** types.h *)

(** Modelled from the spec: [types.h] is not among the sources; the
    enumerators are the ones [memsys.cpp] and [dram.cpp] name. *)
Inductive Mode := SIM_MODE_A | SIM_MODE_B | SIM_MODE_C | SIM_MODE_DEF.

(** Modelled from the spec: [types.h] is not among the sources; the
    enumerators are the ones [memsys.cpp] names. *)
Inductive AccessType := ACCESS_TYPE_IFETCH | ACCESS_TYPE_LOAD | ACCESS_TYPE_STORE.

(** ** cache.h *)

Definition MAX_WAYS_PER_CACHE_SET : Z := 16.

Inductive ReplacementPolicy := LRU | RANDOM | SWP | DWP.

Record CacheLine := {
  valid : bool;
  dirty : bool;
  tag : Z;              (* unsigned long *)
  coreID : Z;           (* unsigned *)
  lastAccessTime : Z    (* uint64_t *)
}.

Record UMON := {
  totalHits : list Z;   (* unsigned totalHits[MAX_WAYS_PER_CACHE_SET] *)
  totalMisses : Z       (* unsigned *)
}.

Record CacheSet := {
  row : list CacheLine;
  ways_per_core : list Z;   (* unsigned ways_per_core[2] *)
  umon : UMON
}.

Record Cache := {
  cacheGrid : list CacheSet;
  ways : Z;
  sets : Z;
  policy : ReplacementPolicy;
  lastEvictedLine : CacheLine;
  index_mask : Z;
  index_bits : Z;
  stat_read_access : Z;
  stat_read_miss : Z;
  stat_write_access : Z;
  stat_write_miss : Z;
  stat_dirty_evicts : Z
}.

Inductive CacheResult := HIT | MISS.

Inductive DRAMPolicy := OPEN_PAGE | CLOSE_PAGE.

(** The zero-filled line that [calloc] produces. *)
Definition zero_line : CacheLine :=
  {| valid := false; dirty := false; tag := 0; coreID := 0; lastAccessTime := 0 |}.

Definition zero_set : CacheSet :=
  {| row := []; ways_per_core := [0; 0];
     umon := {| totalHits := replicate 16 0; totalMisses := 0 |} |}.

Global Instance CacheLine_inhabited : Inhabited CacheLine := populate zero_line.
Global Instance CacheSet_inhabited : Inhabited CacheSet := populate zero_set.

(** ** The process-wide variables *)

Record Globals := {
  current_cycle : Z;
  SWP_CORE0_WAYS : Z;
  DWP_CORE0_WAYS : Z;
  SIM_MODE : Mode;
  DRAM_PAGE_POLICY : DRAMPolicy;
  CACHE_LINESIZE : Z;
  REPL_POLICY : ReplacementPolicy;
  DCACHE_SIZE : Z;
  DCACHE_ASSOC : Z;
  ICACHE_SIZE : Z;
  ICACHE_ASSOC : Z;
  L2CACHE_SIZE : Z;
  L2CACHE_ASSOC : Z;
  L2CACHE_REPL : ReplacementPolicy;
  NUM_CORES : Z;
  (* the C library's generator: the values the successive calls of rand()
     return, and the number of calls made so far *)
  rand_tape : nat -> nat;
  rand_calls : nat
}.

Definition set_DWP_CORE0_WAYS (q : Z) (g : Globals) : Globals :=
  {| current_cycle := current_cycle g; SWP_CORE0_WAYS := SWP_CORE0_WAYS g;
     DWP_CORE0_WAYS := q; SIM_MODE := SIM_MODE g;
     DRAM_PAGE_POLICY := DRAM_PAGE_POLICY g; CACHE_LINESIZE := CACHE_LINESIZE g;
     REPL_POLICY := REPL_POLICY g; DCACHE_SIZE := DCACHE_SIZE g;
     DCACHE_ASSOC := DCACHE_ASSOC g; ICACHE_SIZE := ICACHE_SIZE g;
     ICACHE_ASSOC := ICACHE_ASSOC g; L2CACHE_SIZE := L2CACHE_SIZE g;
     L2CACHE_ASSOC := L2CACHE_ASSOC g; L2CACHE_REPL := L2CACHE_REPL g;
     NUM_CORES := NUM_CORES g; rand_tape := rand_tape g;
     rand_calls := rand_calls g |}.

Definition set_current_cycle (t : Z) (g : Globals) : Globals :=
  {| current_cycle := t; SWP_CORE0_WAYS := SWP_CORE0_WAYS g;
     DWP_CORE0_WAYS := DWP_CORE0_WAYS g; SIM_MODE := SIM_MODE g;
     DRAM_PAGE_POLICY := DRAM_PAGE_POLICY g; CACHE_LINESIZE := CACHE_LINESIZE g;
     REPL_POLICY := REPL_POLICY g; DCACHE_SIZE := DCACHE_SIZE g;
     DCACHE_ASSOC := DCACHE_ASSOC g; ICACHE_SIZE := ICACHE_SIZE g;
     ICACHE_ASSOC := ICACHE_ASSOC g; L2CACHE_SIZE := L2CACHE_SIZE g;
     L2CACHE_ASSOC := L2CACHE_ASSOC g; L2CACHE_REPL := L2CACHE_REPL g;
     NUM_CORES := NUM_CORES g; rand_tape := rand_tape g;
     rand_calls := rand_calls g |}.

(** [rand()]: an [int] in [0, RAND_MAX], here with [RAND_MAX = 2^31 - 1]. *)
Definition rand (g : Globals) : Z * Globals :=
  (Z.of_nat (rand_tape g (rand_calls g)) mod 2 ^ 31,
   {| current_cycle := current_cycle g; SWP_CORE0_WAYS := SWP_CORE0_WAYS g;
      DWP_CORE0_WAYS := DWP_CORE0_WAYS g; SIM_MODE := SIM_MODE g;
      DRAM_PAGE_POLICY := DRAM_PAGE_POLICY g; CACHE_LINESIZE := CACHE_LINESIZE g;
      REPL_POLICY := REPL_POLICY g; DCACHE_SIZE := DCACHE_SIZE g;
      DCACHE_ASSOC := DCACHE_ASSOC g; ICACHE_SIZE := ICACHE_SIZE g;
      ICACHE_ASSOC := ICACHE_ASSOC g; L2CACHE_SIZE := L2CACHE_SIZE g;
      L2CACHE_ASSOC := L2CACHE_ASSOC g; L2CACHE_REPL := L2CACHE_REPL g;
      NUM_CORES := NUM_CORES g; rand_tape := rand_tape g;
      rand_calls := S (rand_calls g) |}).

(** ** cache.cpp *)

(** Field updates of a [Cache]. *)
Definition with_grid (grid : list CacheSet) (c : Cache) : Cache :=
  {| cacheGrid := grid; ways := ways c; sets := sets c; policy := policy c;
     lastEvictedLine := lastEvictedLine c; index_mask := index_mask c;
     index_bits := index_bits c; stat_read_access := stat_read_access c;
     stat_read_miss := stat_read_miss c; stat_write_access := stat_write_access c;
     stat_write_miss := stat_write_miss c; stat_dirty_evicts := stat_dirty_evicts c |}.

(** [if (is_write) c->stat_write_access++; else c->stat_read_access++;] *)
Definition count_access (is_write : bool) (c : Cache) : Cache :=
  {| cacheGrid := cacheGrid c; ways := ways c; sets := sets c; policy := policy c;
     lastEvictedLine := lastEvictedLine c; index_mask := index_mask c;
     index_bits := index_bits c;
     stat_read_access :=
       if is_write then stat_read_access c else u64 (stat_read_access c + 1);
     stat_read_miss := stat_read_miss c;
     stat_write_access :=
       if is_write then u64 (stat_write_access c + 1) else stat_write_access c;
     stat_write_miss := stat_write_miss c; stat_dirty_evicts := stat_dirty_evicts c |}.

(** [if (is_write) c->stat_write_miss++; else c->stat_read_miss++;] *)
Definition count_miss (is_write : bool) (c : Cache) : Cache :=
  {| cacheGrid := cacheGrid c; ways := ways c; sets := sets c; policy := policy c;
     lastEvictedLine := lastEvictedLine c; index_mask := index_mask c;
     index_bits := index_bits c; stat_read_access := stat_read_access c;
     stat_read_miss :=
       if is_write then stat_read_miss c else u64 (stat_read_miss c + 1);
     stat_write_access := stat_write_access c;
     stat_write_miss :=
       if is_write then u64 (stat_write_miss c + 1) else stat_write_miss c;
     stat_dirty_evicts := stat_dirty_evicts c |}.

(** [c->lastEvictedLine = ...; if (valid && dirty) c->stat_dirty_evicts++;] *)
Definition record_eviction (ev : CacheLine) (c : Cache) : Cache :=
  {| cacheGrid := cacheGrid c; ways := ways c; sets := sets c; policy := policy c;
     lastEvictedLine := ev; index_mask := index_mask c;
     index_bits := index_bits c; stat_read_access := stat_read_access c;
     stat_read_miss := stat_read_miss c; stat_write_access := stat_write_access c;
     stat_write_miss := stat_write_miss c;
     stat_dirty_evicts :=
       if valid ev && dirty ev then u64 (stat_dirty_evicts c + 1)
       else stat_dirty_evicts c |}.

(** [cache_new]: the grid is [calloc]ed, hence zero-filled.  The statement
    [umon.totalHits[MAX_WAYS_PER_CACHE_SET] = {0}] of the source stores a
    zero one element past the array, onto memory that is zero already.  The
    field [lastEvictedLine] is left unset by the source and is not read
    before the first install writes it; it is the zero line here.
    [std::log2] of a 32-bit count, truncated, is [Z.log2]. *)
Definition cache_new (size associativity line_size : Z)
    (replacement_policy : ReplacementPolicy) : Cache :=
  let ways_ := u32 associativity in
  let sets_ := u32 ((size / line_size) / associativity) in
  let bits := Z.log2 sets_ in
  {| cacheGrid :=
       replicate (Z.to_nat sets_)
         {| row := replicate (Z.to_nat ways_) zero_line;
            ways_per_core := [0; 0];
            umon := {| totalHits := replicate 16 0; totalMisses := 0 |} |};
     ways := ways_;
     sets := sets_;
     policy := replacement_policy;
     lastEvictedLine := zero_line;
     index_mask := u32 (Z.shiftl 1 bits - 1);
     index_bits := bits;
     stat_read_access := 0; stat_read_miss := 0;
     stat_write_access := 0; stat_write_miss := 0;
     stat_dirty_evicts := 0 |}.

(** The loop [for (i = start; i < start + n; i++) if (p(row[i])) return i;]:
    the first way at or after [i] that satisfies [p], among [n] ways. *)
Fixpoint first_way (p : CacheLine -> bool) (r : list CacheLine) (i n : nat)
    : option nat :=
  match n with
  | O => None
  | S n' => if p (r !!! i) then Some i else first_way p r (S i) n'
  end.

(** The loop that keeps the oldest way seen so far:
    [if (p(row[i]) && row[i].lastAccessTime < oldestTime)
       { index = i; oldestTime = row[i].lastAccessTime; }]. *)
Fixpoint oldest_way (p : CacheLine -> bool) (r : list CacheLine) (i n : nat)
    (index : nat) (oldestTime : Z) : nat :=
  match n with
  | O => index
  | S n' =>
      let l := r !!! i in
      if p l && (lastAccessTime l <? oldestTime)
      then oldest_way p r (S i) n' i (lastAccessTime l)
      else oldest_way p r (S i) n' index oldestTime
  end.

(** The test of [cache_access]:
    [valid == true && coreID == core_id && tag == tag_to_check]. *)
Definition line_matches (core_id tag_to_check : Z) (l : CacheLine) : bool :=
  valid l && (coreID l =? core_id) && (tag l =? tag_to_check).

Definition touch_line (is_write : bool) (now : Z) (l : CacheLine) : CacheLine :=
  {| valid := valid l; dirty := if is_write then true else dirty l;
     tag := tag l; coreID := coreID l; lastAccessTime := now |}.

Definition cache_access (c : Cache) (g : Globals) (line_addr : Z)
    (is_write : bool) (core_id : Z) : CacheResult * Cache :=
  let set_to_check := Z.to_nat (to_int (Z.land line_addr (index_mask c))) in
  let tag_to_check := Z.shiftr line_addr (index_bits c) in
  let c1 := count_access is_write c in
  let s := cacheGrid c1 !!! set_to_check in
  match first_way (line_matches core_id tag_to_check) (row s) 0
          (Z.to_nat (ways c1)) with
  | Some i =>
      let s' :=
        {| row := <[i := touch_line is_write (current_cycle g) (row s !!! i)]> (row s);
           ways_per_core := ways_per_core s;
           umon := {| totalHits :=
                        <[i := u32 (totalHits (umon s) !!! i + 1)]> (totalHits (umon s));
                      totalMisses := totalMisses (umon s) |} |} in
      (HIT, with_grid (<[set_to_check := s']> (cacheGrid c1)) c1)
  | None =>
      let c2 := count_miss is_write c1 in
      let s' :=
        {| row := row s; ways_per_core := ways_per_core s;
           umon := {| totalHits := totalHits (umon s);
                      totalMisses := u32 (totalMisses (umon s) + 1) |} |} in
      (MISS, with_grid (<[set_to_check := s']> (cacheGrid c2)) c2)
  end.

(** *** The utility blend of DWP

    [totalUtility[core] = (0.7 * hits) + (0.3 * misses)] is evaluated in
    [double]: both counters are converted (exactly), each product and the
    sum are rounded to nearest-even, and the result is truncated towards
    zero on assignment to [unsigned].  The model is IEEE-754 binary64 as
    specified by [SpecFloat] (precision 53, [emax] 1024). *)

Definition b64_of_Z (z : Z) : spec_float := binary_normalize 53 1024 z 0 false.
Definition b64_mul : spec_float -> spec_float -> spec_float := SFmul 53 1024.
Definition b64_add : spec_float -> spec_float -> spec_float := SFadd 53 1024.

(** The literals [0.7] and [0.3]: the doubles nearest to 7/10 and 3/10,
    [0x1.6666666666666p-1] and [0x1.3333333333333p-2]. *)
Definition b64_0_7 : spec_float := S754_finite false 6305039478318694 (-53).
Definition b64_0_3 : spec_float := S754_finite false 5404319552844595 (-54).

(** Conversion of a double to an integer type: truncation towards zero. *)
Definition b64_trunc (x : spec_float) : Z :=
  match x with
  | S754_finite s m e =>
      let v := if 0 <=? e then Z.pos m * 2 ^ e else Z.pos m / 2 ^ (- e) in
      if s then - v else v
  | _ => 0
  end.

Definition utility_blend (hits misses : Z) : Z :=
  u32 (b64_trunc (b64_add (b64_mul b64_0_7 (b64_of_Z hits))
                          (b64_mul b64_0_3 (b64_of_Z misses)))).

(** [for (way = 0; way < ways; ++way)
      if (row[way].coreID == core) total += umon.totalHits[way];] *)
Fixpoint hit_sum (r : list CacheLine) (hits : list Z) (core : Z)
    (way n : nat) (total : Z) : Z :=
  match n with
  | O => total
  | S n' =>
      hit_sum r hits core (S way) n'
        (if coreID (r !!! way) =? core then u32 (total + hits !!! way) else total)
  end.

(** The value stored into [DWP_CORE0_WAYS].  [std::fmax] of two unsigned
    values below [2^32] is exact in double, so it is [Z.max]. *)
Definition dwp_quota (s : CacheSet) (W : Z) : Z :=
  let totalHitbasedUtility c := hit_sum (row s) (totalHits (umon s)) c 0 (Z.to_nat W) 0 in
  let totalMissbasedUtility := u32 (0 + totalMisses (umon s)) in
  let totalUtility c := utility_blend (totalHitbasedUtility c) totalMissbasedUtility in
  let totalUtilitySum := Z.max (u32 (totalUtility 0 + totalUtility 1)) 1 in
  u32 (totalUtility 0 * W) / totalUtilitySum.

(** The eviction shared by SWP and DWP, for a quota [Q] of core 0:
    the first loop finds the first way of [core_to_assign] and breaks, the
    second one resumes at that way and keeps the oldest line of that core.
    When no way belongs to [core_to_assign], [index] keeps its initial 0. *)
Definition partition_victim (r : list CacheLine) (W : nat)
    (ways_core0 Q core_id : Z) : nat :=
  let core_to_assign := if ways_core0 <? Q then 1 else core_id in
  let owned (l : CacheLine) := coreID l =? core_to_assign in
  match first_way owned r 0 W with
  | Some i => oldest_way owned r i (W - i) i (lastAccessTime (r !!! i))
  | None => 0%nat
  end.

(** [cache_find_victim].  Each of the four policy branches of the source
    starts with the same search for an invalid way; it is written once. *)
Definition cache_find_victim (c : Cache) (g : Globals) (set_index core_id : Z)
    : nat * Globals :=
  let s := cacheGrid c !!! Z.to_nat set_index in
  let W := Z.to_nat (ways c) in
  match first_way (fun l => negb (valid l)) (row s) 0 W with
  | Some i => (i, g)
  | None =>
      match policy c with
      | LRU =>
          (oldest_way (fun _ => true) (row s) 0 W 0 (lastAccessTime (row s !!! 0%nat)), g)
      | RANDOM =>
          let '(r, g') := rand g in (Z.to_nat (u32 (r mod ways c)), g')
      | SWP =>
          (partition_victim (row s) W (ways_per_core s !!! 0%nat)
             (SWP_CORE0_WAYS g) core_id, g)
      | DWP =>
          let q := dwp_quota s (ways c) in
          (partition_victim (row s) W (ways_per_core s !!! 0%nat) q core_id,
           set_DWP_CORE0_WAYS q g)
      end
  end.

(** [ways_per_core[k]--] and [ways_per_core[k]++]; [k] is not checked by
    the source, and an index outside the array is an error here. *)
Definition bump (d : Z) (k : Z) (wpc : list Z) : option (list Z) :=
  if (0 <=? k) && (k <? 2) then
    do x <- wpc !! Z.to_nat k; Some (<[Z.to_nat k := u32 (x + d)]> wpc)
  else None.

Definition cache_install (c : Cache) (g : Globals) (line_addr : Z)
    (is_write : bool) (core_id : Z) : option (Cache * Globals) :=
  let set_to_add := u32 (Z.land line_addr (index_mask c) mod sets c) in
  let '(i, g') := cache_find_victim c g set_to_add core_id in
  let s := cacheGrid c !!! Z.to_nat set_to_add in
  let ev := row s !!! i in
  let c1 := record_eviction ev c in
  do wpc1 <- (if valid ev then bump (-1) (coreID ev) (ways_per_core s)
              else Some (ways_per_core s));
  do wpc2 <- bump 1 core_id wpc1;
  let l' := {| valid := true; dirty := is_write;
               tag := Z.shiftr line_addr (index_bits c); coreID := core_id;
               lastAccessTime := current_cycle g' |} in
  let s' := {| row := <[i := l']> (row s); ways_per_core := wpc2; umon := umon s |} in
  Some (with_grid (<[Z.to_nat set_to_add := s']> (cacheGrid c1)) c1, g').

(** ** dram.h, dram.cpp *)

Definition DELAY_SIM_MODE_B : Z := 100.
Definition DELAY_ACT : Z := 45.
Definition DELAY_CAS : Z := 45.
Definition DELAY_PRE : Z := 45.
Definition DELAY_BUS : Z := 10.
Definition NUM_BANKS : Z := 16.

Module Dram.

Record RowBuffer := { valid : bool; rowID : Z }.

Record DRAM := {
  rowbuf : list RowBuffer;
  bank_bits : Z;
  stat_read_access : Z;
  stat_read_delay : Z;
  stat_write_access : Z;
  stat_write_delay : Z
}.

End Dram.

Abbreviation RowBuffer := Dram.RowBuffer.
Abbreviation DRAM := Dram.DRAM.

Global Instance RowBuffer_inhabited : Inhabited RowBuffer :=
  populate {| Dram.valid := false; Dram.rowID := 0 |}.

Definition with_rowbuf (rb : list RowBuffer) (d : DRAM) : DRAM :=
  {| Dram.rowbuf := rb; Dram.bank_bits := Dram.bank_bits d;
     Dram.stat_read_access := Dram.stat_read_access d;
     Dram.stat_read_delay := Dram.stat_read_delay d;
     Dram.stat_write_access := Dram.stat_write_access d;
     Dram.stat_write_delay := Dram.stat_write_delay d |}.

(** [dram_new]: the row buffers are [calloc]ed. *)
Definition dram_new : DRAM :=
  {| Dram.rowbuf := replicate (Z.to_nat NUM_BANKS) {| Dram.valid := false; Dram.rowID := 0 |};
     Dram.bank_bits := Z.log2 NUM_BANKS;
     Dram.stat_read_access := 0; Dram.stat_read_delay := 0;
     Dram.stat_write_access := 0; Dram.stat_write_delay := 0 |}.

(** [row_no = (unsigned) (line_addr >> dram->bank_bits)] and
    [bank_no = (unsigned) row_no % NUM_BANKS]. *)
Definition dram_row (d : DRAM) (line_addr : Z) : Z :=
  u32 (Z.shiftr line_addr (Dram.bank_bits d)).
Definition dram_bank (d : DRAM) (line_addr : Z) : Z :=
  dram_row d line_addr mod NUM_BANKS.

Definition dram_access_mode_CDEF (d : DRAM) (g : Globals) (line_addr : Z)
    (is_dram_write : bool) : Z * DRAM :=
  let row_no := dram_row d line_addr in
  let bank_no := Z.to_nat (dram_bank d line_addr) in
  let rb := Dram.rowbuf d !!! bank_no in
  let delay := DELAY_BUS in
  match DRAM_PAGE_POLICY g with
  | OPEN_PAGE =>
      if Dram.valid rb then
        if Dram.rowID rb =? row_no then (u64 (delay + DELAY_CAS), d)
        else
          (u64 (delay + (DELAY_PRE + DELAY_ACT + DELAY_CAS)),
           with_rowbuf (<[bank_no := {| Dram.valid := Dram.valid rb; Dram.rowID := row_no |}]>
                          (Dram.rowbuf d)) d)
      else
        (u64 (delay + (DELAY_ACT + DELAY_CAS)),
         with_rowbuf (<[bank_no := {| Dram.valid := true; Dram.rowID := row_no |}]>
                        (Dram.rowbuf d)) d)
  | CLOSE_PAGE =>
      (u64 (delay + (DELAY_ACT + DELAY_CAS)),
       with_rowbuf (<[bank_no := {| Dram.valid := false; Dram.rowID := row_no |}]>
                      (Dram.rowbuf d)) d)
  end.

Definition dram_access (d : DRAM) (g : Globals) (line_addr : Z)
    (is_dram_write : bool) : Z * DRAM :=
  let '(delay, d1) :=
    match SIM_MODE g with
    | SIM_MODE_B => (u64 (0 + DELAY_SIM_MODE_B), d)
    | _ =>
        let '(dl, d') := dram_access_mode_CDEF d g line_addr is_dram_write in
        (u64 (0 + dl), d')
    end in
  (delay,
   if is_dram_write then
     {| Dram.rowbuf := Dram.rowbuf d1; Dram.bank_bits := Dram.bank_bits d1;
        Dram.stat_read_access := Dram.stat_read_access d1;
        Dram.stat_read_delay := Dram.stat_read_delay d1;
        Dram.stat_write_access := u64 (Dram.stat_write_access d1 + 1);
        Dram.stat_write_delay := u64 (Dram.stat_write_delay d1 + delay) |}
   else
     {| Dram.rowbuf := Dram.rowbuf d1; Dram.bank_bits := Dram.bank_bits d1;
        Dram.stat_read_access := u64 (Dram.stat_read_access d1 + 1);
        Dram.stat_read_delay := u64 (Dram.stat_read_delay d1 + delay);
        Dram.stat_write_access := Dram.stat_write_access d1;
        Dram.stat_write_delay := Dram.stat_write_delay d1 |}).

(** ** memsys.h, memsys.cpp *)

Definition PAGE_SIZE : Z := 4096.
Definition DCACHE_HIT_LATENCY : Z := 1.
Definition ICACHE_HIT_LATENCY : Z := 1.
Definition L2CACHE_HIT_LATENCY : Z := 10.

(** The calls issued below the L1 caches, in program order.  This is
    ghost state: no function reads it. *)
Inductive Event :=
  | EvL2 (line_addr : Z) (is_writeback : bool) (core_id : Z)
  | EvDram (line_addr : Z) (is_dram_write : bool).

(** Every cache and the DRAM are held through pointers, which
    [memsys_new] leaves null ([calloc]) in the modes that do not use them;
    dereferencing a null pointer is an error here. *)
Record MemorySystem := {
  dcache : option Cache;
  icache : option Cache;
  dcache_coreid : list (option Cache);   (* Cache *dcache_coreid[2] *)
  icache_coreid : list (option Cache);   (* Cache *icache_coreid[2] *)
  l2cache : option Cache;
  dram : option DRAM;
  stat_ifetch_access : Z;
  stat_load_access : Z;
  stat_store_access : Z;
  stat_ifetch_delay : Z;
  stat_load_delay : Z;
  stat_store_delay : Z;
  issued : list Event
}.

(** The L1 cache that [Cache *c] designates in [memsys_access_modeBC] and
    [memsys_access_modeDEF]. *)
Inductive L1 :=
  | L1_dcache | L1_icache
  | L1_dcache_coreid (core_id : Z) | L1_icache_coreid (core_id : Z).

Definition core_slot (core_id : Z) (l : list (option Cache)) : option Cache :=
  if 0 <=? core_id then mjoin (l !! Z.to_nat core_id) else None.

Definition l1_get (w : L1) (sys : MemorySystem) : option Cache :=
  match w with
  | L1_dcache => dcache sys
  | L1_icache => icache sys
  | L1_dcache_coreid k => core_slot k (dcache_coreid sys)
  | L1_icache_coreid k => core_slot k (icache_coreid sys)
  end.

Definition l1_set (w : L1) (c : Cache) (sys : MemorySystem) : MemorySystem :=
  {| dcache := match w with L1_dcache => Some c | _ => dcache sys end;
     icache := match w with L1_icache => Some c | _ => icache sys end;
     dcache_coreid :=
       match w with
       | L1_dcache_coreid k => <[Z.to_nat k := Some c]> (dcache_coreid sys)
       | _ => dcache_coreid sys
       end;
     icache_coreid :=
       match w with
       | L1_icache_coreid k => <[Z.to_nat k := Some c]> (icache_coreid sys)
       | _ => icache_coreid sys
       end;
     l2cache := l2cache sys; dram := dram sys;
     stat_ifetch_access := stat_ifetch_access sys;
     stat_load_access := stat_load_access sys;
     stat_store_access := stat_store_access sys;
     stat_ifetch_delay := stat_ifetch_delay sys;
     stat_load_delay := stat_load_delay sys;
     stat_store_delay := stat_store_delay sys;
     issued := issued sys |}.

Definition with_l2_dram (l2 : Cache) (d : option DRAM) (evs : list Event)
    (sys : MemorySystem) : MemorySystem :=
  {| dcache := dcache sys; icache := icache sys;
     dcache_coreid := dcache_coreid sys; icache_coreid := icache_coreid sys;
     l2cache := Some l2; dram := d;
     stat_ifetch_access := stat_ifetch_access sys;
     stat_load_access := stat_load_access sys;
     stat_store_access := stat_store_access sys;
     stat_ifetch_delay := stat_ifetch_delay sys;
     stat_load_delay := stat_load_delay sys;
     stat_store_delay := stat_store_delay sys;
     issued := issued sys ++ evs |}.

(** The address rebuilt for a writeback, as both callers compute it:
    [unsigned index = line_addr & c->index_mask;
     unsigned evicted_address = (c->lastEvictedLine.tag << c->index_bits) | index;] *)
Definition evicted_address (c : Cache) (line_addr : Z) : Z :=
  let index := u32 (Z.land line_addr (index_mask c)) in
  u32 (Z.lor (u64 (Z.shiftl (tag (lastEvictedLine c)) (index_bits c))) index).

Definition memsys_l2_access (sys : MemorySystem) (g : Globals) (line_addr : Z)
    (is_writeback : bool) (core_id : Z) : option (Z * MemorySystem * Globals) :=
  let delay := L2CACHE_HIT_LATENCY in
  let call := EvL2 line_addr is_writeback core_id in
  do l2 <- l2cache sys;
  match cache_access l2 g line_addr is_writeback core_id with
  | (HIT, l2a) => Some (delay, with_l2_dram l2a (dram sys) [call] sys, g)
  | (MISS, l2a) =>
      do d <- dram sys;
      let '(dd, d1) := dram_access d g line_addr false in
      let delay := u64 (delay + dd) in
      do (l2b, g1) <- cache_install l2a g line_addr is_writeback core_id;
      if valid (lastEvictedLine l2b) && dirty (lastEvictedLine l2b) then
        let a := evicted_address l2b line_addr in
        let '(_, d2) := dram_access d1 g1 a true in
        Some (delay,
              with_l2_dram l2b (Some d2)
                [call; EvDram line_addr false; EvDram a true] sys, g1)
      else
        Some (delay, with_l2_dram l2b (Some d1) [call; EvDram line_addr false] sys, g1)
  end.

(** The part that [memsys_access_modeBC] and [memsys_access_modeDEF] have
    in common, from [if (needs_cache_access)] on: [c] is the L1 cache
    chosen for the access type, [delay] the hit latency already added. *)
Definition memsys_l1_access (sys : MemorySystem) (g : Globals) (w : L1)
    (line_addr : Z) (type : AccessType) (is_write : bool) (core_id : Z)
    (delay : Z) : option (Z * MemorySystem * Globals) :=
  do c <- l1_get w sys;
  match cache_access c g line_addr is_write core_id with
  | (HIT, c1) => Some (delay, l1_set w c1 sys, g)
  | (MISS, c1) =>
      do (d2, sys1, g1) <- memsys_l2_access (l1_set w c1 sys) g line_addr false core_id;
      let delay := u64 (delay + d2) in
      do (c2, g2) <- cache_install c1 g1 line_addr is_write core_id;
      let sys2 := l1_set w c2 sys1 in
      match type with
      | ACCESS_TYPE_IFETCH => Some (delay, sys2, g2)
      | _ =>
          if valid (lastEvictedLine c2) && dirty (lastEvictedLine c2) then
            do (_, sys3, g3) <-
              memsys_l2_access sys2 g2 (evicted_address c2 line_addr) true core_id;
            Some (delay, sys3, g3)
          else Some (delay, sys2, g2)
      end
  end.

Definition memsys_access_modeA (sys : MemorySystem) (g : Globals)
    (line_addr : Z) (type : AccessType) (core_id : Z)
    : option (Z * MemorySystem * Globals) :=
  let '(needs_dcache_access, is_write) :=
    match type with
    | ACCESS_TYPE_IFETCH => (false, false)
    | ACCESS_TYPE_LOAD => (true, false)
    | ACCESS_TYPE_STORE => (true, true)
    end in
  if needs_dcache_access then
    do c <- dcache sys;
    match cache_access c g line_addr is_write core_id with
    | (HIT, c1) => Some (0, l1_set L1_dcache c1 sys, g)
    | (MISS, c1) =>
        do (c2, g1) <- cache_install c1 g line_addr is_write core_id;
        Some (0, l1_set L1_dcache c2 sys, g1)
    end
  else Some (0, sys, g).

Definition memsys_access_modeBC (sys : MemorySystem) (g : Globals)
    (line_addr : Z) (type : AccessType) (core_id : Z)
    : option (Z * MemorySystem * Globals) :=
  match type with
  | ACCESS_TYPE_IFETCH =>
      memsys_l1_access sys g L1_icache line_addr type false core_id
        (0 + ICACHE_HIT_LATENCY)
  | ACCESS_TYPE_LOAD =>
      memsys_l1_access sys g L1_dcache line_addr type false core_id
        (0 + DCACHE_HIT_LATENCY)
  | ACCESS_TYPE_STORE =>
      memsys_l1_access sys g L1_dcache line_addr type true core_id
        (0 + DCACHE_HIT_LATENCY)
  end.

(** [assert(NUM_CORES == 2)] aborts the run; [core_id << 21] is computed
    in [unsigned int], the other operands in [uint64_t]. *)
Definition memsys_convert_vpn_to_pfn (g : Globals) (vpn core_id : Z) : option Z :=
  if NUM_CORES g =? 2 then
    let tail := Z.land vpn 0xfffff in
    let head := Z.shiftr vpn 20 in
    Some (u64 (u64 (tail + u32 (Z.shiftl core_id 21)) + u64 (Z.shiftl head 21)))
  else None.

(** [int offset_bits = (unsigned) log2(PAGE_SIZE) - (unsigned) log2(CACHE_LINESIZE)]
    is the count of the three shifts that follow.  The shifts are defined
    when the count is not negative, that is for a line size below 8192, and
    the conversion of [log2(CACHE_LINESIZE)] is defined for a line size that
    is not zero: [shift_defined] is the test, and outside it the access is
    an error here. *)
Definition shift_defined (g : Globals) : bool :=
  (0 <? CACHE_LINESIZE g) && (Z.log2 (CACHE_LINESIZE g) <=? Z.log2 PAGE_SIZE).

Definition memsys_access_modeDEF (sys : MemorySystem) (g : Globals)
    (v_line_addr : Z) (type : AccessType) (core_id : Z)
    : option (Z * MemorySystem * Globals) :=
  let offset_bits := Z.log2 PAGE_SIZE - Z.log2 (CACHE_LINESIZE g) in
  if shift_defined g then
    let offset_mask := u32 (Z.shiftl 1 offset_bits - 1) in
    let vfn := Z.shiftr v_line_addr offset_bits in
    do pfn <- memsys_convert_vpn_to_pfn g vfn core_id;
    let p_line_addr :=
      Z.lor (u64 (Z.shiftl pfn offset_bits)) (Z.land v_line_addr offset_mask) in
    match type with
    | ACCESS_TYPE_IFETCH =>
        memsys_l1_access sys g (L1_icache_coreid core_id) p_line_addr type false
          core_id (0 + ICACHE_HIT_LATENCY)
    | ACCESS_TYPE_LOAD =>
        memsys_l1_access sys g (L1_dcache_coreid core_id) p_line_addr type false
          core_id (0 + DCACHE_HIT_LATENCY)
    | ACCESS_TYPE_STORE =>
        memsys_l1_access sys g (L1_dcache_coreid core_id) p_line_addr type true
          core_id (0 + DCACHE_HIT_LATENCY)
    end
  else None.

Definition count_reference (type : AccessType) (delay : Z) (sys : MemorySystem)
    : MemorySystem :=
  {| dcache := dcache sys; icache := icache sys;
     dcache_coreid := dcache_coreid sys; icache_coreid := icache_coreid sys;
     l2cache := l2cache sys; dram := dram sys;
     stat_ifetch_access :=
       match type with
       | ACCESS_TYPE_IFETCH => u64 (stat_ifetch_access sys + 1)
       | _ => stat_ifetch_access sys
       end;
     stat_load_access :=
       match type with
       | ACCESS_TYPE_LOAD => u64 (stat_load_access sys + 1)
       | _ => stat_load_access sys
       end;
     stat_store_access :=
       match type with
       | ACCESS_TYPE_STORE => u64 (stat_store_access sys + 1)
       | _ => stat_store_access sys
       end;
     stat_ifetch_delay :=
       match type with
       | ACCESS_TYPE_IFETCH => u64 (stat_ifetch_delay sys + delay)
       | _ => stat_ifetch_delay sys
       end;
     stat_load_delay :=
       match type with
       | ACCESS_TYPE_LOAD => u64 (stat_load_delay sys + delay)
       | _ => stat_load_delay sys
       end;
     stat_store_delay :=
       match type with
       | ACCESS_TYPE_STORE => u64 (stat_store_delay sys + delay)
       | _ => stat_store_delay sys
       end;
     issued := issued sys |}.

Definition memsys_access (sys : MemorySystem) (g : Globals) (addr : Z)
    (type : AccessType) (core_id : Z) : option (Z * MemorySystem * Globals) :=
  let line_addr := addr / CACHE_LINESIZE g in
  do (delay, sys1, g1) <-
    match SIM_MODE g with
    | SIM_MODE_A => memsys_access_modeA sys g line_addr type core_id
    | SIM_MODE_B | SIM_MODE_C => memsys_access_modeBC sys g line_addr type core_id
    | SIM_MODE_DEF => memsys_access_modeDEF sys g line_addr type core_id
    end;
  Some (delay, count_reference type delay sys1, g1).

Definition memsys_new (g : Globals) : MemorySystem :=
  let l1 asz aas := cache_new (asz g) (aas g) (CACHE_LINESIZE g) (REPL_POLICY g) in
  let cores slot :=
    (fix fill (n : nat) (i : nat) (l : list (option Cache)) :=
       match n with
       | O => l
       | S n' => fill n' (S i) (<[i := Some slot]> l)
       end) (Z.to_nat (NUM_CORES g)) 0%nat [None; None] in
  {| dcache :=
       match SIM_MODE g with
       | SIM_MODE_DEF => None
       | _ => Some (l1 DCACHE_SIZE DCACHE_ASSOC)
       end;
     icache :=
       match SIM_MODE g with
       | SIM_MODE_B | SIM_MODE_C => Some (l1 ICACHE_SIZE ICACHE_ASSOC)
       | _ => None
       end;
     dcache_coreid :=
       match SIM_MODE g with
       | SIM_MODE_DEF => cores (l1 DCACHE_SIZE DCACHE_ASSOC)
       | _ => [None; None]
       end;
     icache_coreid :=
       match SIM_MODE g with
       | SIM_MODE_DEF => cores (l1 ICACHE_SIZE ICACHE_ASSOC)
       | _ => [None; None]
       end;
     l2cache :=
       match SIM_MODE g with
       | SIM_MODE_A => None
       | SIM_MODE_B | SIM_MODE_C =>
           Some (cache_new (L2CACHE_SIZE g) (L2CACHE_ASSOC g) (CACHE_LINESIZE g)
                   (REPL_POLICY g))
       | SIM_MODE_DEF =>
           Some (cache_new (L2CACHE_SIZE g) (L2CACHE_ASSOC g) (CACHE_LINESIZE g)
                   (L2CACHE_REPL g))
       end;
     dram := match SIM_MODE g with SIM_MODE_A => None | _ => Some dram_new end;
     stat_ifetch_access := 0; stat_load_access := 0; stat_store_access := 0;
     stat_ifetch_delay := 0; stat_load_delay := 0; stat_store_delay := 0;
     issued := [] |}.

(** * Part II: the vocabulary of the statements *)

(** The number of ways of a row that hold a valid line of core [k]. *)
Fixpoint owned_ways (k : Z) (r : list CacheLine) : Z :=
  match r with
  | [] => 0
  | l :: r' => (if valid l && (coreID l =? k) then 1 else 0) + owned_ways k r'
  end.

(** A set is full when each of its [W] ways holds a valid line. *)
Definition full_set (W : nat) (s : CacheSet) : Prop :=
  forall w, (w < W)%nat -> valid (row s !!! w) = true.

(** Way [v] is the least recently used line of core [k] among the [W]
    ways of [r], the lowest such way in case of a tie. *)
Definition oldest_of_core (k : Z) (r : list CacheLine) (W v : nat) : Prop :=
  (v < W)%nat /\ coreID (r !!! v) = k /\
  forall w, (w < W)%nat -> coreID (r !!! w) = k ->
    lastAccessTime (r !!! v) < lastAccessTime (r !!! w) \/
    (lastAccessTime (r !!! v) = lastAccessTime (r !!! w) /\ (v <= w)%nat).

(** The set that [cache_access] searches for [line_addr]. *)
Definition set_index_of (c : Cache) (line_addr : Z) : nat :=
  Z.to_nat (to_int (Z.land line_addr (index_mask c))).

(** The cache holds [line_addr] for [core_id]: some way of its set passes
    the test of [cache_access]. *)
Definition holds (c : Cache) (line_addr core_id : Z) : Prop :=
  exists w, (w < Z.to_nat (ways c))%nat /\
    line_matches core_id (Z.shiftr line_addr (index_bits c))
      (row (cacheGrid c !!! set_index_of c line_addr) !!! w) = true.

(** Validity and ownership of the lines of a row, the part of the state
    that [ways_per_core] summarises. *)
Definition ownership (r : list CacheLine) : list (bool * Z) :=
  map (fun l => (valid l, coreID l)) r.

(** The shape of a set of a [W]-way cache, with the counters of both cores
    equal to the number of valid lines each core owns. *)
Record set_ok (W : Z) (s : CacheSet) : Prop := {
  ok_row : length (row s) = Z.to_nat W;
  ok_wpc : length (ways_per_core s) = 2%nat;
  ok_count0 : ways_per_core s !!! 0%nat = owned_ways 0 (row s);
  ok_count1 : ways_per_core s !!! 1%nat = owned_ways 1 (row s);
  ok_cores : Forall (fun l => valid l = true -> coreID l = 0 \/ coreID l = 1) (row s)
}.

(** The shape of a cache on which every index the code computes is in
    range. *)
Record cache_ok (c : Cache) : Prop := {
  ok_ways : 0 < ways c <= MAX_WAYS_PER_CACHE_SET;
  ok_bits : 0 <= index_bits c;
  ok_mask : index_mask c = Z.ones (index_bits c);
  ok_sets : 2 ^ index_bits c <= sets c <= 2 ^ 31;
  ok_grid : length (cacheGrid c) = Z.to_nat (sets c);
  ok_each : Forall (set_ok (ways c)) (cacheGrid c)
}.

(** The states of a cache that the interface can produce: [cache_new] on
    arguments for which it is defined (no division by zero, between 1 and
    [MAX_WAYS_PER_CACHE_SET] ways, at least one set), followed by any
    number of accesses and installs, under any value of the globals. *)
Inductive reachable : Cache -> Prop :=
  | reach_new size associativity line_size pol :
      0 < line_size -> 0 < associativity <= MAX_WAYS_PER_CACHE_SET ->
      0 < u32 ((size / line_size) / associativity) <= 2 ^ 31 ->
      reachable (cache_new size associativity line_size pol)
  | reach_access c g line_addr is_write core_id :
      reachable c -> 0 <= line_addr < 2 ^ 64 ->
      reachable (snd (cache_access c g line_addr is_write core_id))
  | reach_install c g line_addr is_write core_id c' g' :
      reachable c -> 0 <= line_addr < 2 ^ 64 ->
      cache_install c g line_addr is_write core_id = Some (c', g') ->
      reachable c'.

(** Accesses and installs that leave the line [line_addr] of [core_id] in
    place: any access, and any install that goes to another set or whose
    evicted line is not that line. *)
Inductive undisturbed (line_addr core_id : Z) : Cache -> Cache -> Prop :=
  | undisturbed_refl c : undisturbed line_addr core_id c c
  | undisturbed_access c g a is_write k c' :
      0 <= a < 2 ^ 64 ->
      undisturbed line_addr core_id (snd (cache_access c g a is_write k)) c' ->
      undisturbed line_addr core_id c c'
  | undisturbed_install c g a is_write k c1 g1 c' :
      0 <= a < 2 ^ 64 ->
      cache_install c g a is_write k = Some (c1, g1) ->
      Z.land a (index_mask c) <> Z.land line_addr (index_mask c) \/
      line_matches core_id (Z.shiftr line_addr (index_bits c))
        (lastEvictedLine c1) = false ->
      undisturbed line_addr core_id c1 c' ->
      undisturbed line_addr core_id c c'.

(** Modelled from the spec: the driver ([sim.cpp]) is not among the
    sources.  It feeds the references one after the other, each at its own
    value of [current_cycle]. *)
Record Reference := {
  ref_cycle : Z;
  ref_addr : Z;
  ref_type : AccessType;
  ref_core : Z
}.

Fixpoint memsys_run (sys : MemorySystem) (g : Globals) (refs : list Reference)
    : option (MemorySystem * Globals) :=
  match refs with
  | [] => Some (sys, g)
  | r :: refs' =>
      do (_, sys', g') <-
        memsys_access sys (set_current_cycle (ref_cycle r) g)
          (ref_addr r) (ref_type r) (ref_core r);
      memsys_run sys' g' refs'
  end.

(** The five counters of a cache, in the order READ_ACCESS, WRITE_ACCESS,
    READ_MISS, WRITE_MISS, DIRTY_EVICTS. *)
Definition cache_counters (c : Cache) : Z * Z * Z * Z * Z :=
  (stat_read_access c, stat_write_access c, stat_read_miss c,
   stat_write_miss c, stat_dirty_evicts c).

(** The delays of a sequence of DRAM reads. *)
Fixpoint dram_read_delays (d : DRAM) (g : Globals) (addrs : list Z) : list Z :=
  match addrs with
  | [] => []
  | a :: addrs' =>
      let '(delay, d') := dram_access d g a false in
      delay :: dram_read_delays d' g addrs'
  end.

(** *** Concrete configurations used as examples *)

Definition example_globals (mode : Mode) (pol : ReplacementPolicy)
    (size assoc : Z) : Globals :=
  {| current_cycle := 0; SWP_CORE0_WAYS := 1; DWP_CORE0_WAYS := 0;
     SIM_MODE := mode; DRAM_PAGE_POLICY := OPEN_PAGE; CACHE_LINESIZE := 64;
     REPL_POLICY := pol; DCACHE_SIZE := size; DCACHE_ASSOC := assoc;
     ICACHE_SIZE := size; ICACHE_ASSOC := assoc;
     L2CACHE_SIZE := size; L2CACHE_ASSOC := assoc; L2CACHE_REPL := pol;
     NUM_CORES := match mode with SIM_MODE_DEF => 2 | _ => 1 end;
     rand_tape := fun _ => 0%nat; rand_calls := 0 |}.

(** A sequence of cache operations, for building example states. *)
Inductive CacheOp :=
  | OpAccess (cycle line_addr : Z) (is_write : bool) (core_id : Z)
  | OpInstall (cycle line_addr : Z) (is_write : bool) (core_id : Z).

Fixpoint cache_ops (c : Cache) (g : Globals) (ops : list CacheOp)
    : option (Cache * Globals) :=
  match ops with
  | [] => Some (c, g)
  | OpAccess t a w k :: ops' =>
      cache_ops (snd (cache_access c (set_current_cycle t g) a w k))
        (set_current_cycle t g) ops'
  | OpInstall t a w k :: ops' =>
      do (c', g') <- cache_install c (set_current_cycle t g) a w k;
      cache_ops c' g' ops'
  end.

(** The line address of an operation is a [uint64_t]. *)
Definition op_in_range (op : CacheOp) : Prop :=
  match op with
  | OpAccess _ a _ _ | OpInstall _ a _ _ => 0 <= a < 2 ^ 64
  end.

(** One set of two ways, filled by core 0 (line 0, at cycle 1) and by
    core 1 (line 1, at cycle 2). *)
Definition two_way_shared (pol : ReplacementPolicy) : Cache :=
  match cache_ops (cache_new 128 2 64 pol) (example_globals SIM_MODE_DEF pol 128 2)
          [OpInstall 1 0 false 0; OpInstall 2 1 false 1] with
  | Some (c, _) => c
  | None => cache_new 128 2 64 pol
  end.

(** Two sets of one way: core 0 misses on a store to line [b] and installs
    it, then misses on a load of line 5 and installs it.  Line 5 goes to
    set 1 and evicts line [b] when [b] is odd. *)
Definition after_eviction_of (b : Z) : Cache :=
  match cache_ops (cache_new 128 1 64 LRU) (example_globals SIM_MODE_C LRU 128 1)
          [OpAccess 1 b true 0; OpInstall 1 b true 0;
           OpAccess 2 5 false 0; OpInstall 2 5 false 0] with
  | Some (c, _) => c
  | None => cache_new 128 1 64 LRU
  end.

(** A two-way cache after core 0 has missed on line 0 and installed it. *)
Definition after_first_install : Cache :=
  let g := example_globals SIM_MODE_A LRU 128 2 in
  let c := cache_new 128 2 64 LRU in
  match cache_install (snd (cache_access c g 0 false 0)) g 0 false 0 with
  | Some (c1, _) => c1
  | None => c
  end.

(** *** A cache of one line, seen as a state machine

    The state is what the single line holds (valid, dirty, tag, owner)
    together with the five counters; [one_line_step] is the effect of an
    access followed, on a miss, by the install of the line. *)
Definition line_view (l : CacheLine) : bool * bool * Z * Z :=
  (valid l, dirty l, tag l, coreID l).

Definition one_line_step (st : (bool * bool * Z * Z) * (Z * Z * Z * Z * Z))
    (a : Z) (w : bool) (k : Z) : (bool * bool * Z * Z) * (Z * Z * Z * Z * Z) :=
  let '((v, d, t, o), (ra, wa, rm, wm, de)) := st in
  let ra' := if w then ra else u64 (ra + 1) in
  let wa' := if w then u64 (wa + 1) else wa in
  if v && (o =? k) && (t =? a)
  then ((v, if w then true else d, t, o), (ra', wa', rm, wm, de))
  else ((true, w, a, k),
        (ra', wa',
         if w then rm else u64 (rm + 1),
         if w then u64 (wm + 1) else wm,
         if v && d then u64 (de + 1) else de)).

(** A well-shaped cache of one set and one way that holds [l]. *)
Definition single_line (c : Cache) (l : CacheLine) : Prop :=
  cache_ok c /\ ways c = 1 /\ index_bits c = 0 /\
  row (cacheGrid c !!! 0%nat) = [l].

(** *** The DWP quota in exact arithmetic

    The quota as the specification words it: the hits of a core are the
    sum of [totalHits] over the ways it owns, its utility is the integer
    part of [0.7 * hits + 0.3 * misses], and the quota of core 0 is the
    integer part of [utility 0 * W / max (utility 0 + utility 1) 1], all in
    unbounded integers. *)
Fixpoint owned_hits (r : list CacheLine) (hits : list Z) (k : Z) (W : nat) : Z :=
  match W with
  | O => 0
  | S W' =>
      owned_hits r hits k W'
      + (if coreID (r !!! W') =? k then hits !!! W' else 0)
  end.

Definition exact_utility (hits misses : Z) : Z := (7 * hits + 3 * misses) / 10.

Definition dwp_quota_spec (s : CacheSet) (W : Z) : Z :=
  let utility k :=
    exact_utility (owned_hits (row s) (totalHits (umon s)) k (Z.to_nat W))
      (totalMisses (umon s)) in
  (utility 0 * W) / Z.max (utility 0 + utility 1) 1.

(** One set of two ways under DWP: core 0 misses on line 0 and installs
    it, core 1 misses on line 1 and installs it, core 0 hits three times,
    core 1 four times, and core 0 misses on line 2. *)
Definition dwp_example : Cache :=
  match cache_ops (cache_new 128 2 64 DWP) (example_globals SIM_MODE_DEF DWP 128 2)
          [OpAccess 1 0 false 0; OpInstall 1 0 false 0;
           OpAccess 2 1 false 1; OpInstall 2 1 false 1;
           OpAccess 3 0 false 0; OpAccess 4 0 false 0; OpAccess 5 0 false 0;
           OpAccess 6 1 false 1; OpAccess 7 1 false 1; OpAccess 8 1 false 1;
           OpAccess 9 1 false 1;
           OpAccess 10 2 false 0] with
  | Some (c, _) => c
  | None => cache_new 128 2 64 DWP
  end.

(** Observations on the outcome of a run: a function of the data cache,
    and the calls issued below the L1 caches. *)
Definition dcache_after {A : Type} (f : Cache -> A)
    (r : option (MemorySystem * Globals)) : option A :=
  match r with
  | Some (sys, _) =>
      match dcache sys with Some c => Some (f c) | None => None end
  | None => None
  end.

Definition issued_after (r : option (MemorySystem * Globals)) : option (list Event) :=
  match r with
  | Some (sys, _) => Some (issued sys)
  | None => None
  end.

(** The invariant of the second loop: [index] is the best candidate among
    the ways in [lo, i). *)
Definition best_so_far (p : CacheLine -> bool) (r : list CacheLine)
    (lo i index : nat) (oldestTime : Z) : Prop :=
  oldestTime = lastAccessTime (r !!! index) /\
  p (r !!! index) = true /\ (lo <= index <= i)%nat /\
  forall k, (lo <= k < i)%nat -> p (r !!! k) = true ->
    oldestTime < lastAccessTime (r !!! k) \/
    (oldestTime = lastAccessTime (r !!! k) /\ (index <= k)%nat).

(** The line written by an install. *)
Definition installed_line (c : Cache) (g : Globals) (a : Z) (w : bool) (k : Z)
    : CacheLine :=
  {| valid := true; dirty := w; tag := Z.shiftr a (index_bits c); coreID := k;
     lastAccessTime := current_cycle g |}.

(** The L2 accesses that carry the writeback flag. *)
Definition is_writeback_call (e : Event) : bool :=
  match e with
  | EvL2 _ true _ => true
  | _ => false
  end.

Definition writebacks (evs : list Event) : list Event :=
  List.filter is_writeback_call evs.

(** The DRAM accesses that write. *)
Definition is_dram_write_call (e : Event) : bool :=
  match e with
  | EvDram _ true => true
  | _ => false
  end.

(** The cache holds [line_addr] for [core_id] in a way whose dirty bit is
    set. *)
Definition holds_dirty (c : Cache) (line_addr core_id : Z) : Prop :=
  exists w, (w < Z.to_nat (ways c))%nat /\
    line_matches core_id (Z.shiftr line_addr (index_bits c))
      (row (cacheGrid c !!! set_index_of c line_addr) !!! w) = true /\
    dirty (row (cacheGrid c !!! set_index_of c line_addr) !!! w) = true.

(** From [sys] to [sys'] the L2 stays allocated and well shaped, calls are
    only added to those issued, and a line [a] of core [k] that the L2 held
    dirty is still held dirty unless a DRAM write for the low 32 bits of
    [a] is among the calls added. *)
Definition dirty_line_kept (a k : Z) (sys sys' : MemorySystem) : Prop :=
  forall l2, l2cache sys = Some l2 -> cache_ok l2 ->
  exists l2' evs,
    l2cache sys' = Some l2' /\ cache_ok l2' /\
    issued sys' = issued sys ++ evs /\
    (holds_dirty l2 a k ->
     holds_dirty l2' a k \/ EvDram (a mod 2 ^ 32) true ∈ evs).

(** ** Binary64 values as scaled integers *)

(** After [k] one-bit shifts of [m]: the quotient, the round bit and the
    sticky bit account for [m]. *)
Definition shifted (m : Z) (k : nat) (x : shr_record) : Prop :=
  0 <= shr_m x /\
  exists u, 0 <= u < 2 ^ Z.of_nat k /\
    2 * m = shr_m x * 2 ^ (Z.of_nat k + 1)
            + (if shr_r x then 2 ^ Z.of_nat k else 0) + u /\
    (shr_s x = false <-> u = 0).

(** The value of a non-negative float, scaled by [2^K]. *)
Definition sf_scaled (K : Z) (x : spec_float) : Z :=
  match x with
  | S754_finite false m e => Z.pos m * 2 ^ (e + K)
  | _ => 0
  end.

(** A non-negative float whose exponent is at least [c - K]. *)
Definition sf_ok (K c : Z) (x : spec_float) : Prop :=
  x = S754_zero false \/
  exists m e, x = S754_finite false m e /\ c <= e + K.

(** ** Vocabulary of the further properties *)

(** One set of two ways, both filled by core 0: line 0 at cycle 1, line 1
    at cycle 2, and line 0 is hit again at cycle 3. *)
Definition filled_by_core0 (pol : ReplacementPolicy) : Cache :=
  match cache_ops (cache_new 128 2 64 pol) (example_globals SIM_MODE_DEF pol 128 2)
          [OpInstall 1 0 false 0; OpInstall 2 1 false 0; OpAccess 3 0 false 0] with
  | Some (c, _) => c
  | None => cache_new 128 2 64 pol
  end.


(** A sequence of DRAM accesses, each an address and a write flag: the
    delays in order, and the final state. *)
Fixpoint dram_run (d : DRAM) (g : Globals) (ops : list (Z * bool)) : list Z * DRAM :=
  match ops with
  | [] => ([], d)
  | (a, w) :: ops' =>
      let '(delay, d1) := dram_access d g a w in
      let '(delays, d2) := dram_run d1 g ops' in
      (delay :: delays, d2)
  end.

(** The number of accesses of one kind in a sequence, and the sum of the
    delays that were returned for them. *)
Fixpoint delay_sum (want : bool) (ops : list (Z * bool)) (delays : list Z) : Z :=
  match ops, delays with
  | (_, w) :: ops', delay :: delays' =>
      (if Bool.eqb w want then delay else 0) + delay_sum want ops' delays'
  | _, _ => 0
  end.

Definition access_count (want : bool) (ops : list (Z * bool)) : Z :=
  Z.of_nat (length (List.filter (fun op => Bool.eqb (snd op) want) ops)).

(** The physical line address that [memsys_access_modeDEF] computes from
    the virtual one, before it chooses the cache; an error where its shifts
    are undefined. *)
Definition p_line_addr_of (g : Globals) (v_line_addr core_id : Z) : option Z :=
  let offset_bits := Z.log2 PAGE_SIZE - Z.log2 (CACHE_LINESIZE g) in
  if shift_defined g then
    let offset_mask := u32 (Z.shiftl 1 offset_bits - 1) in
    let vfn := Z.shiftr v_line_addr offset_bits in
    do pfn <- memsys_convert_vpn_to_pfn g vfn core_id;
    Some (Z.lor (u64 (Z.shiftl pfn offset_bits)) (Z.land v_line_addr offset_mask))
  else None.

(** The L1 caches that each mode uses. *)
Definition l1_of_mode (m : Mode) : list L1 :=
  match m with
  | SIM_MODE_A => [L1_dcache]
  | SIM_MODE_B | SIM_MODE_C => [L1_dcache; L1_icache]
  | SIM_MODE_DEF =>
      [L1_dcache_coreid 0; L1_dcache_coreid 1; L1_icache_coreid 0; L1_icache_coreid 1]
  end.

(** A memory system in which each cache that mode [m] uses is allocated
    and well shaped, and the DRAM is allocated when the mode has one. *)
Definition memsys_ok (m : Mode) (sys : MemorySystem) : Prop :=
  (forall w, w ∈ l1_of_mode m -> exists c, l1_get w sys = Some c /\ cache_ok c) /\
  (m <> SIM_MODE_A ->
   exists l2 d, l2cache sys = Some l2 /\ cache_ok l2 /\ dram sys = Some d).

(** Sizes for which [cache_new] is defined: no division by zero, between 1
    and [MAX_WAYS_PER_CACHE_SET] ways, between 1 and [2^31] sets. *)
Definition geometry_ok (size associativity line_size : Z) : Prop :=
  0 < line_size /\ 0 < associativity <= MAX_WAYS_PER_CACHE_SET /\
  0 < u32 ((size / line_size) / associativity) <= 2 ^ 31.

(** A configuration on which [memsys_new] and [memsys_access] are defined:
    the caches that the mode allocates have sizes that [cache_new]
    accepts, and modes D to F run with two cores and with a line size below
    8192, for which the shifts of [memsys_access_modeDEF] are defined. *)
Definition config_ok (g : Globals) : Prop :=
  geometry_ok (DCACHE_SIZE g) (DCACHE_ASSOC g) (CACHE_LINESIZE g) /\
  (SIM_MODE g <> SIM_MODE_A ->
   geometry_ok (ICACHE_SIZE g) (ICACHE_ASSOC g) (CACHE_LINESIZE g) /\
   geometry_ok (L2CACHE_SIZE g) (L2CACHE_ASSOC g) (CACHE_LINESIZE g)) /\
  (SIM_MODE g = SIM_MODE_DEF -> NUM_CORES g = 2 /\ CACHE_LINESIZE g < 8192).

(** The globals that no function of the memory system writes. *)
Definition same_config (g g' : Globals) : Prop :=
  SIM_MODE g' = SIM_MODE g /\ NUM_CORES g' = NUM_CORES g /\
  CACHE_LINESIZE g' = CACHE_LINESIZE g /\
  DRAM_PAGE_POLICY g' = DRAM_PAGE_POLICY g /\
  SWP_CORE0_WAYS g' = SWP_CORE0_WAYS g.

(** The two counters that [memsys_access] keeps for each type of
    reference. *)
Definition stat_access (t : AccessType) (sys : MemorySystem) : Z :=
  match t with
  | ACCESS_TYPE_IFETCH => stat_ifetch_access sys
  | ACCESS_TYPE_LOAD => stat_load_access sys
  | ACCESS_TYPE_STORE => stat_store_access sys
  end.

Definition stat_delay (t : AccessType) (sys : MemorySystem) : Z :=
  match t with
  | ACCESS_TYPE_IFETCH => stat_ifetch_delay sys
  | ACCESS_TYPE_LOAD => stat_load_delay sys
  | ACCESS_TYPE_STORE => stat_store_delay sys
  end.

Definition same_type (a b : AccessType) : bool :=
  match a, b with
  | ACCESS_TYPE_IFETCH, ACCESS_TYPE_IFETCH
  | ACCESS_TYPE_LOAD, ACCESS_TYPE_LOAD
  | ACCESS_TYPE_STORE, ACCESS_TYPE_STORE => true
  | _, _ => false
  end.

(** A run that returns the delay of each reference. *)
Fixpoint memsys_delays (sys : MemorySystem) (g : Globals) (refs : list Reference)
    : option (list Z) :=
  match refs with
  | [] => Some []
  | r :: refs' =>
      do (delay, sys', g') <-
        memsys_access sys (set_current_cycle (ref_cycle r) g)
          (ref_addr r) (ref_type r) (ref_core r);
      do delays <- memsys_delays sys' g' refs';
      Some (delay :: delays)
  end.

(** The number of references of type [t], and the sum of their delays. *)
Fixpoint reference_count (t : AccessType) (refs : list Reference) : Z :=
  match refs with
  | [] => 0
  | r :: refs' => (if same_type (ref_type r) t then 1 else 0) + reference_count t refs'
  end.

Fixpoint reference_delay (t : AccessType) (refs : list Reference) (delays : list Z) : Z :=
  match refs, delays with
  | r :: refs', delay :: delays' =>
      (if same_type (ref_type r) t then delay else 0) + reference_delay t refs' delays'
  | _, _ => 0
  end.

(** No set holds two valid lines with the same tag for the same core. *)
Definition lines_unique (c : Cache) : Prop :=
  forall j i1 i2,
    (i1 < Z.to_nat (ways c))%nat -> (i2 < Z.to_nat (ways c))%nat ->
    let l1 := row (cacheGrid c !!! j) !!! i1 in
    let l2 := row (cacheGrid c !!! j) !!! i2 in
    valid l1 = true -> valid l2 = true ->
    tag l1 = tag l2 -> coreID l1 = coreID l2 -> i1 = i2.

(** The counters of the DRAM agree with those of the L2: as many DRAM
    reads as L2 misses, as many DRAM writes as dirty evictions from the L2,
    modulo [2^64]. *)
Definition l2_dram_stats_agree (sys : MemorySystem) : Prop :=
  forall l2 d, l2cache sys = Some l2 -> dram sys = Some d ->
    Dram.stat_read_access d = u64 (stat_read_miss l2 + stat_write_miss l2) /\
    Dram.stat_write_access d = u64 (stat_dirty_evicts l2).

(** In modes B and C the counters of the three caches agree with one
    another and with the counters of the memory system, modulo [2^64]. *)
Definition cache_stats_agree (sys : MemorySystem) : Prop :=
  exists dc ic l2,
    dcache sys = Some dc /\ icache sys = Some ic /\ l2cache sys = Some l2 /\
    stat_read_access dc = stat_load_access sys /\
    stat_write_access dc = stat_store_access sys /\
    stat_read_access ic = stat_ifetch_access sys /\
    stat_write_access ic = 0 /\ stat_write_miss ic = 0 /\
    stat_read_access l2
    = u64 (stat_read_miss ic + stat_read_miss dc + stat_write_miss dc) /\
    stat_write_access l2 = u64 (stat_dirty_evicts dc).

(** * Part III: properties *)

(** Case analysis on the conditions of the [if]s and the scrutinees of the
    [match]es left in the goal. *)
Ltac case_if :=
  match goal with
  | |- context [if ?b then _ else _] => destruct b eqn:?
  end.

(** ** Machine integers *)

Lemma u32_small x : 0 <= x < 2 ^ 32 -> u32 x = x.
Proof. intros H. unfold u32. apply Z.mod_small. lia. Qed.

Lemma u64_small x : 0 <= x < 2 ^ 64 -> u64 x = x.
Proof. intros H. unfold u64. apply Z.mod_small. lia. Qed.

Lemma u32_range x : 0 <= u32 x < 2 ^ 32.
Proof. unfold u32. apply Z.mod_pos_bound. lia. Qed.

Lemma u64_range x : 0 <= u64 x < 2 ^ 64.
Proof. unfold u64. apply Z.mod_pos_bound. lia. Qed.

(** Removes the wrap-arounds whose argument is in range. *)
Ltac unwrap :=
  repeat match goal with
         | |- context [u32 ?x] => rewrite (u32_small x) by lia
         | |- context [u64 ?x] => rewrite (u64_small x) by lia
         end.

Lemma to_int_small x : 0 <= x < 2 ^ 31 -> to_int x = x.
Proof.
  intros H. unfold to_int. rewrite u32_small by lia.
  destruct (Z.ltb_spec x (2 ^ 31)); lia.
Qed.

(** ** The two search loops *)

Lemma first_way_Some p r i n j :
  first_way p r i n = Some j ->
  (i <= j < i + n)%nat /\ p (r !!! j) = true /\
  forall k, (i <= k < j)%nat -> p (r !!! k) = false.
Proof.
  revert i. induction n as [|n IH]; intros i; simpl; [discriminate|].
  destruct (p (r !!! i)) eqn:Hp.
  - intros [= <-]. repeat split; [lia | lia | assumption | intros k Hk; lia].
  - intros H. destruct (IH _ H) as (Hr & Hj & Hb).
    repeat split; [lia | lia | assumption |].
    intros k Hk. destruct (decide (k = i)) as [-> | Hne]; [assumption|].
    apply Hb. lia.
Qed.

Lemma first_way_None p r i n :
  first_way p r i n = None ->
  forall k, (i <= k < i + n)%nat -> p (r !!! k) = false.
Proof.
  revert i. induction n as [|n IH]; intros i; simpl; [intros _ k Hk; lia|].
  destruct (p (r !!! i)) eqn:Hp; [discriminate|].
  intros H k Hk. destruct (decide (k = i)) as [-> | Hne]; [assumption|].
  apply (IH _ H). lia.
Qed.

Lemma first_way_exists p r i n k :
  (i <= k < i + n)%nat -> p (r !!! k) = true ->
  exists j, first_way p r i n = Some j.
Proof.
  intros Hk Hp. destruct (first_way p r i n) as [j|] eqn:E; [eauto|].
  rewrite (first_way_None _ _ _ _ E k Hk) in Hp. discriminate.
Qed.

Lemma oldest_way_spec p r lo n : forall i index oldestTime,
  best_so_far p r lo i index oldestTime ->
  let v := oldest_way p r i n index oldestTime in
  best_so_far p r lo (i + n) v (lastAccessTime (r !!! v)) /\
  (v = index \/ (i <= v < i + n)%nat).
Proof.
  induction n as [|n IH]; intros i index old Hinv; simpl.
  - destruct Hinv as (-> & Hp & Hr & Hb).
    split; [|left; reflexivity].
    repeat split; try assumption; try lia.
    intros k Hk. apply Hb. lia.
  - destruct Hinv as (Hold & Hp & Hr & Hb).
    destruct (p (r !!! i) && (lastAccessTime (r !!! i) <? old)) eqn:Hc.
    + apply andb_true_iff in Hc as [Hpi Hlt]. apply Z.ltb_lt in Hlt.
      destruct (IH (S i) i (lastAccessTime (r !!! i))) as [H1 H2].
      { repeat split; try assumption; try lia.
        intros k Hk Hpk. destruct (decide (k = i)) as [-> | Hne].
        - right. split; [reflexivity | lia].
        - destruct (Hb k ltac:(lia) Hpk) as [? | [? ?]]; left; lia. }
      split; [replace (i + S n)%nat with (S i + n)%nat by lia; exact H1|].
      right. destruct H2 as [-> | ?]; lia.
    + destruct (IH (S i) index old) as [H1 H2].
      { repeat split; try assumption; try lia.
        intros k Hk Hpk. destruct (decide (k = i)) as [-> | Hne].
        - rewrite Hpk in Hc. simpl in Hc. apply Z.ltb_ge in Hc.
          destruct (Z.eq_dec old (lastAccessTime (r !!! i))); [right | left]; lia.
        - apply Hb; [lia | assumption]. }
      split; [replace (i + S n)%nat with (S i + n)%nat by lia; exact H1|].
      destruct H2 as [-> | ?]; [left; reflexivity | right; lia].
Qed.

(** The eviction of SWP and DWP: when some way belongs to the target
    core, the victim is the oldest line of that core. *)
Lemma partition_victim_spec r W ways_core0 Q core_id :
  let target := if ways_core0 <? Q then 1 else core_id in
  (exists w, (w < W)%nat /\ coreID (r !!! w) = target) ->
  oldest_of_core target r W (partition_victim r W ways_core0 Q core_id).
Proof.
  intros target (w & Hw & Hc). unfold partition_victim. fold target.
  destruct (first_way_exists (fun l => coreID l =? target) r 0 W w) as [i Hi];
    [lia | apply Z.eqb_eq; assumption |].
  rewrite Hi. apply first_way_Some in Hi as (Hr & Hpi & Hbefore).
  pose proof (oldest_way_spec (fun l => coreID l =? target) r i (W - i) i i
                (lastAccessTime (r !!! i))) as Hspec.
  destruct Hspec as [(_ & Hpv & Hrv & Hbest) Hwhere].
  { repeat split; [assumption | lia | lia | intros k Hk; lia]. }
  set (v := oldest_way _ r i (W - i) i _) in *.
  replace (i + (W - i))%nat with W in * by lia.
  repeat split.
  - destruct Hwhere as [-> | ?]; lia.
  - apply Z.eqb_eq. exact Hpv.
  - intros k Hk Hck. destruct (le_lt_dec i k) as [Hik | Hik].
    + apply Hbest; [lia | apply Z.eqb_eq; assumption].
    + exfalso. pose proof (Hbefore k ltac:(lia)) as Hf. simpl in Hf.
      apply Z.eqb_neq in Hf. contradiction.
Qed.

Lemma partition_victim_none r W ways_core0 Q core_id :
  let target := if ways_core0 <? Q then 1 else core_id in
  (forall w, (w < W)%nat -> coreID (r !!! w) <> target) ->
  partition_victim r W ways_core0 Q core_id = 0%nat.
Proof.
  intros target Hnone. unfold partition_victim. fold target.
  destruct (first_way _ r 0 W) as [i|] eqn:E; [|reflexivity].
  apply first_way_Some in E as (Hr & Hp & _). apply Z.eqb_eq in Hp.
  exfalso. apply (Hnone i); [lia | assumption].
Qed.

(** ** Static way partitioning *)

(** C3.  Under SWP on a full set: when core 0 holds at least its quota and
    the set has lines of both cores, the victim is a line of the requesting
    core; when core 0 is under its quota and core 1 has a line, the victim
    is a line of core 1; and the victim is the least recently used line of
    the core it is taken from, the lowest way among equally old ones. *)
Theorem swp_victim_choice (c : Cache) (g : Globals) (set_index core_id : Z) :
  let s := cacheGrid c !!! Z.to_nat set_index in
  let W := Z.to_nat (ways c) in
  let v := fst (cache_find_victim c g set_index core_id) in
  let ways0 := ways_per_core s !!! 0%nat in
  let target := if ways0 <? SWP_CORE0_WAYS g then 1 else core_id in
  policy c = SWP -> full_set W s ->
  (SWP_CORE0_WAYS g <= ways0 -> core_id = 0 \/ core_id = 1 ->
   (exists w0 w1, (w0 < W)%nat /\ (w1 < W)%nat /\
      coreID (row s !!! w0) = 0 /\ coreID (row s !!! w1) = 1) ->
   coreID (row s !!! v) = core_id) /\
  (ways0 < SWP_CORE0_WAYS g ->
   (exists w1, (w1 < W)%nat /\ coreID (row s !!! w1) = 1) ->
   coreID (row s !!! v) = 1) /\
  ((exists w, (w < W)%nat /\ coreID (row s !!! w) = target) ->
   oldest_of_core target (row s) W v).
Proof.
  intros s W v ways0 target Hpol Hfull.
  assert (Hv : v = partition_victim (row s) W ways0 (SWP_CORE0_WAYS g) core_id).
  { unfold v, cache_find_victim. fold s W.
    destruct (first_way (fun l => negb (valid l)) (row s) 0 W) as [i|] eqn:E.
    - apply first_way_Some in E as (Hr & Hp & _).
      rewrite Hfull in Hp by lia. discriminate.
    - rewrite Hpol. reflexivity. }
  assert (Hspec : (exists w, (w < W)%nat /\ coreID (row s !!! w) = target) ->
                  oldest_of_core target (row s) W v).
  { intros Hex. rewrite Hv. apply partition_victim_spec. exact Hex. }
  split; [|split]; [| |exact Hspec].
  - intros Hq Hcore (w0 & w1 & Hw0 & Hw1 & Hc0 & Hc1).
    assert (Ht : target = core_id).
    { unfold target. destruct (Z.ltb_spec ways0 (SWP_CORE0_WAYS g)); [lia | reflexivity]. }
    rewrite Ht in Hspec. apply Hspec.
    destruct Hcore as [-> | ->]; [exists w0 | exists w1]; split; assumption.
  - intros Hq Hex.
    assert (Ht : target = 1).
    { unfold target. destruct (Z.ltb_spec ways0 (SWP_CORE0_WAYS g)); [reflexivity | lia]. }
    rewrite Ht in Hspec. apply Hspec. exact Hex.
Qed.

Lemma swp_victim_choice_witness :
  let c := two_way_shared SWP in
  let g := example_globals SIM_MODE_DEF SWP 128 2 in
  let s := cacheGrid c !!! 0%nat in
  policy c = SWP /\ full_set 2 s /\
  oldest_of_core 1 (row s) 2 (fst (cache_find_victim c g 0 1)).
Proof.
  intros c g s.
  assert (Hfull : full_set 2 s).
  { intros w Hw. destruct w as [|[|w]]; [reflexivity | reflexivity | lia]. }
  split; [reflexivity | split; [exact Hfull |]].
  apply (swp_victim_choice c g 0 1); [reflexivity | exact Hfull |].
  exists 1%nat. split; [change (1 < 2)%nat; lia | reflexivity].
Defined.

(** ** The DRAM timing model *)

Lemma dram_bank_range d a : 0 <= dram_bank d a < NUM_BANKS.
Proof. unfold dram_bank, NUM_BANKS. apply Z.mod_pos_bound. lia. Qed.

Lemma dram_access_bank_bits d g a w :
  Dram.bank_bits (snd (dram_access d g a w)) = Dram.bank_bits d.
Proof.
  unfold dram_access, dram_access_mode_CDEF.
  destruct (SIM_MODE g), (DRAM_PAGE_POLICY g), w; repeat case_if; reflexivity.
Qed.

Lemma dram_access_length d g a w :
  length (Dram.rowbuf (snd (dram_access d g a w))) = length (Dram.rowbuf d).
Proof.
  unfold dram_access, dram_access_mode_CDEF.
  destruct (SIM_MODE g), (DRAM_PAGE_POLICY g), w; repeat case_if;
    simpl; rewrite ?length_insert; reflexivity.
Qed.

(** What one access does outside mode B, case by case on the row buffer
    of the addressed bank. *)
Lemma dram_access_cases (d : DRAM) (g : Globals) (a : Z) (w : bool) :
  let row_no := dram_row d a in
  let bank_no := Z.to_nat (dram_bank d a) in
  let rb := Dram.rowbuf d !!! bank_no in
  let delay := fst (dram_access d g a w) in
  let rowbuf' := Dram.rowbuf (snd (dram_access d g a w)) in
  SIM_MODE g <> SIM_MODE_B ->
  match DRAM_PAGE_POLICY g with
  | OPEN_PAGE =>
      if Dram.valid rb then
        if Dram.rowID rb =? row_no
        then delay = DELAY_BUS + DELAY_CAS /\ rowbuf' = Dram.rowbuf d
        else delay = DELAY_BUS + (DELAY_PRE + DELAY_ACT + DELAY_CAS) /\
             rowbuf' = <[bank_no := {| Dram.valid := true; Dram.rowID := row_no |}]>
                         (Dram.rowbuf d)
      else delay = DELAY_BUS + (DELAY_ACT + DELAY_CAS) /\
           rowbuf' = <[bank_no := {| Dram.valid := true; Dram.rowID := row_no |}]>
                       (Dram.rowbuf d)
  | CLOSE_PAGE =>
      delay = DELAY_BUS + (DELAY_ACT + DELAY_CAS) /\
      rowbuf' = <[bank_no := {| Dram.valid := false; Dram.rowID := row_no |}]>
                  (Dram.rowbuf d)
  end.
Proof.
  intros row_no bank_no rb delay rowbuf' Hmode.
  unfold delay, rowbuf', dram_access, dram_access_mode_CDEF.
  fold row_no bank_no rb.
  destruct (SIM_MODE g); try contradiction;
    destruct (DRAM_PAGE_POLICY g);
    try (destruct (Dram.valid rb) eqn:Hv; [destruct (Dram.rowID rb =? row_no)|]);
    destruct w; simpl; rewrite ?Hv; split; reflexivity.
Qed.



(** C6, as the code behaves.  From a fresh DRAM under open-page, outside
    mode B, four reads whose row numbers are 5, 5, 7, 5 cost 100, 55, 100
    and 55 cycles: the bank is the row number modulo [NUM_BANKS], so rows 5
    and 7 lie in banks 5 and 7 and never displace one another.  Rows that
    do share a bank, such as 5, 5, 21, 5 in bank 5, cost 100, 55, 145, 145. *)
Theorem dram_rows_5_5_7_5 (g : Globals) (a1 a2 a3 a4 : Z) :
  SIM_MODE g = SIM_MODE_C -> DRAM_PAGE_POLICY g = OPEN_PAGE ->
  dram_row dram_new a1 = 5 -> dram_row dram_new a2 = 5 ->
  dram_row dram_new a4 = 5 ->
  (dram_row dram_new a3 = 7 ->
   map (dram_bank dram_new) [a1; a2; a3; a4] = [5; 5; 7; 5] /\
   dram_read_delays dram_new g [a1; a2; a3; a4] = [100; 55; 100; 55]) /\
  (dram_row dram_new a3 = 21 ->
   map (dram_bank dram_new) [a1; a2; a3; a4] = [5; 5; 5; 5] /\
   dram_read_delays dram_new g [a1; a2; a3; a4] = [100; 55; 145; 145]).
Proof.
  intros Hmode Hpol H1 H2 H4.
  unfold dram_row in H1, H2, H4. simpl in H1, H2, H4.
  split; intros H3; unfold dram_row in H3; simpl in H3;
    (split;
     [ unfold dram_bank, dram_row; simpl; rewrite H1, H2, H3, H4; reflexivity
     | unfold dram_read_delays, dram_access, dram_access_mode_CDEF,
         dram_bank, dram_row;
       rewrite Hmode, Hpol; simpl;
       rewrite ?H1, ?H2, ?H3, ?H4; simpl;
       rewrite ?H1, ?H2, ?H3, ?H4; simpl;
       rewrite ?H1, ?H2, ?H3, ?H4; simpl;
       rewrite ?H1, ?H2, ?H3, ?H4; reflexivity ]).
Qed.

Lemma dram_rows_5_5_7_5_witness :
  let g := example_globals SIM_MODE_C LRU 64 1 in
  SIM_MODE g = SIM_MODE_C /\ DRAM_PAGE_POLICY g = OPEN_PAGE /\
  dram_row dram_new 80 = 5 /\ dram_row dram_new 112 = 7 /\
  dram_read_delays dram_new g [80; 80; 112; 80] = [100; 55; 100; 55].
Proof.
  intros g. repeat (split; [reflexivity|]).
  apply (dram_rows_5_5_7_5 g 80 80 112 80); reflexivity.
Defined.

(** The scenario of C6 as stated fails on line addresses 80, 80, 112, 80,
    whose rows are 5, 5, 7, 5: they are not in bank 0, not even in one
    bank, and the last two reads do not cost 145 cycles. *)
Lemma dram_rows_5_5_7_5_counterexample :
  let g := example_globals SIM_MODE_C LRU 64 1 in
  map (dram_row dram_new) [80; 80; 112; 80] = [5; 5; 7; 5] /\
  map (dram_bank dram_new) [80; 80; 112; 80] = [5; 5; 7; 5] /\
  dram_read_delays dram_new g [80; 80; 112; 80] <> [100; 55; 145; 145].
Proof.
  intros g. split; [reflexivity | split; [reflexivity |]].
  vm_compute. discriminate.
Qed.

(** ** Address translation *)

(** C8.  With the two cores the function asserts, and for every 64-bit
    [vpn], the frame number is [(vpn & 0xFFFFF) + (core_id << 21) +
    ((vpn >> 20) << 21)] in 64-bit arithmetic, which is the exact sum for
    every [vpn] below [2^63 - 2^20]; cores 0 and 1 map page 0 to frames 0 and
    [0x200000], and no two pages below [2^20] of different cores share a
    frame. *)
Theorem vpn_to_pfn_formula (g : Globals) (vpn core_id : Z) :
  NUM_CORES g = 2 -> 0 <= vpn < 2 ^ 64 -> core_id = 0 \/ core_id = 1 ->
  memsys_convert_vpn_to_pfn g vpn core_id =
    Some (u64 (Z.land vpn 0x000FFFFF + Z.shiftl core_id 21
               + Z.shiftl (Z.shiftr vpn 20) 21)) /\
  (vpn < 2 ^ 63 - 2 ^ 20 ->
   memsys_convert_vpn_to_pfn g vpn core_id =
     Some (Z.land vpn 0x000FFFFF + Z.shiftl core_id 21
           + Z.shiftl (Z.shiftr vpn 20) 21)) /\
  memsys_convert_vpn_to_pfn g 0 0 = Some 0 /\
  memsys_convert_vpn_to_pfn g 0 1 = Some 0x200000 /\
  (forall v0 v1, 0 <= v0 < 2 ^ 20 -> 0 <= v1 < 2 ^ 20 ->
     memsys_convert_vpn_to_pfn g v0 0 <> memsys_convert_vpn_to_pfn g v1 1).
Proof.
  intros Hn Hvpn Hcore.
  assert (Htail : forall v, 0 <= v -> 0 <= Z.land v 0xfffff < 2 ^ 20).
  { intros v Hv. change 0xfffff with (Z.ones 20).
    rewrite Z.land_ones by lia. apply Z.mod_pos_bound. lia. }
  assert (Hshift : Z.shiftl core_id 21 = core_id * 2 ^ 21)
    by (apply Z.shiftl_mul_pow2; lia).
  assert (Hc32 : u32 (Z.shiftl core_id 21) = Z.shiftl core_id 21).
  { apply u32_small. rewrite Hshift. destruct Hcore as [-> | ->]; lia. }
  assert (Hhead : 0 <= Z.shiftr vpn 20 < 2 ^ 44).
  { rewrite Z.shiftr_div_pow2 by lia. split.
    - apply Z.div_pos; lia.
    - apply Z.div_lt_upper_bound; lia. }
  assert (Hgen : memsys_convert_vpn_to_pfn g vpn core_id =
    Some (u64 (Z.land vpn 0x000FFFFF + Z.shiftl core_id 21
               + Z.shiftl (Z.shiftr vpn 20) 21))).
  { unfold memsys_convert_vpn_to_pfn. rewrite Hn. simpl (2 =? 2).
    cbv iota. f_equal. rewrite Hc32.
    rewrite (u64_small (_ + Z.shiftl core_id 21)).
    - unfold u64. rewrite Z.add_mod_idemp_r by lia. reflexivity.
    - pose proof (Htail vpn ltac:(lia)). rewrite Hshift.
      destruct Hcore as [-> | ->]; lia. }
  split; [exact Hgen | split; [| split; [| split]]].
  - intros Hsmall. rewrite Hgen. f_equal. apply u64_small.
    pose proof (Htail vpn ltac:(lia)) as Ht.
    assert (Z.shiftr vpn 20 < 2 ^ 43 - 1).
    { rewrite Z.shiftr_div_pow2 by lia. apply Z.div_lt_upper_bound; lia. }
    rewrite Hshift, (Z.shiftl_mul_pow2 (Z.shiftr vpn 20)) by lia.
    destruct Hcore as [-> | ->]; lia.
  - unfold memsys_convert_vpn_to_pfn. rewrite Hn. reflexivity.
  - unfold memsys_convert_vpn_to_pfn. rewrite Hn. reflexivity.
  - intros v0 v1 H0 H1. unfold memsys_convert_vpn_to_pfn. rewrite Hn.
    simpl (2 =? 2). cbv iota.
    assert (Hs : forall v, 0 <= v < 2 ^ 20 -> Z.shiftr v 20 = 0).
    { intros v Hv. rewrite Z.shiftr_div_pow2 by lia. apply Z.div_small. lia. }
    rewrite (Hs v0 H0), (Hs v1 H1).
    pose proof (Htail v0 ltac:(lia)) as Ht0. pose proof (Htail v1 ltac:(lia)) as Ht1.
    change (u32 (Z.shiftl 0 21)) with 0. change (u32 (Z.shiftl 1 21)) with (2 ^ 21).
    change (u64 (Z.shiftl 0 21)) with 0.
    rewrite !Z.add_0_r.
    rewrite (u64_small (Z.land v0 _)), (u64_small (Z.land v0 _)) by lia.
    rewrite (u64_small (Z.land v1 _ + _)), (u64_small (Z.land v1 _ + _)) by lia.
    intros [= Heq]. lia.
Qed.

Lemma vpn_to_pfn_formula_witness :
  let g := example_globals SIM_MODE_DEF LRU 64 1 in
  NUM_CORES g = 2 /\ 0 <= 0x123456 < 2 ^ 64 /\
  memsys_convert_vpn_to_pfn g 0x123456 1 =
    Some (Z.land 0x123456 0x000FFFFF + Z.shiftl 1 21
          + Z.shiftl (Z.shiftr 0x123456 20) 21).
Proof.
  intros g.
  assert (Hr : 0 <= 0x123456 < 2 ^ 64) by lia.
  split; [reflexivity | split; [exact Hr |]].
  apply (vpn_to_pfn_formula g 0x123456 1 eq_refl Hr (or_intror eq_refl)). lia.
Defined.

(** ** The shape of a cache *)

Lemma oldest_way_range p r n : forall i index oldestTime,
  let v := oldest_way p r i n index oldestTime in
  v = index \/ (i <= v < i + n)%nat.
Proof.
  induction n as [|n IH]; intros i index old; simpl; [left; reflexivity|].
  case_if.
  - destruct (IH (S i) i (lastAccessTime (r !!! i))) as [-> | ?]; right; lia.
  - destruct (IH (S i) index old) as [-> | ?]; [left; reflexivity | right; lia].
Qed.

Lemma partition_victim_range r W ways0 Q core_id :
  (0 < W)%nat -> (partition_victim r W ways0 Q core_id < W)%nat.
Proof.
  intros HW. unfold partition_victim.
  destruct (first_way _ r 0 W) as [i|] eqn:E; [|exact HW].
  apply first_way_Some in E as (Hr & _ & _).
  match goal with
  | |- (oldest_way ?p r i ?n i ?t < W)%nat =>
      destruct (oldest_way_range p r n i i t) as [-> | ?]; lia
  end.
Qed.

(** The victim is one of the ways of the set. *)
Lemma cache_find_victim_range c g set_index core_id :
  0 < ways c < 2 ^ 32 ->
  (fst (cache_find_victim c g set_index core_id) < Z.to_nat (ways c))%nat.
Proof.
  intros HW. unfold cache_find_victim.
  set (s := cacheGrid c !!! Z.to_nat set_index).
  destruct (first_way _ (row s) 0 (Z.to_nat (ways c))) as [i|] eqn:E.
  - apply first_way_Some in E as (Hr & _ & _). simpl. lia.
  - destruct (policy c); simpl.
    + match goal with
      | |- (oldest_way ?p ?r 0 ?n 0 ?t < _)%nat =>
          destruct (oldest_way_range p r n 0%nat 0%nat t) as [-> | ?]; lia
      end.
    + pose proof (Z.mod_pos_bound (Z.of_nat (rand_tape g (rand_calls g)) mod 2 ^ 31)
                    (ways c) ltac:(lia)).
      rewrite u32_small by lia. lia.
    + apply partition_victim_range. lia.
    + apply partition_victim_range. lia.
Qed.

(** The victim of a set with an invalid way is its first invalid way. *)
Lemma cache_find_victim_invalid c g set_index core_id i :
  first_way (fun l => negb (valid l)) (row (cacheGrid c !!! Z.to_nat set_index)) 0
    (Z.to_nat (ways c)) = Some i ->
  cache_find_victim c g set_index core_id = (i, g).
Proof. intros H. unfold cache_find_victim. rewrite H. reflexivity. Qed.

Lemma land_ones_range a n : 0 <= n -> 0 <= Z.land a (Z.ones n) < 2 ^ n.
Proof. intros Hn. rewrite Z.land_ones by lia. apply Z.mod_pos_bound. lia. Qed.

(** On a well-shaped cache the set index of [cache_access] and the one of
    [cache_install] are the same set of the grid. *)
Lemma set_index_in_grid c a :
  cache_ok c ->
  set_index_of c a = Z.to_nat (Z.land a (index_mask c)) /\
  u32 (Z.land a (index_mask c) mod sets c) = Z.land a (index_mask c) /\
  (set_index_of c a < length (cacheGrid c))%nat.
Proof.
  intros Hok. destruct Hok as [_ Hb Hm Hs Hg _].
  pose proof (land_ones_range a (index_bits c) Hb) as Hr. rewrite <- Hm in Hr.
  unfold set_index_of. rewrite to_int_small by lia.
  split; [reflexivity | split].
  - rewrite Z.mod_small by lia. apply u32_small. lia.
  - rewrite Hg. lia.
Qed.

Lemma cache_ok_set c j :
  cache_ok c -> (j < length (cacheGrid c))%nat ->
  set_ok (ways c) (cacheGrid c !!! j).
Proof.
  intros Hok Hj. apply (Forall_lookup_total_1 _ (cacheGrid c) j (ok_each c Hok) Hj).
Qed.

Lemma owned_ways_insert k r i x :
  (i < length r)%nat ->
  owned_ways k (<[i := x]> r) =
    owned_ways k r
    - (if valid (r !!! i) && (coreID (r !!! i) =? k) then 1 else 0)
    + (if valid x && (coreID x =? k) then 1 else 0).
Proof.
  revert i. induction r as [|l r IH]; intros i Hi; simpl in Hi; [lia|].
  destruct i as [|i]; simpl.
  - lia.
  - rewrite IH by lia. change ((l :: r) !!! S i) with (r !!! i). lia.
Qed.

Lemma owned_ways_bounds k r : 0 <= owned_ways k r <= Z.of_nat (length r).
Proof.
  induction r as [|l r IH]; simpl; [lia|].
  destruct (valid l && (coreID l =? k)); lia.
Qed.

Lemma owned_ways_pos k r i :
  (i < length r)%nat -> valid (r !!! i) = true -> coreID (r !!! i) = k ->
  0 < owned_ways k r.
Proof.
  revert i. induction r as [|l r IH]; intros i Hi Hv Hc; simpl in Hi; [lia|].
  destruct i as [|i]; simpl.
  - change ((l :: r) !!! 0%nat) with l in Hv, Hc.
    rewrite Hv, Hc, Z.eqb_refl. simpl. pose proof (owned_ways_bounds k r). lia.
  - change ((l :: r) !!! S i) with (r !!! i) in Hv, Hc.
    pose proof (IH i ltac:(lia) Hv Hc). destruct (valid l && (coreID l =? k)); lia.
Qed.

Lemma owned_ways_replicate_zero k n : owned_ways k (replicate n zero_line) = 0.
Proof. induction n as [|n IH]; simpl; [reflexivity | exact IH]. Qed.

Lemma cache_new_ok size associativity line_size pol :
  0 < line_size -> 0 < associativity <= MAX_WAYS_PER_CACHE_SET ->
  0 < u32 ((size / line_size) / associativity) <= 2 ^ 31 ->
  cache_ok (cache_new size associativity line_size pol).
Proof.
  intros Hl Ha Hs. unfold MAX_WAYS_PER_CACHE_SET in Ha.
  set (n := u32 ((size / line_size) / associativity)) in *.
  assert (Hw : u32 associativity = associativity) by (apply u32_small; lia).
  pose proof (Z.log2_spec n ltac:(lia)) as Hlog.
  pose proof (Z.log2_nonneg n) as Hlog0.
  assert (Hlt : Z.log2 n < 32).
  { apply Z.log2_lt_pow2; lia. }
  assert (Hpow : 2 ^ Z.log2 n <= 2 ^ 31) by lia.
  constructor; unfold cache_new; fold n; simpl; rewrite ?Hw.
  - unfold MAX_WAYS_PER_CACHE_SET. lia.
  - exact Hlog0.
  - rewrite Z.shiftl_1_l, Z.ones_equiv. apply u32_small. lia.
  - lia.
  - apply length_replicate.
  - apply Forall_replicate. constructor; simpl.
    + apply length_replicate.
    + reflexivity.
    + rewrite owned_ways_replicate_zero. reflexivity.
    + rewrite owned_ways_replicate_zero. reflexivity.
    + apply Forall_replicate. discriminate.
Qed.

(** ** What [cache_access] changes *)

Lemma cache_access_static c g a w k :
  let c' := snd (cache_access c g a w k) in
  ways c' = ways c /\ sets c' = sets c /\ policy c' = policy c /\
  index_mask c' = index_mask c /\ index_bits c' = index_bits c /\
  lastEvictedLine c' = lastEvictedLine c /\
  stat_dirty_evicts c' = stat_dirty_evicts c /\
  length (cacheGrid c') = length (cacheGrid c).
Proof.
  unfold cache_access. case_match; simpl; rewrite length_insert;
    repeat split; reflexivity.
Qed.

(** The outcome is a hit exactly when the cache holds the line. *)
Lemma cache_access_result c g a w k :
  fst (cache_access c g a w k) = HIT <-> holds c a k.
Proof.
  unfold cache_access, holds, set_index_of. simpl.
  set (s := cacheGrid c !!! _).
  destruct (first_way _ (row s) 0 (Z.to_nat (ways c))) as [i|] eqn:E; simpl.
  - apply first_way_Some in E as (Hr & Hp & _).
    split; [intros _ | reflexivity]. exists i. split; [lia | exact Hp].
  - split; [discriminate|]. intros (i & Hi & Hp).
    rewrite (first_way_None _ _ _ _ E i) in Hp by lia. discriminate.
Qed.

Lemma cache_access_miss c g a w k :
  fst (cache_access c g a w k) = MISS <-> ~ holds c a k.
Proof.
  rewrite <- (cache_access_result c g a w k).
  destruct (fst (cache_access c g a w k)); intuition congruence.
Qed.

(** An access keeps the validity, the tag and the owner of every line, and
    never clears a dirty bit; a read keeps the dirty bits as they are. *)
Lemma cache_access_lines c g a w k j i :
  let l := row (cacheGrid c !!! j) !!! i in
  let l' := row (cacheGrid (snd (cache_access c g a w k)) !!! j) !!! i in
  valid l' = valid l /\ tag l' = tag l /\ coreID l' = coreID l /\
  (dirty l = true -> dirty l' = true) /\
  (w = false -> dirty l' = dirty l).
Proof.
  unfold cache_access. simpl.
  set (si := Z.to_nat (to_int _)). set (s := cacheGrid c !!! si).
  destruct (first_way _ (row s) 0 (Z.to_nat (ways c))) as [v|]; simpl;
    rewrite list_lookup_total_insert; case_decide as Hj; simpl;
    try (destruct Hj as [<- _]; fold s);
    try (repeat split; auto; fail).
  rewrite list_lookup_total_insert. case_decide as Hi; simpl.
  - destruct Hi as [<- _]. destruct w; repeat split; auto; discriminate.
  - repeat split; auto.
Qed.

Lemma cache_access_sets c g a w k j :
  let s := cacheGrid c !!! j in
  let s' := cacheGrid (snd (cache_access c g a w k)) !!! j in
  ways_per_core s' = ways_per_core s /\ length (row s') = length (row s).
Proof.
  unfold cache_access. simpl.
  set (si := Z.to_nat (to_int _)). set (s := cacheGrid c !!! si).
  destruct (first_way _ (row s) 0 (Z.to_nat (ways c))) as [v|]; simpl;
    rewrite list_lookup_total_insert; case_decide as Hj; simpl;
    try (split; reflexivity);
    destruct Hj as [<- _]; fold s; rewrite ?length_insert; split; reflexivity.
Qed.

(** A miss leaves every row as it is. *)
Lemma cache_access_miss_rows c g a w k j :
  fst (cache_access c g a w k) = MISS ->
  row (cacheGrid (snd (cache_access c g a w k)) !!! j) = row (cacheGrid c !!! j).
Proof.
  unfold cache_access. simpl.
  set (si := Z.to_nat (to_int _)). set (s := cacheGrid c !!! si).
  destruct (first_way _ (row s) 0 (Z.to_nat (ways c))) as [v|]; simpl;
    [discriminate|]. intros _.
  rewrite list_lookup_total_insert. case_decide as Hj; [|reflexivity].
  destruct Hj as [<- _]. reflexivity.
Qed.

Lemma cache_access_counters c g a w k :
  let r := fst (cache_access c g a w k) in
  let c' := snd (cache_access c g a w k) in
  stat_read_access c' = (if w then stat_read_access c else u64 (stat_read_access c + 1)) /\
  stat_write_access c' = (if w then u64 (stat_write_access c + 1) else stat_write_access c) /\
  stat_read_miss c' =
    match r with
    | MISS => if w then stat_read_miss c else u64 (stat_read_miss c + 1)
    | HIT => stat_read_miss c
    end /\
  stat_write_miss c' =
    match r with
    | MISS => if w then u64 (stat_write_miss c + 1) else stat_write_miss c
    | HIT => stat_write_miss c
    end.
Proof.
  unfold cache_access. case_match; simpl; repeat split; reflexivity.
Qed.

Lemma ownership_lookup r r' :
  length r = length r' ->
  (forall i, valid (r' !!! i) = valid (r !!! i) /\ coreID (r' !!! i) = coreID (r !!! i)) ->
  ownership r' = ownership r.
Proof.
  revert r'. induction r as [|l r IH]; intros [|l' r'] Hlen H; simpl in Hlen;
    try discriminate; [reflexivity|].
  simpl. f_equal.
  - destruct (H 0%nat) as [Hv Hc].
    change ((l' :: r') !!! 0%nat) with l' in *. change ((l :: r) !!! 0%nat) with l in *.
    rewrite Hv, Hc. reflexivity.
  - apply IH; [lia|]. intros i. apply (H (S i)).
Qed.

Lemma owned_ways_ownership k r r' :
  ownership r' = ownership r -> owned_ways k r' = owned_ways k r.
Proof.
  revert r'. induction r as [|l r IH]; intros [|l' r'] H; simpl in H;
    try discriminate; [reflexivity|].
  injection H as Hv Hc Hr. simpl. rewrite Hv, Hc, (IH r' Hr). reflexivity.
Qed.

(** An access changes neither the validity nor the ownership of the lines
    of any set, nor the counters [ways_per_core]. *)
Lemma cache_access_ownership c g a w k j :
  let s := cacheGrid c !!! j in
  let s' := cacheGrid (snd (cache_access c g a w k)) !!! j in
  ownership (row s') = ownership (row s) /\ ways_per_core s' = ways_per_core s.
Proof.
  intros s s'. split; [|apply cache_access_sets].
  apply ownership_lookup.
  - symmetry. apply cache_access_sets.
  - intros i. destruct (cache_access_lines c g a w k j i) as (Hv & _ & Hc & _).
    split; assumption.
Qed.

Lemma cache_access_ok c g a w k :
  cache_ok c -> cache_ok (snd (cache_access c g a w k)).
Proof.
  intros Hok.
  destruct (cache_access_static c g a w k) as (Hw & Hs & _ & Hm & Hb & _ & _ & Hlen).
  constructor; rewrite ?Hw, ?Hs, ?Hm, ?Hb, ?Hlen; try apply Hok.
  refine (Forall_lookup_total_2 _ _ _). rewrite Hlen. intros j Hj.
  pose proof (cache_ok_set c j Hok Hj) as [Hr Hwl H0 H1 Hc].
  destruct (cache_access_ownership c g a w k j) as [Hown Hwpc].
  destruct (cache_access_sets c g a w k j) as [_ Hrl].
  constructor; rewrite ?Hwpc, ?Hrl; try assumption.
  - rewrite (owned_ways_ownership 0 _ _ Hown). exact H0.
  - rewrite (owned_ways_ownership 1 _ _ Hown). exact H1.
  - refine (Forall_lookup_total_2 _ _ _). rewrite Hrl. intros i Hi.
    destruct (cache_access_lines c g a w k j i) as (Hv & _ & Hcore & _).
    rewrite Hv, Hcore. apply (Forall_lookup_total_1 _ _ i Hc Hi).
Qed.

(** ** What [cache_install] changes *)

Lemma cache_find_victim_globals c g set_index core_id :
  let g' := snd (cache_find_victim c g set_index core_id) in
  current_cycle g' = current_cycle g /\ SWP_CORE0_WAYS g' = SWP_CORE0_WAYS g /\
  SIM_MODE g' = SIM_MODE g /\ DRAM_PAGE_POLICY g' = DRAM_PAGE_POLICY g /\
  CACHE_LINESIZE g' = CACHE_LINESIZE g /\ NUM_CORES g' = NUM_CORES g.
Proof.
  unfold cache_find_victim. case_match; [repeat split; reflexivity|].
  destruct (policy c); simpl; repeat split; reflexivity.
Qed.

Lemma bump_Some d k wpc wpc' :
  bump d k wpc = Some wpc' ->
  (k = 0 \/ k = 1) /\ (Z.to_nat k < length wpc)%nat /\
  wpc' = <[Z.to_nat k := u32 (wpc !!! Z.to_nat k + d)]> wpc.
Proof.
  unfold bump. intros H.
  destruct ((0 <=? k) && (k <? 2)) eqn:Hk; [|discriminate].
  apply andb_true_iff in Hk as [H0 H2]. apply Z.leb_le in H0. apply Z.ltb_lt in H2.
  destruct (wpc !! Z.to_nat k) as [x|] eqn:Hx; [|discriminate].
  injection H as <-.
  split; [lia | split].
  - apply lookup_lt_is_Some. eauto.
  - rewrite (list_lookup_total_correct _ _ _ Hx). reflexivity.
Qed.

Lemma bump_total d k wpc :
  (k = 0 \/ k = 1) -> length wpc = 2%nat -> is_Some (bump d k wpc).
Proof.
  intros Hk Hlen. destruct wpc as [|x0 [|x1 [|? ?]]]; try discriminate.
  destruct Hk as [-> | ->]; eexists; reflexivity.
Qed.

(** The effect of a successful install on a well-shaped cache: the victim
    way [v] of the set of [a] receives the new line, the line it held
    becomes [lastEvictedLine], and nothing else moves. *)
Lemma cache_install_effect c g a w k c' g' :
  cache_ok c ->
  cache_install c g a w k = Some (c', g') ->
  let si := set_index_of c a in
  let v := fst (cache_find_victim c g (Z.land a (index_mask c)) k) in
  let s := cacheGrid c !!! si in
  let s' := cacheGrid c' !!! si in
  (v < Z.to_nat (ways c))%nat /\
  g' = snd (cache_find_victim c g (Z.land a (index_mask c)) k) /\
  (k = 0 \/ k = 1) /\
  lastEvictedLine c' = row s !!! v /\
  row s' = <[v := installed_line c g a w k]> (row s) /\
  umon s' = umon s /\
  (forall j, j <> si -> cacheGrid c' !!! j = cacheGrid c !!! j) /\
  length (cacheGrid c') = length (cacheGrid c) /\
  set_ok (ways c) s'.
Proof.
  intros Hok H. cbv zeta.
  destruct (set_index_in_grid c a Hok) as (Hsi & Hu & Hlt).
  pose proof (ok_ways c Hok) as HW. unfold MAX_WAYS_PER_CACHE_SET in HW.
  pose proof (cache_find_victim_range c g (Z.land a (index_mask c)) k ltac:(lia)) as Hv.
  destruct (cache_find_victim_globals c g (Z.land a (index_mask c)) k) as (Hcyc & _).
  unfold cache_install in H. rewrite Hu in H. rewrite Hsi in *.
  destruct (cache_find_victim c g (Z.land a (index_mask c)) k) as [v g1] eqn:Ev.
  simpl in Hv, Hcyc. simpl fst. simpl snd.
  set (si := Z.to_nat (Z.land a (index_mask c))) in *.
  set (s := cacheGrid c !!! si) in *.
  pose proof (cache_ok_set c si Hok Hlt) as [Hrow Hwl H0 H1 Hcores]. fold s in Hrow, Hwl, H0, H1, Hcores.
  set (ev := row s !!! v) in *.
  destruct (if valid ev then bump (-1) (coreID ev) (ways_per_core s)
            else Some (ways_per_core s)) as [wpc1|] eqn:E1; [|discriminate].
  destruct (bump 1 k wpc1) as [wpc2|] eqn:E2; [|discriminate].
  injection H as <- <-.
  apply bump_Some in E2 as (Hk & Hk2 & ->).
  simpl cacheGrid. simpl lastEvictedLine.
  rewrite !list_lookup_total_insert_eq by exact Hlt. simpl row. simpl umon.
  assert (Hline : {| valid := true; dirty := w; tag := Z.shiftr a (index_bits c);
                     coreID := k; lastAccessTime := current_cycle g1 |}
                  = installed_line c g a w k).
  { unfold installed_line. rewrite Hcyc. reflexivity. }
  rewrite Hline.
  split; [exact Hv | split; [reflexivity | split; [exact Hk |]]].
  split; [reflexivity | split; [reflexivity | split; [reflexivity |]]].
  split; [intros j Hj; apply list_lookup_total_insert_ne; congruence |].
  split; [apply length_insert |].
  assert (Hvl : (v < length (row s))%nat) by lia.
  assert (Hlen : Z.of_nat (length (row s)) <= 16) by lia.
  destruct (ways_per_core s) as [|x0 [|x1 [|? ?]]] eqn:Ew; try discriminate.
  change ([x0; x1] !!! 0%nat) with x0 in H0. change ([x0; x1] !!! 1%nat) with x1 in H1.
  pose proof (owned_ways_bounds 0 (row s)) as B0.
  pose proof (owned_ways_bounds 1 (row s)) as B1.
  pose proof (owned_ways_bounds 0 (<[v := installed_line c g a w k]> (row s))) as B0'.
  pose proof (owned_ways_bounds 1 (<[v := installed_line c g a w k]> (row s))) as B1'.
  rewrite length_insert in B0', B1'.
  pose proof (owned_ways_insert 0 (row s) v (installed_line c g a w k) Hvl) as I0.
  pose proof (owned_ways_insert 1 (row s) v (installed_line c g a w k) Hvl) as I1.
  fold ev in I0, I1. simpl valid in I0, I1. simpl coreID in I0, I1.
  assert (Hev : valid ev = true -> coreID ev = 0 \/ coreID ev = 1).
  { apply (Forall_lookup_total_1 _ _ v Hcores Hvl). }
  constructor; simpl row; simpl ways_per_core.
  - rewrite length_insert. exact Hrow.
  - rewrite length_insert.
    destruct (valid ev); [apply bump_Some in E1 as (_ & _ & ->);
                          rewrite length_insert | injection E1 as <-]; reflexivity.
  - destruct (valid ev) eqn:Hvalid.
    + apply bump_Some in E1 as (He & _ & ->).
      pose proof (owned_ways_pos (coreID ev) (row s) v Hvl Hvalid eq_refl) as Hpos.
      destruct He as [He | He], Hk as [-> | ->]; rewrite He in *; simpl in *;
        unwrap; lia.
    + injection E1 as <-.
      destruct Hk as [-> | ->]; simpl in *; unwrap; lia.
  - destruct (valid ev) eqn:Hvalid.
    + apply bump_Some in E1 as (He & _ & ->).
      pose proof (owned_ways_pos (coreID ev) (row s) v Hvl Hvalid eq_refl) as Hpos.
      destruct He as [He | He], Hk as [-> | ->]; rewrite He in *; simpl in *;
        unwrap; lia.
    + injection E1 as <-.
      destruct Hk as [-> | ->]; simpl in *; unwrap; lia.
  - apply Forall_insert; [exact Hcores | intros _; exact Hk].
Qed.

Lemma cache_install_static c g a w k c' g' :
  cache_install c g a w k = Some (c', g') ->
  ways c' = ways c /\ sets c' = sets c /\ policy c' = policy c /\
  index_mask c' = index_mask c /\ index_bits c' = index_bits c /\
  stat_read_access c' = stat_read_access c /\
  stat_read_miss c' = stat_read_miss c /\
  stat_write_access c' = stat_write_access c /\
  stat_write_miss c' = stat_write_miss c /\
  stat_dirty_evicts c' =
    (if valid (lastEvictedLine c') && dirty (lastEvictedLine c')
     then u64 (stat_dirty_evicts c + 1) else stat_dirty_evicts c).
Proof.
  unfold cache_install.
  destruct (cache_find_victim c g _ k) as [v g1].
  destruct (if valid _ then _ else _) as [wpc1|]; [|discriminate].
  destruct (bump 1 k wpc1) as [wpc2|]; [|discriminate].
  intros [= <- <-]. simpl. repeat split; reflexivity.
Qed.

Lemma cache_install_ok c g a w k c' g' :
  cache_ok c -> cache_install c g a w k = Some (c', g') -> cache_ok c'.
Proof.
  intros Hok H.
  destruct (cache_install_static c g a w k c' g' H) as (Hw & Hs & _ & Hm & Hb & _).
  destruct (cache_install_effect c g a w k c' g' Hok H)
    as (_ & _ & _ & _ & _ & _ & Hother & Hlen & Hset).
  constructor; rewrite ?Hw, ?Hs, ?Hm, ?Hb, ?Hlen; try apply Hok.
  refine (Forall_lookup_total_2 _ _ _). rewrite Hlen. intros j Hj.
  destruct (decide (j = set_index_of c a)) as [-> | Hne].
  - exact Hset.
  - rewrite (Hother j Hne). apply cache_ok_set; assumption.
Qed.

(** On a well-shaped cache an install by core 0 or core 1 succeeds. *)
Lemma cache_install_total c g a w k :
  cache_ok c -> k = 0 \/ k = 1 -> is_Some (cache_install c g a w k).
Proof.
  intros Hok Hk.
  destruct (set_index_in_grid c a Hok) as (Hsi & Hu & Hlt).
  pose proof (ok_ways c Hok) as HW. unfold MAX_WAYS_PER_CACHE_SET in HW.
  pose proof (cache_find_victim_range c g (Z.land a (index_mask c)) k ltac:(lia)) as Hv.
  unfold cache_install. rewrite Hu. rewrite Hsi in Hlt.
  destruct (cache_find_victim c g (Z.land a (index_mask c)) k) as [v g1].
  simpl in Hv.
  set (s := cacheGrid c !!! Z.to_nat (Z.land a (index_mask c))).
  pose proof (cache_ok_set c _ Hok Hlt) as [Hrow Hwl _ _ Hcores]. fold s in Hrow, Hwl, Hcores.
  assert (Hvl : (v < length (row s))%nat) by lia.
  pose proof (Forall_lookup_total_1 _ _ v Hcores Hvl) as Hev. simpl in Hev.
  assert (H1 : exists wpc1, (if valid (row s !!! v)
                             then bump (-1) (coreID (row s !!! v)) (ways_per_core s)
                             else Some (ways_per_core s)) = Some wpc1 /\
                            length wpc1 = 2%nat).
  { destruct (valid (row s !!! v)).
    - destruct (bump_total (-1) (coreID (row s !!! v)) (ways_per_core s) (Hev eq_refl) Hwl)
        as [wpc1 E].
      exists wpc1. split; [exact E|].
      apply bump_Some in E as (_ & _ & ->). rewrite length_insert. exact Hwl.
    - eauto. }
  destruct H1 as (wpc1 & -> & Hl1).
  destruct (bump_total 1 k wpc1 Hk Hl1) as [wpc2 ->]. eauto.
Qed.

Lemma reachable_ok c : reachable c -> cache_ok c.
Proof.
  induction 1 as [size assoc ls pol Hl Ha Hs | c g a w k _ IH _ | c g a w k c' g' _ IH _ Hi].
  - apply cache_new_ok; assumption.
  - apply cache_access_ok. exact IH.
  - exact (cache_install_ok c g a w k c' g' IH Hi).
Qed.

(** ** The per-core way counters *)

(** The states built by a sequence of operations are reachable. *)
Lemma cache_ops_reachable (ops : list CacheOp) : forall c g c' g',
  reachable c -> Forall op_in_range ops ->
  cache_ops c g ops = Some (c', g') -> reachable c'.
Proof.
  induction ops as [|[t a w k | t a w k] ops IH]; intros c g c' g' Hr Hall H;
    simpl in H.
  - injection H as <- _. exact Hr.
  - apply Forall_cons in Hall as [Ha Hall].
    apply (IH _ _ _ _ (reach_access c _ a w k Hr Ha) Hall H).
  - apply Forall_cons in Hall as [Ha Hall].
    destruct (cache_install c (set_current_cycle t g) a w k) as [[c1 g1]|] eqn:Hi;
      [|discriminate].
    apply (IH _ _ _ _ (reach_install c _ a w k c1 g1 Hr Ha Hi) Hall H).
Qed.

(** C7.  In every reachable state, for every set and for each core 0 and
    1, [ways_per_core] is the number of ways of the set that hold a valid
    line of that core.  Every access and every install lead to a reachable
    state again: an access changes neither the validity nor the ownership
    of any line nor any counter; an install by core 0 or core 1 succeeds,
    takes one from the count of the owner of the evicted line, when that
    line is valid, adds one to the count of the installing core, and leaves
    the other sets as they are. *)
Theorem ways_per_core_counts (c : Cache) :
  reachable c ->
  (forall j k, (j < Z.to_nat (sets c))%nat -> k = 0 \/ k = 1 ->
     ways_per_core (cacheGrid c !!! j) !!! Z.to_nat k
     = owned_ways k (row (cacheGrid c !!! j))) /\
  (forall g a w k, 0 <= a < 2 ^ 64 ->
     let c' := snd (cache_access c g a w k) in
     reachable c' /\
     forall j, ownership (row (cacheGrid c' !!! j)) = ownership (row (cacheGrid c !!! j)) /\
               ways_per_core (cacheGrid c' !!! j) = ways_per_core (cacheGrid c !!! j)) /\
  (forall g a w k, 0 <= a < 2 ^ 64 -> k = 0 \/ k = 1 ->
     exists c' g',
       cache_install c g a w k = Some (c', g') /\
       reachable c' /\
       (forall q, q = 0 \/ q = 1 ->
          ways_per_core (cacheGrid c' !!! set_index_of c a) !!! Z.to_nat q
          = ways_per_core (cacheGrid c !!! set_index_of c a) !!! Z.to_nat q
            - (if valid (lastEvictedLine c') && (coreID (lastEvictedLine c') =? q)
               then 1 else 0)
            + (if k =? q then 1 else 0)) /\
       (forall j, j <> set_index_of c a -> cacheGrid c' !!! j = cacheGrid c !!! j)).
Proof.
  intros Hreach.
  assert (Hcount : forall c0, cache_ok c0 -> forall j k,
            (j < length (cacheGrid c0))%nat -> k = 0 \/ k = 1 ->
            ways_per_core (cacheGrid c0 !!! j) !!! Z.to_nat k
            = owned_ways k (row (cacheGrid c0 !!! j))).
  { intros c0 Hok j k Hj Hk.
    destruct (cache_ok_set c0 j Hok Hj) as [_ _ H0 H1 _].
    destruct Hk as [-> | ->]; assumption. }
  pose proof (reachable_ok c Hreach) as Hok.
  split; [|split].
  - intros j k Hj Hk. apply Hcount; [exact Hok | | exact Hk].
    rewrite (ok_grid c Hok). exact Hj.
  - intros g a w k Ha c'. split.
    + apply reach_access; assumption.
    + intros j. apply cache_access_ownership.
  - intros g a w k Ha Hk.
    destruct (cache_install_total c g a w k Hok Hk) as [[c' g'] Hi].
    exists c', g'. split; [exact Hi |]. split; [| split].
    + exact (reach_install c g a w k c' g' Hreach Ha Hi).
    + intros q Hq.
      pose proof (cache_install_ok c g a w k c' g' Hok Hi) as Hok'.
      destruct (cache_install_effect c g a w k c' g' Hok Hi)
        as (Hv & _ & _ & Hev & Hrow & _ & _ & Hlen & _).
      destruct (set_index_in_grid c a Hok) as (_ & _ & Hlt).
      rewrite (Hcount c' Hok' _ q ltac:(rewrite Hlen; exact Hlt) Hq).
      rewrite (Hcount c Hok _ q Hlt Hq).
      rewrite Hrow, Hev.
      destruct (cache_ok_set c _ Hok Hlt) as [Hr _ _ _ _].
      rewrite owned_ways_insert by lia. reflexivity.
    + destruct (cache_install_effect c g a w k c' g' Hok Hi)
        as (_ & _ & _ & _ & _ & _ & Hother & _).
      exact Hother.
Qed.

Lemma ways_per_core_counts_witness :
  let c := two_way_shared LRU in
  let g := set_current_cycle 3 (example_globals SIM_MODE_DEF LRU 128 2) in
  reachable c /\
  exists c' g',
    cache_install c g 2 false 1 = Some (c', g') /\
    valid (lastEvictedLine c') = true /\ coreID (lastEvictedLine c') = 0 /\
    ways_per_core (cacheGrid c !!! 0%nat) = [1; 1] /\
    ways_per_core (cacheGrid c' !!! 0%nat) !!! 0%nat = 0 /\
    ways_per_core (cacheGrid c' !!! 0%nat) !!! 1%nat = 2 /\
    owned_ways 0 (row (cacheGrid c' !!! 0%nat)) = 0 /\
    owned_ways 1 (row (cacheGrid c' !!! 0%nat)) = 2.
Proof.
  intros c g.
  assert (Hr : reachable c).
  { unfold c, two_way_shared.
    destruct (cache_ops _ _ _) as [[c0 g0]|] eqn:E; [| vm_compute in E; discriminate E].
    refine (cache_ops_reachable _ _ _ _ _ _ _ E).
    - apply reach_new; unfold MAX_WAYS_PER_CACHE_SET; try lia.
      change (u32 (128 / 64 / 2)) with 1. lia.
    - apply Forall_cons. split; [cbn; lia |].
      apply Forall_cons. split; [cbn; lia | apply Forall_nil; exact I]. }
  split; [exact Hr |].
  destruct (ways_per_core_counts c Hr) as (_ & _ & Hinstall).
  destruct (Hinstall g 2 false 1 ltac:(lia) (or_intror eq_refl))
    as (c' & g' & Hi & Hr' & Hq & _).
  destruct (ways_per_core_counts c' Hr') as (Hcount' & _).
  exists c', g'. split; [exact Hi |].
  pose proof (Hq 0 (or_introl eq_refl)) as Hq0.
  pose proof (Hq 1 (or_intror eq_refl)) as Hq1.
  pose proof (Hcount' 0%nat 0) as Hc0. pose proof (Hcount' 0%nat 1) as Hc1.
  vm_compute in Hi. injection Hi as <- <-.
  split; [reflexivity | split; [reflexivity | split; [reflexivity |]]].
  split; [exact Hq0 | split; [exact Hq1 |]].
  split.
  - rewrite <- Hc0; [exact Hq0 | vm_compute; lia | left; reflexivity].
  - rewrite <- Hc1; [exact Hq1 | vm_compute; lia | right; reflexivity].
Defined.

(** ** A line stays in the cache until it is evicted *)

Lemma set_index_of_static c c' a :
  index_mask c' = index_mask c -> set_index_of c' a = set_index_of c a.
Proof. intros H. unfold set_index_of. rewrite H. reflexivity. Qed.

Lemma holds_access c g b w k' a k :
  holds c a k -> holds (snd (cache_access c g b w k')) a k.
Proof.
  intros (wy & Hwy & Hm).
  destruct (cache_access_static c g b w k') as (Hw & _ & _ & Hmask & Hbits & _).
  exists wy. rewrite Hw, Hbits, (set_index_of_static c _ a Hmask).
  split; [exact Hwy|].
  destruct (cache_access_lines c g b w k' (set_index_of c a) wy) as (Hv & Ht & Hc & _).
  unfold line_matches in *. rewrite Hv, Ht, Hc. exact Hm.
Qed.

Lemma holds_install_new c g a w k c' g' :
  cache_ok c -> cache_install c g a w k = Some (c', g') -> holds c' a k.
Proof.
  intros Hok H.
  destruct (cache_install_static c g a w k c' g' H) as (Hw & _ & _ & Hmask & Hbits & _).
  destruct (cache_install_effect c g a w k c' g' Hok H)
    as (Hv & _ & _ & _ & Hrow & _).
  destruct (set_index_in_grid c a Hok) as (_ & _ & Hlt).
  destruct (cache_ok_set c _ Hok Hlt) as [Hr _ _ _ _].
  exists (fst (cache_find_victim c g (Z.land a (index_mask c)) k)).
  rewrite Hw, Hbits, (set_index_of_static c _ a Hmask), Hrow.
  split; [exact Hv|].
  rewrite list_lookup_total_insert_eq by lia.
  unfold line_matches, installed_line. simpl. rewrite !Z.eqb_refl. reflexivity.
Qed.

Lemma holds_install_other c g b w k' c1 g1 a k :
  cache_ok c -> holds c a k ->
  cache_install c g b w k' = Some (c1, g1) ->
  Z.land b (index_mask c) <> Z.land a (index_mask c) \/
  line_matches k (Z.shiftr a (index_bits c)) (lastEvictedLine c1) = false ->
  holds c1 a k.
Proof.
  intros Hok (wy & Hwy & Hm) H Hcond.
  destruct (cache_install_static c g b w k' c1 g1 H) as (Hw & _ & _ & Hmask & Hbits & _).
  destruct (cache_install_effect c g b w k' c1 g1 Hok H)
    as (Hv & _ & _ & Hev & Hrow & _ & Hother & _).
  exists wy. rewrite Hw, Hbits, (set_index_of_static c _ a Hmask).
  split; [exact Hwy|].
  destruct (decide (set_index_of c a = set_index_of c b)) as [Heq | Hne].
  - rewrite Heq, Hrow.
    destruct Hcond as [Hsets | Hline].
    + exfalso. apply Hsets.
      destruct (set_index_in_grid c a Hok) as (Ha & _).
      destruct (set_index_in_grid c b Hok) as (Hb & _).
      rewrite Ha, Hb in Heq.
      pose proof (land_ones_range a (index_bits c) (ok_bits c Hok)) as Ra.
      pose proof (land_ones_range b (index_bits c) (ok_bits c Hok)) as Rb.
      rewrite <- (ok_mask c Hok) in Ra, Rb. lia.
    + rewrite list_lookup_total_insert_ne.
      * rewrite <- Heq. exact Hm.
      * intros Hvw. rewrite Hev, Hvw, <- Heq, Hm in Hline. discriminate.
  - rewrite (Hother _ Hne). exact Hm.
Qed.

Lemma undisturbed_holds a k c1 c2 :
  undisturbed a k c1 c2 -> cache_ok c1 -> holds c1 a k -> holds c2 a k.
Proof.
  induction 1 as [c | c g b w k' c' Hb _ IH | c g b w k' c1 g1 c' Hb Hi Hcond _ IH];
    intros Hok Hh.
  - exact Hh.
  - apply IH; [apply cache_access_ok; exact Hok | apply holds_access; exact Hh].
  - apply IH.
    + exact (cache_install_ok c g b w k' c1 g1 Hok Hi).
    + exact (holds_install_other c g b w k' c1 g1 a k Hok Hh Hi Hcond).
Qed.

(** C9.  On a reachable cache, once an access to line [a] by core [k] has
    hit, or has missed and been followed at once by the install of [a] for
    [k], every later access to [a] by [k] hits, as long as the operations
    in between are accesses and installs that do not evict the way holding
    [a] for [k]. *)
Theorem hit_after_hit_or_install (c : Cache) (a k : Z) (g : Globals) (w : bool)
    (c1 c2 : Cache) :
  reachable c -> 0 <= a < 2 ^ 64 ->
  (fst (cache_access c g a w k) = HIT /\ c1 = snd (cache_access c g a w k)) \/
  (fst (cache_access c g a w k) = MISS /\
   exists g1 w1 g1', cache_install (snd (cache_access c g a w k)) g1 a w1 k = Some (c1, g1')) ->
  undisturbed a k c1 c2 ->
  forall g2 w2, fst (cache_access c2 g2 a w2 k) = HIT.
Proof.
  intros Hreach Ha Hfirst Hund g2 w2.
  apply cache_access_result.
  pose proof (reachable_ok c Hreach) as Hok.
  pose proof (cache_access_ok c g a w k Hok) as Hok'.
  destruct Hfirst as [[Hhit ->] | [Hmiss (g1 & w1 & g1' & Hi)]].
  - apply (undisturbed_holds a k _ c2 Hund Hok').
    apply holds_access. apply (cache_access_result c g a w k). exact Hhit.
  - apply (undisturbed_holds a k c1 c2 Hund).
    + exact (cache_install_ok _ g1 a w1 k c1 g1' Hok' Hi).
    + exact (holds_install_new _ g1 a w1 k c1 g1' Hok' Hi).
Qed.

Lemma hit_after_hit_or_install_witness :
  let g := example_globals SIM_MODE_A LRU 128 2 in
  let c := cache_new 128 2 64 LRU in
  let c2 := snd (cache_access after_first_install g 1 false 0) in
  reachable c /\ 0 <= 0 < 2 ^ 64 /\
  fst (cache_access c g 0 false 0) = MISS /\
  undisturbed 0 0 after_first_install c2 /\
  fst (cache_access c2 g 0 true 0) = HIT.
Proof.
  intros g c c2.
  assert (Hr : reachable c).
  { apply reach_new; unfold MAX_WAYS_PER_CACHE_SET; try lia.
    change (u32 (128 / 64 / 2)) with 1. lia. }
  assert (Ha : 0 <= 0 < 2 ^ 64) by lia.
  assert (Hu : undisturbed 0 0 after_first_install c2).
  { apply (undisturbed_access 0 0 after_first_install g 1 false 0 c2); [lia|].
    apply undisturbed_refl. }
  split; [exact Hr | split; [exact Ha | split; [reflexivity | split; [exact Hu |]]]].
  apply (hit_after_hit_or_install c 0 0 g false after_first_install c2 Hr Ha);
    [| exact Hu].
  right. split; [reflexivity|]. exists g, false, g. reflexivity.
Defined.

(** ** A cache of one line *)

(** On a hit the matching way is stamped, and dirtied by a write. *)
Lemma cache_access_hit_line c g a w k :
  cache_ok c -> fst (cache_access c g a w k) = HIT ->
  exists i, (i < Z.to_nat (ways c))%nat /\
    line_matches k (Z.shiftr a (index_bits c))
      (row (cacheGrid c !!! set_index_of c a) !!! i) = true /\
    row (cacheGrid (snd (cache_access c g a w k)) !!! set_index_of c a) !!! i
    = touch_line w (current_cycle g) (row (cacheGrid c !!! set_index_of c a) !!! i).
Proof.
  intros Hok. destruct (set_index_in_grid c a Hok) as (_ & _ & Hlt).
  pose proof (cache_ok_set c _ Hok Hlt) as [Hr _ _ _ _].
  unfold cache_access, set_index_of in *. simpl.
  set (si := Z.to_nat (to_int _)) in *. set (s := cacheGrid c !!! si) in *.
  destruct (first_way _ (row s) 0 (Z.to_nat (ways c))) as [i|] eqn:E; simpl;
    [intros _ | discriminate].
  apply first_way_Some in E as (Hi & Hp & _).
  exists i. split; [lia | split; [exact Hp |]].
  rewrite list_lookup_total_insert_eq by exact Hlt. simpl.
  apply list_lookup_total_insert_eq. lia.
Qed.

Lemma single_row (r : list CacheLine) : length r = 1%nat -> r = [r !!! 0%nat].
Proof. destruct r as [|l [|? ?]]; try discriminate. reflexivity. Qed.

Lemma single_line_index c l a :
  single_line c l ->
  set_index_of c a = 0%nat /\ Z.land a (index_mask c) = 0 /\
  Z.shiftr a (index_bits c) = a.
Proof.
  intros (Hok & _ & Hb & _).
  assert (Hl : Z.land a (index_mask c) = 0).
  { rewrite (ok_mask c Hok), Hb. apply Z.land_0_r. }
  unfold set_index_of. rewrite Hl, Hb.
  split; [reflexivity | split; [reflexivity | apply Z.shiftr_0_r]].
Qed.

(** One reference to a one-line cache, that is an access and on a miss the
    install, is a step of the state machine [one_line_step]. *)
Lemma single_line_reference c l g a w k :
  single_line c l -> k = 0 \/ k = 1 ->
  exists c' g' l',
    match cache_access c g a w k with
    | (HIT, c1) => Some (c1, g)
    | (MISS, c1) => cache_install c1 g a w k
    end = Some (c', g') /\
    single_line c' l' /\
    (line_view l', cache_counters c')
    = one_line_step (line_view l, cache_counters c) a w k /\
    SIM_MODE g' = SIM_MODE g /\ CACHE_LINESIZE g' = CACHE_LINESIZE g.
Proof.
  intros Hs Hk. pose proof Hs as (Hok & Hw & Hb & Hrow).
  destruct (single_line_index c l a Hs) as (Hsi & Hland & Htag).
  destruct (cache_access_static c g a w k) as (Hw' & _ & _ & Hm' & Hb' & _ & Hde & _).
  destruct (cache_access_counters c g a w k) as (Hra & Hwa & Hrm & Hwm).
  pose proof (cache_access_ok c g a w k Hok) as Hok1.
  destruct (cache_access_sets c g a w k 0%nat) as [_ Hlen].
  rewrite Hrow in Hlen. simpl in Hlen.
  assert (Hholds : holds c a k <-> line_matches k a l = true).
  { unfold holds. rewrite Hsi, Htag, Hrow, Hw. split.
    - intros (i & Hi & Hmatch). destruct i as [|i]; [exact Hmatch | simpl in Hi; lia].
    - intros Hmatch. exists 0%nat. split; [simpl; lia | exact Hmatch]. }
  destruct (cache_access c g a w k) as [r c1] eqn:Eacc. cbn [fst snd] in *.
  destruct r.
  - (* hit *)
    assert (Hhit : fst (cache_access c g a w k) = HIT) by (rewrite Eacc; reflexivity).
    pose proof (proj1 Hholds (proj1 (cache_access_result c g a w k) Hhit)) as Hmatch.
    destruct (cache_access_hit_line c g a w k Hok Hhit) as (i & Hi & _ & Hline).
    rewrite Hw in Hi. assert (i = 0%nat) as -> by (simpl in Hi; lia).
    rewrite Eacc, Hsi, Hrow in Hline. simpl in Hline.
    change ([l] !!! 0%nat) with l in Hline.
    exists c1, g, (touch_line w (current_cycle g) l).
    split; [reflexivity | split; [| split; [| split; reflexivity]]].
    + split; [exact Hok1 | split; [congruence | split; [congruence |]]].
      rewrite (single_row _ Hlen), Hline. reflexivity.
    + unfold one_line_step, line_view, cache_counters, line_matches in *.
      rewrite Hmatch, Hra, Hwa, Hrm, Hwm, Hde. reflexivity.
  - (* miss *)
    assert (Hmiss : fst (cache_access c g a w k) = MISS) by (rewrite Eacc; reflexivity).
    assert (Hno : line_matches k a l = false).
    { destruct (line_matches k a l) eqn:E; [|reflexivity].
      apply (cache_access_miss c g a w k) in Hmiss. tauto. }
    pose proof (cache_access_miss_rows c g a w k 0%nat Hmiss) as Hrow1.
    rewrite Eacc, Hrow in Hrow1. simpl in Hrow1.
    assert (Hs1 : single_line c1 l).
    { split; [exact Hok1 | split; [congruence | split; congruence]]. }
    destruct (cache_install_total c1 g a w k Hok1 Hk) as [[c' g'] Hi].
    destruct (cache_install_static c1 g a w k c' g' Hi)
      as (Hw2 & _ & _ & _ & Hb2 & Hra2 & Hrm2 & Hwa2 & Hwm2 & Hde2).
    destruct (cache_install_effect c1 g a w k c' g' Hok1 Hi)
      as (Hv & Hg' & _ & Hev & Hrow2 & _).
    destruct (single_line_index c1 l a Hs1) as (Hsi1 & Hland1 & Htag1).
    rewrite Hsi1, Hrow1 in Hrow2, Hev.
    rewrite Hw', Hw in Hv.
    set (v := fst (cache_find_victim c1 g (Z.land a (index_mask c1)) k)) in *.
    assert (v = 0%nat) as Hv0 by (simpl in Hv; lia). rewrite Hv0 in Hrow2, Hev.
    change ([l] !!! 0%nat) with l in Hev. simpl in Hrow2.
    destruct (cache_find_victim_globals c1 g (Z.land a (index_mask c1)) k)
      as (_ & _ & Hmode & _ & Hls & _).
    exists c', g', (installed_line c1 g a w k).
    split; [exact Hi | split; [| split; [| split]]].
    + split; [exact (cache_install_ok c1 g a w k c' g' Hok1 Hi) |].
      split; [congruence | split; congruence].
    + unfold one_line_step, line_view, cache_counters, line_matches, installed_line in *.
      rewrite Hno, Hra2, Hrm2, Hwa2, Hwm2, Hde2, Hev, Hra, Hwa, Hrm, Hwm, Hde.
      simpl. rewrite Hb', Hb, Z.shiftr_0_r. reflexivity.
    + rewrite Hg'. exact Hmode.
    + rewrite Hg'. exact Hls.
Qed.

(** ** Mode A *)

(** In mode A a load or a store is one reference to the data cache. *)
Lemma modeA_reference sys g r c l :
  SIM_MODE g = SIM_MODE_A -> dcache sys = Some c -> single_line c l ->
  ref_core r = 0 \/ ref_core r = 1 ->
  ref_type r <> ACCESS_TYPE_IFETCH ->
  exists sys' g' c' l',
    memsys_access sys (set_current_cycle (ref_cycle r) g)
      (ref_addr r) (ref_type r) (ref_core r) = Some (0, sys', g') /\
    dcache sys' = Some c' /\ single_line c' l' /\
    (line_view l', cache_counters c')
    = one_line_step (line_view l, cache_counters c)
        (ref_addr r / CACHE_LINESIZE g)
        (match ref_type r with ACCESS_TYPE_STORE => true | _ => false end)
        (ref_core r) /\
    SIM_MODE g' = SIM_MODE_A /\ CACHE_LINESIZE g' = CACHE_LINESIZE g.
Proof.
  intros Hmode Hd Hs Hk Ht.
  set (g0 := set_current_cycle (ref_cycle r) g).
  set (w := match ref_type r with ACCESS_TYPE_STORE => true | _ => false end).
  destruct (single_line_reference c l g0 (ref_addr r / CACHE_LINESIZE g) w (ref_core r) Hs Hk)
    as (c' & g' & l' & Hstep & Hs' & Hview & Hm' & Hl').
  unfold memsys_access, memsys_access_modeA.
  change (SIM_MODE g0) with (SIM_MODE g). change (CACHE_LINESIZE g0) with (CACHE_LINESIZE g).
  rewrite Hmode, Hd.
  destruct (ref_type r) eqn:Etype; [contradiction | |]; subst w;
    destruct (cache_access c g0 (ref_addr r / CACHE_LINESIZE g) _ (ref_core r))
      as [[] c1]; cbn [fst snd] in *;
    try (injection Hstep as <- <-); try rewrite Hstep;
    (eexists _, _, _, l';
     split; [reflexivity | split; [reflexivity | split; [exact Hs' | split; [exact Hview |]]]];
     split; [first [exact Hmode | rewrite Hm'; exact Hmode] | exact Hl']).
Qed.

Lemma memsys_run_cons sys g r rs :
  memsys_run sys g (r :: rs) =
  match memsys_access sys (set_current_cycle (ref_cycle r) g)
          (ref_addr r) (ref_type r) (ref_core r) with
  | Some (_, sys', g') => memsys_run sys' g' rs
  | None => None
  end.
Proof. reflexivity. Qed.

(** C2, as the code behaves.  In mode A with a data cache of 64 bytes, one
    way and lines of 64 bytes, under any replacement policy, the trace
    LOAD 0x0, LOAD 0x0, STORE 0x40, LOAD 0x0 of core 0 or core 1 leaves the
    counters at 3 read accesses, 1 write access, 2 read misses, 1 write
    miss and 1 dirty eviction: the last load misses and evicts the line
    that the store has made dirty. *)
Theorem modeA_single_line_trace (g : Globals) (t1 t2 t3 t4 k : Z) :
  SIM_MODE g = SIM_MODE_A -> DCACHE_SIZE g = 64 -> DCACHE_ASSOC g = 1 ->
  CACHE_LINESIZE g = 64 -> k = 0 \/ k = 1 ->
  exists sys' g' c,
    memsys_run (memsys_new g) g
      [ {| ref_cycle := t1; ref_addr := 0x0; ref_type := ACCESS_TYPE_LOAD; ref_core := k |};
        {| ref_cycle := t2; ref_addr := 0x0; ref_type := ACCESS_TYPE_LOAD; ref_core := k |};
        {| ref_cycle := t3; ref_addr := 0x40; ref_type := ACCESS_TYPE_STORE; ref_core := k |};
        {| ref_cycle := t4; ref_addr := 0x0; ref_type := ACCESS_TYPE_LOAD; ref_core := k |} ]
    = Some (sys', g') /\
    dcache sys' = Some c /\ cache_counters c = (3, 1, 2, 1, 1).
Proof.
  intros Hmode Hsize Hassoc Hline Hk.
  set (c0 := cache_new 64 1 64 (REPL_POLICY g)).
  assert (Hd0 : dcache (memsys_new g) = Some c0).
  { unfold memsys_new. simpl. rewrite Hmode, Hsize, Hassoc, Hline. reflexivity. }
  assert (Hs0 : single_line c0 zero_line).
  { split; [|split; [reflexivity | split; reflexivity]].
    apply cache_new_ok; unfold MAX_WAYS_PER_CACHE_SET; try lia.
    change (u32 (64 / 64 / 1)) with 1. lia. }
  rewrite memsys_run_cons.
  destruct (modeA_reference (memsys_new g) g
              {| ref_cycle := t1; ref_addr := 0x0; ref_type := ACCESS_TYPE_LOAD; ref_core := k |}
              c0 zero_line Hmode Hd0 Hs0 Hk ltac:(discriminate))
    as (sys1 & g1 & c1 & l1 & -> & Hd1 & Hs1 & Hv1 & Hm1 & Hl1).
  rewrite memsys_run_cons.
  destruct (modeA_reference sys1 g1
              {| ref_cycle := t2; ref_addr := 0x0; ref_type := ACCESS_TYPE_LOAD; ref_core := k |}
              c1 l1 Hm1 Hd1 Hs1 Hk ltac:(discriminate))
    as (sys2 & g2 & c2 & l2 & -> & Hd2 & Hs2 & Hv2 & Hm2 & Hl2).
  rewrite memsys_run_cons.
  destruct (modeA_reference sys2 g2
              {| ref_cycle := t3; ref_addr := 0x40; ref_type := ACCESS_TYPE_STORE; ref_core := k |}
              c2 l2 Hm2 Hd2 Hs2 Hk ltac:(discriminate))
    as (sys3 & g3 & c3 & l3 & -> & Hd3 & Hs3 & Hv3 & Hm3 & Hl3).
  rewrite memsys_run_cons.
  destruct (modeA_reference sys3 g3
              {| ref_cycle := t4; ref_addr := 0x0; ref_type := ACCESS_TYPE_LOAD; ref_core := k |}
              c3 l3 Hm3 Hd3 Hs3 Hk ltac:(discriminate))
    as (sys4 & g4 & c4 & l4 & -> & Hd4 & Hs4 & Hv4 & Hm4 & Hl4).
  exists sys4, g4, c4. split; [reflexivity | split; [exact Hd4 |]].
  cbn [ref_addr ref_type ref_core] in Hv1, Hv2, Hv3, Hv4.
  rewrite Hl3, Hl2, Hl1, Hline in Hv4. rewrite Hl2, Hl1, Hline in Hv3.
  rewrite Hl1, Hline in Hv2. rewrite Hline in Hv1.
  rewrite Hv3, Hv2, Hv1 in Hv4.
  apply (f_equal snd) in Hv4. cbn [snd] in Hv4. rewrite Hv4.
  destruct Hk as [-> | ->]; vm_compute; reflexivity.
Qed.

Lemma modeA_single_line_trace_witness :
  let g := example_globals SIM_MODE_A LRU 64 1 in
  SIM_MODE g = SIM_MODE_A /\ DCACHE_SIZE g = 64 /\ DCACHE_ASSOC g = 1 /\
  CACHE_LINESIZE g = 64 /\
  exists sys' g' c,
    memsys_run (memsys_new g) g
      [ {| ref_cycle := 1; ref_addr := 0x0; ref_type := ACCESS_TYPE_LOAD; ref_core := 0 |};
        {| ref_cycle := 2; ref_addr := 0x0; ref_type := ACCESS_TYPE_LOAD; ref_core := 0 |};
        {| ref_cycle := 3; ref_addr := 0x40; ref_type := ACCESS_TYPE_STORE; ref_core := 0 |};
        {| ref_cycle := 4; ref_addr := 0x0; ref_type := ACCESS_TYPE_LOAD; ref_core := 0 |} ]
    = Some (sys', g') /\
    dcache sys' = Some c /\ cache_counters c = (3, 1, 2, 1, 1).
Proof.
  intros g. repeat (split; [reflexivity|]).
  apply (modeA_single_line_trace g 1 2 3 4 0); try reflexivity. left; reflexivity.
Defined.

(** The counters that C2 states are not the ones the trace produces: the
    run ends with one dirty eviction, not with none. *)
Lemma modeA_single_line_trace_counterexample :
  let g := example_globals SIM_MODE_A LRU 64 1 in
  option_map (fun r => option_map cache_counters (dcache (fst r)))
    (memsys_run (memsys_new g) g
       [ {| ref_cycle := 1; ref_addr := 0x0; ref_type := ACCESS_TYPE_LOAD; ref_core := 0 |};
         {| ref_cycle := 2; ref_addr := 0x0; ref_type := ACCESS_TYPE_LOAD; ref_core := 0 |};
         {| ref_cycle := 3; ref_addr := 0x40; ref_type := ACCESS_TYPE_STORE; ref_core := 0 |};
         {| ref_cycle := 4; ref_addr := 0x0; ref_type := ACCESS_TYPE_LOAD; ref_core := 0 |} ])
  <> Some (Some (3, 1, 2, 1, 0)).
Proof. vm_compute. discriminate. Qed.

(** ** The L2 access and the writebacks *)

Lemma dram_access_counts d g a w :
  let d' := snd (dram_access d g a w) in
  Dram.stat_write_access d' =
    (if w then u64 (Dram.stat_write_access d + 1) else Dram.stat_write_access d) /\
  Dram.stat_read_access d' =
    (if w then Dram.stat_read_access d else u64 (Dram.stat_read_access d + 1)).
Proof.
  unfold dram_access, dram_access_mode_CDEF.
  destruct (SIM_MODE g), (DRAM_PAGE_POLICY g), w; repeat case_if;
    split; reflexivity.
Qed.

(** The three outcomes of [memsys_l2_access] on a well-shaped L2: a hit, a
    miss whose install evicts nothing to write back, and a miss followed by
    the write of the evicted dirty line to DRAM. *)
Lemma memsys_l2_access_cases sys g a wb k l2 d :
  l2cache sys = Some l2 -> dram sys = Some d -> cache_ok l2 ->
  k = 0 \/ k = 1 ->
  let r := fst (cache_access l2 g a wb k) in
  let l2a := snd (cache_access l2 g a wb k) in
  match r with
  | HIT =>
      memsys_l2_access sys g a wb k
      = Some (L2CACHE_HIT_LATENCY, with_l2_dram l2a (Some d) [EvL2 a wb k] sys, g)
  | MISS =>
      exists l2b g1,
        cache_install l2a g a wb k = Some (l2b, g1) /\
        let d1 := snd (dram_access d g a false) in
        let delay := u64 (L2CACHE_HIT_LATENCY + fst (dram_access d g a false)) in
        memsys_l2_access sys g a wb k =
          if valid (lastEvictedLine l2b) && dirty (lastEvictedLine l2b)
          then Some (delay,
                     with_l2_dram l2b
                       (Some (snd (dram_access d1 g1 (evicted_address l2b a) true)))
                       [EvL2 a wb k; EvDram a false;
                        EvDram (evicted_address l2b a) true] sys, g1)
          else Some (delay,
                     with_l2_dram l2b (Some d1) [EvL2 a wb k; EvDram a false] sys, g1)
  end.
Proof.
  intros Hl2 Hd Hok Hk r l2a. unfold memsys_l2_access. rewrite Hl2.
  subst r l2a. destruct (cache_access l2 g a wb k) as [[] c1] eqn:E; cbn [fst snd].
  - rewrite Hd. reflexivity.
  - rewrite Hd.
    assert (Hok1 : cache_ok c1).
    { pose proof (cache_access_ok l2 g a wb k Hok) as H. rewrite E in H. exact H. }
    destruct (cache_install_total c1 g a wb k Hok1 Hk) as [[l2b g1] Hi].
    exists l2b, g1. split; [exact Hi|]. rewrite Hi.
    destruct (dram_access d g a false) as [dd d1]. cbn [fst snd].
    destruct (valid (lastEvictedLine l2b) && dirty (lastEvictedLine l2b)).
    + destruct (dram_access d1 g1 (evicted_address l2b a) true) as [dd2 d2].
      reflexivity.
    + reflexivity.
Qed.

(** One L2 access on a well-shaped L2, with the flag it was given: what a
    miss of a writeback counts and installs, and what the eviction of a
    valid dirty way issues. *)
Lemma memsys_l2_access_outcome (sys : MemorySystem) (g : Globals) (a : Z)
    (is_writeback : bool) (k : Z) (l2 : Cache) (d : DRAM) :
  l2cache sys = Some l2 -> dram sys = Some d -> cache_ok l2 ->
  k = 0 \/ k = 1 ->
  let r := fst (cache_access l2 g a is_writeback k) in
  let l2a := snd (cache_access l2 g a is_writeback k) in
  let si := set_index_of l2 a in
  let v := fst (cache_find_victim l2a g (Z.land a (index_mask l2)) k) in
  let victim := row (cacheGrid l2 !!! si) !!! v in
  exists delay sys' g' l2' d',
    memsys_l2_access sys g a is_writeback k = Some (delay, sys', g') /\
    l2cache sys' = Some l2' /\ dram sys' = Some d' /\
    (r = HIT -> l2' = l2a) /\
    (r = MISS -> cache_install l2a g a is_writeback k = Some (l2', g')) /\
    (r = MISS -> is_writeback = true ->
       stat_write_access l2' = u64 (stat_write_access l2 + 1) /\
       stat_write_miss l2' = u64 (stat_write_miss l2 + 1) /\
       stat_read_access l2' = stat_read_access l2 /\
       stat_read_miss l2' = stat_read_miss l2 /\
       (v < Z.to_nat (ways l2))%nat /\
       row (cacheGrid l2' !!! si) !!! v =
         {| valid := true; dirty := true; tag := Z.shiftr a (index_bits l2);
            coreID := k; lastAccessTime := current_cycle g |}) /\
    (r = MISS -> valid victim && dirty victim = true ->
       lastEvictedLine l2' = victim /\
       Dram.stat_write_access d' = u64 (Dram.stat_write_access d + 1) /\
       issued sys' = issued sys ++
         [EvL2 a is_writeback k; EvDram a false; EvDram (evicted_address l2' a) true]) /\
    (r = MISS -> valid victim && dirty victim = false ->
       Dram.stat_write_access d' = Dram.stat_write_access d /\
       issued sys' = issued sys ++ [EvL2 a is_writeback k; EvDram a false]).
Proof.
  intros Hl2 Hd Hok Hk r l2a si v victim.
  pose proof (memsys_l2_access_cases sys g a is_writeback k l2 d Hl2 Hd Hok Hk) as Hc.
  cbv zeta in Hc. fold r l2a in Hc.
  destruct r eqn:Er.
  - exists L2CACHE_HIT_LATENCY, (with_l2_dram l2a (Some d) [EvL2 a is_writeback k] sys), g, l2a, d.
    split; [exact Hc|]. repeat split; try discriminate; reflexivity.
  - destruct Hc as (l2b & g1 & Hi & Hres).
    assert (Hmiss : fst (cache_access l2 g a is_writeback k) = MISS) by exact Er.
    pose proof (cache_access_ok l2 g a is_writeback k Hok) as Hok1. fold l2a in Hok1.
    destruct (cache_access_static l2 g a is_writeback k)
      as (Hw1 & _ & _ & Hm1 & Hb1 & _). fold l2a in Hw1, Hm1, Hb1.
    destruct (cache_access_counters l2 g a is_writeback k) as (Hra & Hwa & Hrm & Hwm).
    fold l2a in Hra, Hwa, Hrm, Hwm. rewrite Hmiss in Hrm, Hwm.
    destruct (cache_install_static l2a g a is_writeback k l2b g1 Hi)
      as (_ & _ & _ & _ & _ & Hra2 & Hrm2 & Hwa2 & Hwm2 & _).
    destruct (cache_install_effect l2a g a is_writeback k l2b g1 Hok1 Hi)
      as (Hv & _ & _ & Hev & Hrow & _).
    rewrite Hm1 in Hv, Hev, Hrow. fold v in Hv, Hev, Hrow. rewrite Hw1 in Hv.
    rewrite (set_index_of_static l2 l2a a Hm1) in Hev, Hrow. fold si in Hev, Hrow.
    pose proof (cache_access_miss_rows l2 g a is_writeback k si Hmiss) as Hrows.
    fold l2a in Hrows. rewrite Hrows in Hev, Hrow. fold victim in Hev.
    destruct (set_index_in_grid l2 a Hok) as (_ & _ & Hlt).
    destruct (cache_ok_set l2 _ Hok Hlt) as [Hr _ _ _ _]. fold si in Hr.
    destruct (dram_access_counts d g a false) as [Hdw _].
    set (d1 := snd (dram_access d g a false)) in *.
    destruct (dram_access_counts d1 g1 (evicted_address l2b a) true) as [Hdw2 _].
    rewrite Hev in Hres.
    destruct (valid victim && dirty victim) eqn:Evd.
    + eexists _, _, g1, l2b, _. split; [exact Hres|]. cbn [l2cache dram with_l2_dram issued].
      split; [reflexivity | split; [reflexivity |]].
      split; [discriminate | split; [intros _; exact Hi |]].
      split; [| split; [| discriminate]].
      * intros _ ->. rewrite Hwa2, Hwm2, Hra2, Hrm2, Hwa, Hwm, Hra, Hrm.
        repeat split; try reflexivity; [exact Hv |].
        rewrite Hrow, list_lookup_total_insert_eq by (rewrite Hr; exact Hv).
        unfold installed_line. rewrite Hb1. reflexivity.
      * intros _ _. split; [exact Hev | split; [| reflexivity]].
        rewrite Hdw2, Hdw. reflexivity.
    + eexists _, _, g1, l2b, _. split; [exact Hres|]. cbn [l2cache dram with_l2_dram issued].
      split; [reflexivity | split; [reflexivity |]].
      split; [discriminate | split; [intros _; exact Hi |]].
      split; [| split; [discriminate |]].
      * intros _ ->. rewrite Hwa2, Hwm2, Hra2, Hrm2, Hwa, Hwm, Hra, Hrm.
        repeat split; try reflexivity; [exact Hv |].
        rewrite Hrow, list_lookup_total_insert_eq by (rewrite Hr; exact Hv).
        unfold installed_line. rewrite Hb1. reflexivity.
      * intros _ _. split; [exact Hdw | reflexivity].
Qed.

Lemma tag_index_join (b n : Z) :
  0 <= n -> Z.lor (Z.shiftl (Z.shiftr b n) n) (Z.land b (Z.ones n)) = b.
Proof.
  intros Hn. apply Z.bits_inj'. intros i Hi.
  rewrite Z.lor_spec, Z.land_spec.
  destruct (Z.lt_ge_cases i n) as [Hlt | Hge].
  - rewrite Z.shiftl_spec_low, Z.ones_spec_low by lia.
    rewrite andb_true_r. reflexivity.
  - rewrite Z.shiftl_spec, Z.shiftr_spec, Z.ones_spec_high by lia.
    rewrite andb_false_r, orb_false_r. f_equal. lia.
Qed.

(** The address rebuilt for the writeback of a line that came from line
    address [b] is [b mod 2^32]. *)
Lemma evicted_address_low_32 (c : Cache) (line_addr b : Z) :
  cache_ok c -> 0 <= b < 2 ^ 64 ->
  tag (lastEvictedLine c) = Z.shiftr b (index_bits c) ->
  Z.land line_addr (index_mask c) = Z.land b (index_mask c) ->
  evicted_address c line_addr = b mod 2 ^ 32.
Proof.
  intros Hok Hb Htag Hset.
  pose proof (ok_bits c Hok) as Hn. pose proof (ok_sets c Hok) as Hs.
  unfold evicted_address. rewrite Htag, Hset, (ok_mask c Hok).
  pose proof (land_ones_range b (index_bits c) Hn) as Hidx.
  assert (Hp : 0 < 2 ^ index_bits c) by (apply Z.pow_pos_nonneg; lia).
  rewrite (u32_small (Z.land b _)) by lia.
  assert (Hsh : 0 <= Z.shiftl (Z.shiftr b (index_bits c)) (index_bits c) <= b).
  { rewrite Z.shiftl_mul_pow2, Z.shiftr_div_pow2 by lia.
    pose proof (Z.div_mod b (2 ^ index_bits c) ltac:(lia)).
    pose proof (Z.mod_pos_bound b (2 ^ index_bits c) ltac:(lia)).
    pose proof (Z.div_pos b (2 ^ index_bits c) ltac:(lia) ltac:(lia)). nia. }
  rewrite (u64_small (Z.shiftl _ _)) by lia.
  rewrite tag_index_join by lia. reflexivity.
Qed.

Lemma line_matches_true k t l :
  line_matches k t l = true <-> valid l = true /\ coreID l = k /\ tag l = t.
Proof.
  unfold line_matches. rewrite !andb_true_iff, !Z.eqb_eq. tauto.
Qed.

(** An access never takes a line out of the cache and never cleans it. *)
Lemma holds_dirty_access c g b w k' a k :
  holds_dirty c a k -> holds_dirty (snd (cache_access c g b w k')) a k.
Proof.
  intros (wy & Hwy & Hm & Hd).
  destruct (cache_access_static c g b w k') as (Hw & _ & _ & Hmask & Hbits & _).
  exists wy. rewrite Hw, Hbits, (set_index_of_static c _ a Hmask).
  split; [exact Hwy|].
  destruct (cache_access_lines c g b w k' (set_index_of c a) wy)
    as (Hv & Ht & Hc & Hdirty & _).
  split; [| exact (Hdirty Hd)].
  unfold line_matches in *. rewrite Hv, Ht, Hc. exact Hm.
Qed.

(** A write that hits leaves the line dirty. *)
Lemma holds_dirty_write_hit c g a k :
  cache_ok c -> fst (cache_access c g a true k) = HIT ->
  holds_dirty (snd (cache_access c g a true k)) a k.
Proof.
  intros Hok Hhit.
  destruct (cache_access_static c g a true k) as (Hw & _ & _ & Hmask & Hbits & _).
  destruct (cache_access_hit_line c g a true k Hok Hhit) as (i & Hi & Hm & Hrow).
  exists i. rewrite Hw, Hbits, (set_index_of_static c _ a Hmask), Hrow.
  split; [exact Hi |]. split; [| reflexivity].
  unfold line_matches, touch_line in *. cbn [valid coreID tag]. exact Hm.
Qed.

(** The line that a write installs is dirty. *)
Lemma holds_dirty_install_new c g a k c' g' :
  cache_ok c -> cache_install c g a true k = Some (c', g') -> holds_dirty c' a k.
Proof.
  intros Hok H.
  destruct (cache_install_static c g a true k c' g' H) as (Hw & _ & _ & Hmask & Hbits & _).
  destruct (cache_install_effect c g a true k c' g' Hok H)
    as (Hv & _ & _ & _ & Hrow & _).
  destruct (set_index_in_grid c a Hok) as (_ & _ & Hlt).
  destruct (cache_ok_set c _ Hok Hlt) as [Hr _ _ _ _].
  exists (fst (cache_find_victim c g (Z.land a (index_mask c)) k)).
  rewrite Hw, Hbits, (set_index_of_static c _ a Hmask), Hrow.
  split; [exact Hv|].
  rewrite list_lookup_total_insert_eq by lia.
  unfold line_matches, installed_line. simpl. rewrite !Z.eqb_refl. split; reflexivity.
Qed.

(** An install keeps a dirty line, unless that line is the one it evicts. *)
Lemma holds_dirty_install c g b w k' c1 g1 a k :
  cache_ok c -> holds_dirty c a k ->
  cache_install c g b w k' = Some (c1, g1) ->
  holds_dirty c1 a k \/
  (Z.land b (index_mask c) = Z.land a (index_mask c) /\
   line_matches k (Z.shiftr a (index_bits c)) (lastEvictedLine c1) = true /\
   dirty (lastEvictedLine c1) = true).
Proof.
  intros Hok (wy & Hwy & Hm & Hd) H.
  destruct (cache_install_static c g b w k' c1 g1 H) as (Hw & _ & _ & Hmask & Hbits & _).
  destruct (cache_install_effect c g b w k' c1 g1 Hok H)
    as (Hv & _ & _ & Hev & Hrow & _ & Hother & _).
  destruct (decide (set_index_of c a = set_index_of c b)) as [Heq | Hne].
  - set (v := fst (cache_find_victim c g (Z.land b (index_mask c)) k')) in *.
    destruct (decide (v = wy)) as [Hvw | Hvw].
    + right. rewrite Hev, Hvw, <- Heq.
      split; [| split; [exact Hm | exact Hd]].
      destruct (set_index_in_grid c a Hok) as (Ha & _).
      destruct (set_index_in_grid c b Hok) as (Hb & _).
      rewrite Ha, Hb in Heq.
      pose proof (land_ones_range a (index_bits c) (ok_bits c Hok)) as Ra.
      pose proof (land_ones_range b (index_bits c) (ok_bits c Hok)) as Rb.
      rewrite <- (ok_mask c Hok) in Ra, Rb. lia.
    + left. exists wy. rewrite Hw, Hbits, (set_index_of_static c _ a Hmask).
      split; [exact Hwy|].
      rewrite Heq, Hrow, list_lookup_total_insert_ne by exact Hvw.
      rewrite <- Heq. split; [exact Hm | exact Hd].
  - left. exists wy. rewrite Hw, Hbits, (set_index_of_static c _ a Hmask).
    split; [exact Hwy|]. rewrite (Hother _ Hne). split; [exact Hm | exact Hd].
Qed.

Lemma dirty_line_kept_refl a k sys : dirty_line_kept a k sys sys.
Proof.
  intros l2 Hl2 Hok. exists l2, [].
  split; [exact Hl2 | split; [exact Hok | split; [symmetry; apply app_nil_r |]]].
  intros H. left. exact H.
Qed.

Lemma dirty_line_kept_trans a k sys1 sys2 sys3 :
  dirty_line_kept a k sys1 sys2 -> dirty_line_kept a k sys2 sys3 ->
  dirty_line_kept a k sys1 sys3.
Proof.
  intros H12 H23 l2 Hl2 Hok.
  destruct (H12 l2 Hl2 Hok) as (l2' & evs1 & Hl2' & Hok' & Hev1 & Hk1).
  destruct (H23 l2' Hl2' Hok') as (l2'' & evs2 & Hl2'' & Hok'' & Hev2 & Hk2).
  exists l2'', (evs1 ++ evs2).
  split; [exact Hl2'' | split; [exact Hok'' | split]].
  - rewrite Hev2, Hev1, app_assoc. reflexivity.
  - intros Hh. destruct (Hk1 Hh) as [Hh' | Hin].
    + destruct (Hk2 Hh') as [Hh'' | Hin]; [left; exact Hh'' |].
      right. apply elem_of_app. right. exact Hin.
    + right. apply elem_of_app. left. exact Hin.
Qed.

(** What is not an L2 access leaves the L2 and the issued calls alone. *)
Lemma dirty_line_kept_same a k sys sys' :
  l2cache sys' = l2cache sys -> issued sys' = issued sys ->
  dirty_line_kept a k sys sys'.
Proof.
  intros H2 Hi l2 Hl2 Hok. exists l2, [].
  split; [rewrite H2; exact Hl2 | split; [exact Hok | split]].
  - rewrite Hi. symmetry. apply app_nil_r.
  - intros H. left. exact H.
Qed.

(** One L2 access: the dirty line stays, or it is the line evicted and
    the access writes it to DRAM. *)
Lemma memsys_l2_access_dirty a k sys g b wb k' delay sys' g' :
  0 <= a < 2 ^ 64 ->
  memsys_l2_access sys g b wb k' = Some (delay, sys', g') ->
  dirty_line_kept a k sys sys'.
Proof.
  intros Ha H l2 Hl2 Hok. unfold memsys_l2_access in H. rewrite Hl2 in H.
  pose proof (cache_access_ok l2 g b wb k' Hok) as Hok1.
  pose proof (holds_dirty_access l2 g b wb k' a k) as Hacc.
  destruct (cache_access l2 g b wb k') as [[] l2a]; cbn [snd] in Hok1, Hacc.
  - injection H as _ <- _. exists l2a, [EvL2 b wb k'].
    split; [reflexivity | split; [exact Hok1 | split; [reflexivity |]]].
    intros Hh. left. exact (Hacc Hh).
  - destruct (dram sys) as [d|]; [|discriminate].
    destruct (dram_access d g b false) as [dd d1].
    destruct (cache_install l2a g b wb k') as [[l2b g1]|] eqn:Hi; [|discriminate].
    pose proof (cache_install_ok l2a g b wb k' l2b g1 Hok1 Hi) as Hokb.
    destruct (cache_install_static l2a g b wb k' l2b g1 Hi)
      as (_ & _ & _ & Hmask & Hbits & _).
    pose proof (fun Hh => holds_dirty_install l2a g b wb k' l2b g1 a k Hok1 (Hacc Hh) Hi)
      as Hinst.
    destruct (valid (lastEvictedLine l2b) && dirty (lastEvictedLine l2b)) eqn:Evd.
    + destruct (dram_access d1 g1 (evicted_address l2b b) true) as [dd2 d2].
      injection H as _ <- _.
      exists l2b, [EvL2 b wb k'; EvDram b false; EvDram (evicted_address l2b b) true].
      split; [reflexivity | split; [exact Hokb | split; [reflexivity |]]].
      intros Hh. destruct (Hinst Hh) as [Hkept | (Hset & Hm & Hd)]; [left; exact Hkept |].
      right. apply line_matches_true in Hm as (_ & _ & Htag).
      rewrite (evicted_address_low_32 l2b b a Hokb Ha).
      * rewrite !elem_of_cons. right. right. left. reflexivity.
      * rewrite Hbits. exact Htag.
      * rewrite Hmask. exact Hset.
    + injection H as _ <- _.
      exists l2b, [EvL2 b wb k'; EvDram b false].
      split; [reflexivity | split; [exact Hokb | split; [reflexivity |]]].
      intros Hh. destruct (Hinst Hh) as [Hkept | (_ & Hm & Hd)]; [left; exact Hkept |].
      apply line_matches_true in Hm as (Hv & _). rewrite Hv, Hd in Evd. discriminate.
Qed.

Lemma memsys_l1_access_dirty a k sys g w b type iw k' d0 delay sys' g' :
  0 <= a < 2 ^ 64 ->
  memsys_l1_access sys g w b type iw k' d0 = Some (delay, sys', g') ->
  dirty_line_kept a k sys sys'.
Proof.
  intros Ha. unfold memsys_l1_access.
  destruct (l1_get w sys) as [c|]; [|discriminate].
  destruct (cache_access c g b iw k') as [[] c1].
  - intros [= _ <- _]. apply dirty_line_kept_same; reflexivity.
  - destruct (memsys_l2_access (l1_set w c1 sys) g b false k')
      as [[[d2 sys1] g1]|] eqn:E2; [|discriminate].
    assert (H1 : dirty_line_kept a k sys sys1).
    { apply (dirty_line_kept_trans a k sys (l1_set w c1 sys));
        [apply dirty_line_kept_same; reflexivity |].
      exact (memsys_l2_access_dirty a k _ _ _ _ _ _ _ _ Ha E2). }
    destruct (cache_install c1 g1 b iw k') as [[c2 g2]|]; [|discriminate].
    assert (H2 : dirty_line_kept a k sys (l1_set w c2 sys1)).
    { apply (dirty_line_kept_trans a k sys sys1); [exact H1 |].
      apply dirty_line_kept_same; reflexivity. }
    assert (Hplain : Some (u64 (d0 + d2), l1_set w c2 sys1, g2) = Some (delay, sys', g') ->
              dirty_line_kept a k sys sys').
    { intros [= _ <- _]. exact H2. }
    destruct type; try exact Hplain;
      (destruct (valid (lastEvictedLine c2) && dirty (lastEvictedLine c2));
       [| exact Hplain]);
      (destruct (memsys_l2_access (l1_set w c2 sys1) g2 _ true k')
         as [[[d3 sys3] g3]|] eqn:E3; [|discriminate]);
      intros [= _ <- _];
      apply (dirty_line_kept_trans a k sys (l1_set w c2 sys1) sys3 H2);
      exact (memsys_l2_access_dirty a k _ _ _ _ _ _ _ _ Ha E3).
Qed.

Lemma memsys_access_dirty a k sys g addr type k' delay sys' g' :
  0 <= a < 2 ^ 64 ->
  memsys_access sys g addr type k' = Some (delay, sys', g') ->
  dirty_line_kept a k sys sys'.
Proof.
  intros Ha. unfold memsys_access.
  destruct (match SIM_MODE g with
            | SIM_MODE_A => _ | SIM_MODE_B => _ | SIM_MODE_C => _ | SIM_MODE_DEF => _
            end) as [[[dl sys1] g1]|] eqn:E; [|discriminate].
  intros [= _ <- _].
  apply (dirty_line_kept_trans a k sys sys1);
    [| apply dirty_line_kept_same; reflexivity].
  destruct (SIM_MODE g).
  - unfold memsys_access_modeA in E.
    destruct type; cbn in E;
      try (injection E as _ <- _; apply dirty_line_kept_refl);
      (destruct (dcache sys) as [c|]; [|discriminate]);
      (destruct (cache_access c g _ _ k') as [[] c1];
       [| destruct (cache_install c1 g _ _ k') as [[c2 g2]|]; [|discriminate]]);
      injection E as _ <- _; apply dirty_line_kept_same; reflexivity.
  - unfold memsys_access_modeBC in E.
    destruct type; exact (memsys_l1_access_dirty a k _ _ _ _ _ _ _ _ _ _ _ Ha E).
  - unfold memsys_access_modeBC in E.
    destruct type; exact (memsys_l1_access_dirty a k _ _ _ _ _ _ _ _ _ _ _ Ha E).
  - unfold memsys_access_modeDEF in E.
    destruct (shift_defined g); [|discriminate].
    destruct (memsys_convert_vpn_to_pfn g _ k') as [pfn|]; [|discriminate].
    destruct type; exact (memsys_l1_access_dirty a k _ _ _ _ _ _ _ _ _ _ _ Ha E).
Qed.

Lemma memsys_run_dirty a k (refs : list Reference) : forall sys g sys' g',
  0 <= a < 2 ^ 64 ->
  memsys_run sys g refs = Some (sys', g') ->
  dirty_line_kept a k sys sys'.
Proof.
  induction refs as [|r refs IH]; intros sys g sys' g' Ha Hrun.
  - injection Hrun as <- _. apply dirty_line_kept_refl.
  - rewrite memsys_run_cons in Hrun.
    destruct (memsys_access sys (set_current_cycle (ref_cycle r) g) (ref_addr r)
                (ref_type r) (ref_core r)) as [[[dl sys1] g1]|] eqn:E; [|discriminate].
    apply (dirty_line_kept_trans a k sys sys1).
    + exact (memsys_access_dirty a k _ _ _ _ _ _ _ _ Ha E).
    + exact (IH sys1 g1 sys' g' Ha Hrun).
Qed.

Lemma u32_lor_trunc x y : u32 (Z.lor (u64 x) (u32 y)) = u32 (Z.lor x y).
Proof.
  unfold u32, u64. rewrite <- !(Z.land_ones _ 32), <- (Z.land_ones _ 64) by lia.
  rewrite !Z.land_lor_distr_l, <- !Z.land_assoc, Z.land_diag.
  reflexivity.
Qed.

(** C10.  [memsys_l2_access] passes [is_writeback] as the write flag of
    both the L2 access and the L2 install, and no writeback is lost.  A
    writeback counts as one L2 write access and no read; when it misses it
    counts as one write miss and the line it installs is dirty, and when it
    hits it dirties the line it finds: either way the L2 then holds the
    line dirty.  When the install of a missing access evicts a way that
    holds a valid dirty line, one DRAM write is issued after the DRAM read
    of the missing line, for the low 32 bits of the address of the evicted
    line.  And through every later run of references the line written back
    stays dirty in the L2 until the access whose install evicts it, which
    issues a DRAM write for the low 32 bits of its address, the address
    itself when it is below [2^32]. *)
Theorem l2_writeback_forwarded (sys : MemorySystem) (g : Globals) (a : Z)
    (is_writeback : bool) (k : Z) (l2 : Cache) (d : DRAM) :
  l2cache sys = Some l2 -> dram sys = Some d -> cache_ok l2 ->
  k = 0 \/ k = 1 -> 0 <= a < 2 ^ 64 ->
  let r := fst (cache_access l2 g a is_writeback k) in
  let l2a := snd (cache_access l2 g a is_writeback k) in
  let si := set_index_of l2 a in
  let v := fst (cache_find_victim l2a g (Z.land a (index_mask l2)) k) in
  let victim := row (cacheGrid l2 !!! si) !!! v in
  exists delay sys' g' l2' d',
    memsys_l2_access sys g a is_writeback k = Some (delay, sys', g') /\
    l2cache sys' = Some l2' /\ dram sys' = Some d' /\ cache_ok l2' /\
    (r = HIT -> l2' = l2a) /\
    (r = MISS -> cache_install l2a g a is_writeback k = Some (l2', g')) /\
    (r = MISS -> is_writeback = true ->
       stat_write_access l2' = u64 (stat_write_access l2 + 1) /\
       stat_write_miss l2' = u64 (stat_write_miss l2 + 1) /\
       stat_read_access l2' = stat_read_access l2 /\
       stat_read_miss l2' = stat_read_miss l2 /\
       (v < Z.to_nat (ways l2))%nat /\
       row (cacheGrid l2' !!! si) !!! v =
         {| valid := true; dirty := true; tag := Z.shiftr a (index_bits l2);
            coreID := k; lastAccessTime := current_cycle g |}) /\
    (r = HIT -> is_writeback = true ->
       stat_write_access l2' = u64 (stat_write_access l2 + 1) /\
       stat_write_miss l2' = stat_write_miss l2 /\
       stat_read_access l2' = stat_read_access l2 /\
       stat_read_miss l2' = stat_read_miss l2 /\
       dram sys' = dram sys /\
       issued sys' = issued sys ++ [EvL2 a true k]) /\
    (r = MISS -> valid victim && dirty victim = true ->
       lastEvictedLine l2' = victim /\
       Dram.stat_write_access d' = u64 (Dram.stat_write_access d + 1) /\
       issued sys' = issued sys ++
         [EvL2 a is_writeback k; EvDram a false; EvDram (evicted_address l2' a) true] /\
       evicted_address l2' a
       = u32 (Z.lor (Z.shiftl (tag victim) (index_bits l2)) (Z.land a (index_mask l2)))) /\
    (r = MISS -> valid victim && dirty victim = false ->
       Dram.stat_write_access d' = Dram.stat_write_access d /\
       issued sys' = issued sys ++ [EvL2 a is_writeback k; EvDram a false]) /\
    (is_writeback = true ->
       holds_dirty l2' a k /\
       forall g0 refs sys2 g2,
         memsys_run sys' g0 refs = Some (sys2, g2) ->
         exists l2_2 evs,
           l2cache sys2 = Some l2_2 /\ issued sys2 = issued sys' ++ evs /\
           (holds_dirty l2_2 a k \/
            (EvDram (a mod 2 ^ 32) true ∈ evs /\
             (a < 2 ^ 32 -> EvDram a true ∈ evs)))).
Proof.
  intros Hl2 Hd Hok Hk Ha r l2a si v victim.
  destruct (memsys_l2_access_outcome sys g a is_writeback k l2 d Hl2 Hd Hok Hk)
    as (delay & sys' & g' & l2' & d' & Hacc & Hl2' & Hd' & Hhit & Hmiss & Hwm & Hevd & Hevc).
  fold r l2a si v victim in Hhit, Hmiss, Hwm, Hevd, Hevc.
  pose proof (cache_access_ok l2 g a is_writeback k Hok) as Hoka. fold l2a in Hoka.
  destruct (cache_access_static l2 g a is_writeback k)
    as (_ & _ & _ & Hm1 & Hb1 & _). fold l2a in Hm1, Hb1.
  assert (Hok' : cache_ok l2').
  { destruct r eqn:Er.
    - rewrite (Hhit eq_refl). exact Hoka.
    - exact (cache_install_ok l2a g a is_writeback k l2' g' Hoka (Hmiss eq_refl)). }
  exists delay, sys', g', l2', d'.
  split; [exact Hacc |]. split; [exact Hl2' |]. split; [exact Hd' |].
  split; [exact Hok' |]. split; [exact Hhit |]. split; [exact Hmiss |].
  split; [exact Hwm |].
  split; [| split; [| split; [exact Hevc |]]].
  - intros Er ->. rewrite (Hhit Er).
    destruct (cache_access_counters l2 g a true k) as (Hra & Hwa & Hrm & Hwm').
    fold r l2a in Hra, Hwa, Hrm, Hwm'. rewrite Er in Hrm, Hwm'.
    split; [exact Hwa | split; [exact Hwm' | split; [exact Hra | split; [exact Hrm |]]]].
    pose proof (memsys_l2_access_cases sys g a true k l2 d Hl2 Hd Hok Hk) as Hc.
    cbv zeta in Hc. fold r in Hc. rewrite Er in Hc. rewrite Hc in Hacc.
    injection Hacc as _ <- _. cbn [dram issued with_l2_dram].
    split; [symmetry; exact Hd | reflexivity].
  - intros Er Hvd. destruct (Hevd Er Hvd) as (Hev & Hdw & Hiss).
    split; [exact Hev | split; [exact Hdw | split; [exact Hiss |]]].
    destruct (cache_install_static l2a g a is_writeback k l2' g' (Hmiss Er))
      as (_ & _ & _ & Hm2 & Hb2 & _).
    unfold evicted_address. rewrite Hev, Hm2, Hb2, Hm1, Hb1.
    apply u32_lor_trunc.
  - intros ->.
    assert (Hheld : holds_dirty l2' a k).
    { destruct r eqn:Er.
      - rewrite (Hhit eq_refl). apply holds_dirty_write_hit; assumption.
      - exact (holds_dirty_install_new l2a g a k l2' g' Hoka (Hmiss eq_refl)). }
    split; [exact Hheld |].
    intros g0 refs sys2 g2 Hrun.
    destruct (memsys_run_dirty a k refs sys' g0 sys2 g2 Ha Hrun l2' Hl2' Hok')
      as (l2_2 & evs & Hl22 & _ & Hiss & Hkept).
    exists l2_2, evs. split; [exact Hl22 | split; [exact Hiss |]].
    destruct (Hkept Hheld) as [Hh | Hin]; [left; exact Hh |].
    right. split; [exact Hin |].
    intros Hlt. rewrite Z.mod_small in Hin by lia. exact Hin.
Qed.

Lemma l2_writeback_forwarded_witness :
  let g := example_globals SIM_MODE_C LRU 64 1 in
  let read5 := memsys_l2_access (memsys_new g) g 5 false 0 in
  let sys0 := match read5 with Some (_, s, _) => s | None => memsys_new g end in
  let load0 :=
    [ {| ref_cycle := 2; ref_addr := 0; ref_type := ACCESS_TYPE_LOAD; ref_core := 0 |} ] in
  (* the writeback of line 5 misses a new L2; the load of line 0 evicts it *)
  (exists l2 delay sys1 g1 sys2 g2 evs,
     l2cache (memsys_new g) = Some l2 /\
     fst (cache_access l2 g 5 true 0) = MISS /\
     memsys_l2_access (memsys_new g) g 5 true 0 = Some (delay, sys1, g1) /\
     memsys_run sys1 g1 load0 = Some (sys2, g2) /\
     issued sys2 = issued sys1 ++ evs /\ EvDram 5 true ∈ evs) /\
  (* the writeback of line 5 hits the L2 that has read it; the load of
     line 0 evicts it *)
  (exists l2 delay sys1 g1 sys2 g2 evs,
     l2cache sys0 = Some l2 /\
     fst (cache_access l2 g 5 true 0) = HIT /\
     memsys_l2_access sys0 g 5 true 0 = Some (delay, sys1, g1) /\
     memsys_run sys1 g1 load0 = Some (sys2, g2) /\
     issued sys2 = issued sys1 ++ evs /\ EvDram 5 true ∈ evs).
Proof.
  intros g read5 sys0 load0.
  assert (Hnew : cache_ok (cache_new 64 1 64 LRU)).
  { apply cache_new_ok; unfold MAX_WAYS_PER_CACHE_SET; try lia.
    change (u32 (64 / 64 / 1)) with 1. lia. }
  assert (Hlater : forall sys1 g1,
            (forall sys2 g2, memsys_run sys1 g1 load0 = Some (sys2, g2) ->
               exists l2_2 evs,
                 l2cache sys2 = Some l2_2 /\ issued sys2 = issued sys1 ++ evs /\
                 (holds_dirty l2_2 5 0 \/
                  (EvDram (5 mod 2 ^ 32) true ∈ evs /\
                   (5 < 2 ^ 32 -> EvDram 5 true ∈ evs)))) ->
            forall sys2 g2 l2_2,
              memsys_run sys1 g1 load0 = Some (sys2, g2) ->
              l2cache sys2 = Some l2_2 -> ways l2_2 = 1 ->
              line_matches 0 (Z.shiftr 5 (index_bits l2_2))
                (row (cacheGrid l2_2 !!! set_index_of l2_2 5) !!! 0%nat) = false ->
              exists evs, issued sys2 = issued sys1 ++ evs /\ EvDram 5 true ∈ evs).
  { intros sys1 g1 Hthm sys2 g2 l2_2 Hrun Hl2 Hw Hgone.
    destruct (Hthm sys2 g2 Hrun) as (l2' & evs & Hl2' & Hiss & Hcase).
    exists evs. split; [exact Hiss |].
    destruct Hcase as [(w & Hlt & Hm & _) | [_ Hin]]; [| apply Hin; lia].
    exfalso. rewrite Hl2 in Hl2'. injection Hl2' as <-.
    rewrite Hw in Hlt. destruct w as [|w]; [| change (S w < 1)%nat in Hlt; lia].
    rewrite Hgone in Hm. discriminate. }
  split.
  - destruct (l2_writeback_forwarded (memsys_new g) g 5 true 0
                (cache_new 64 1 64 LRU) dram_new eq_refl eq_refl Hnew
                (or_introl eq_refl) ltac:(lia))
      as (delay & sys1 & g1 & l2_1 & d1 & Hacc & Hl21 & _ & _ & _ & _ & _ & _ & _ & _ & Hwb).
    destruct (Hwb eq_refl) as [_ Hrun].
    destruct (memsys_run sys1 g1 load0) as [[sys2 g2]|] eqn:E;
      [| vm_compute in Hacc; injection Hacc as _ <- <-; vm_compute in E; discriminate E].
    destruct (Hlater sys1 g1) with (sys2 := sys2) (g2 := g2)
      (l2_2 := match l2cache sys2 with Some c => c | None => l2_1 end)
      as (evs & Hiss & Hin).
    + intros s2 g2' Hr. exact (Hrun g1 load0 s2 g2' Hr).
    + exact E.
    + vm_compute in Hacc. injection Hacc as _ <- <-.
      vm_compute in E. injection E as <- _. reflexivity.
    + vm_compute in Hacc. injection Hacc as _ <- <-.
      vm_compute in E. injection E as <- _. reflexivity.
    + vm_compute in Hacc. injection Hacc as _ <- <-.
      vm_compute in E. injection E as <- _. reflexivity.
    + exists (cache_new 64 1 64 LRU), delay, sys1, g1, sys2, g2, evs.
      split; [reflexivity | split; [reflexivity | split; [exact Hacc |]]].
      split; [exact E | split; [exact Hiss | exact Hin]].
  - destruct (l2_writeback_forwarded (memsys_new g) g 5 false 0
                (cache_new 64 1 64 LRU) dram_new eq_refl eq_refl Hnew
                (or_introl eq_refl) ltac:(lia))
      as (delay0 & s0 & g0 & l2_0 & d0 & Hacc0 & Hl20 & Hd0 & Hok0 & _).
    assert (Hs0 : sys0 = s0).
    { unfold sys0, read5. rewrite Hacc0. reflexivity. }
    rewrite Hs0.
    destruct (l2_writeback_forwarded s0 g 5 true 0 l2_0 d0 Hl20 Hd0 Hok0
                (or_introl eq_refl) ltac:(lia))
      as (delay & sys1 & g1 & l2_1 & d1 & Hacc & Hl21 & _ & _ & _ & _ & _ & _ & _ & _ & Hwb).
    destruct (Hwb eq_refl) as [_ Hrun].
    vm_compute in Hacc0. injection Hacc0 as _ <- _.
    vm_compute in Hl20. injection Hl20 as <-.
    destruct (memsys_run sys1 g1 load0) as [[sys2 g2]|] eqn:E;
      [| vm_compute in Hacc; injection Hacc as _ <- <-; vm_compute in E; discriminate E].
    destruct (Hlater sys1 g1) with (sys2 := sys2) (g2 := g2)
      (l2_2 := match l2cache sys2 with Some c => c | None => l2_1 end)
      as (evs & Hiss & Hin).
    + intros s2 g2' Hr. exact (Hrun g1 load0 s2 g2' Hr).
    + exact E.
    + vm_compute in Hacc. injection Hacc as _ <- <-.
      vm_compute in E. injection E as <- _. reflexivity.
    + vm_compute in Hacc. injection Hacc as _ <- <-.
      vm_compute in E. injection E as <- _. reflexivity.
    + vm_compute in Hacc. injection Hacc as _ <- <-.
      vm_compute in E. injection E as <- _. reflexivity.
    + eexists _, delay, sys1, g1, sys2, g2, evs.
      split; [reflexivity | split; [reflexivity | split; [exact Hacc |]]].
      split; [exact E | split; [exact Hiss | exact Hin]].
Defined.

(** ** Rounding in binary64 *)

Lemma iter_pos_nat {A : Type} (f : A -> A) (p : positive) (x : A) :
  SpecFloat.iter_pos f p x = Nat.iter (Pos.to_nat p) f x.
Proof.
  revert x. induction p as [p IH | p IH |]; intros x; cbn [SpecFloat.iter_pos].
  - rewrite !IH, Pos2Nat.inj_xI, <- Nat.iter_succ_r.
    replace (S (2 * Pos.to_nat p)) with (Pos.to_nat p + S (Pos.to_nat p))%nat by lia.
    rewrite Nat.iter_add. reflexivity.
  - rewrite !IH, Pos2Nat.inj_xO.
    replace (2 * Pos.to_nat p)%nat with (Pos.to_nat p + Pos.to_nat p)%nat by lia.
    rewrite Nat.iter_add. reflexivity.
  - reflexivity.
Qed.

Lemma shr_1_nonneg m r s :
  0 <= m ->
  shr_1 {| shr_m := m; shr_r := r; shr_s := s |}
  = {| shr_m := m / 2; shr_r := Z.odd m; shr_s := r || s |}.
Proof.
  intros Hm. destruct m as [|p|p]; [reflexivity | | lia].
  destruct p as [p|p|]; simpl.
  - rewrite Pos2Z.inj_xI. f_equal.
    rewrite Z.add_comm, Z.mul_comm, Z.div_add by lia. reflexivity.
  - rewrite Pos2Z.inj_xO. f_equal. rewrite Z.mul_comm, Z.div_mul by lia. reflexivity.
  - reflexivity.
Qed.

Lemma shr_iter m k :
  0 <= m ->
  shifted m k (Nat.iter k shr_1 {| shr_m := m; shr_r := false; shr_s := false |}).
Proof.
  intros Hm. induction k as [|k IH].
  - simpl. split; [exact Hm|]. exists 0. simpl. split; [lia | split; [lia | tauto]].
  - rewrite Nat.iter_succ.
    destruct (Nat.iter k shr_1 _) as [q r s]. destruct IH as (Hq & u & Hu & Heq & Hs).
    cbn [shr_m shr_r shr_s] in *. rewrite shr_1_nonneg by exact Hq.
    cbn [shr_m shr_r shr_s].
    assert (Hpow : 2 ^ Z.of_nat (S k) = 2 * 2 ^ Z.of_nat k).
    { rewrite Nat2Z.inj_succ, Z.pow_succ_r by lia. reflexivity. }
    assert (Hpow1 : 2 ^ (Z.of_nat k + 1) = 2 * 2 ^ Z.of_nat k).
    { rewrite Z.pow_add_r by lia. lia. }
    assert (Hpow2 : 2 ^ (Z.of_nat (S k) + 1) = 4 * 2 ^ Z.of_nat k).
    { rewrite Z.pow_add_r, Hpow by lia. lia. }
    assert (Hp : 0 < 2 ^ Z.of_nat k) by (apply Z.pow_pos_nonneg; lia).
    split; [apply Z.div_pos; lia|].
    exists ((if r then 2 ^ Z.of_nat k else 0) + u).
    rewrite Hpow, Hpow2. rewrite Hpow1 in Heq.
    pose proof (Z.div_mod q 2 ltac:(lia)) as Hdm.
    rewrite Zmod_odd in Hdm.
    set (P := 2 ^ Z.of_nat k) in *. clearbody P.
    set (a := q / 2) in *. clearbody a.
    set (b := Z.odd q) in *. clearbody b.
    split; [cbn [shr_m shr_r shr_s]; destruct r; lia | split].
    + subst q. cbn [shr_m shr_r shr_s]. destruct b, r; lia.
    + cbn [shr_m shr_r shr_s]. destruct r; simpl; [split; [discriminate | lia] |].
      rewrite Hs. lia.
Qed.

Lemma digits2_bounds p :
  2 ^ (Z.pos (digits2_pos p) - 1) <= Z.pos p < 2 ^ Z.pos (digits2_pos p).
Proof.
  induction p as [p IH | p IH |]; cbn [digits2_pos].
  - rewrite Pos2Z.inj_succ, Pos2Z.inj_xI.
    replace (Z.succ (Z.pos (digits2_pos p)) - 1) with (Z.succ (Z.pos (digits2_pos p) - 1)) by lia.
    rewrite !Z.pow_succ_r by lia.
    destruct IH as [IH1 IH2]. revert IH1 IH2.
    generalize (2 ^ (Z.pos (digits2_pos p) - 1)) (2 ^ Z.pos (digits2_pos p)). lia.
  - rewrite Pos2Z.inj_succ. change (Z.pos p~0) with (2 * Z.pos p).
    replace (Z.succ (Z.pos (digits2_pos p)) - 1) with (Z.succ (Z.pos (digits2_pos p) - 1)) by lia.
    rewrite !Z.pow_succ_r by lia.
    destruct IH as [IH1 IH2]. revert IH1 IH2.
    generalize (2 ^ (Z.pos (digits2_pos p) - 1)) (2 ^ Z.pos (digits2_pos p)). lia.
  - simpl. lia.
Qed.

Lemma digits2_unique p k :
  2 ^ (k - 1) <= Z.pos p < 2 ^ k -> Z.pos (digits2_pos p) = k.
Proof.
  intros [Hlo Hhi]. pose proof (digits2_bounds p) as [Dlo Dhi].
  set (d := Z.pos (digits2_pos p)) in *.
  assert (Hd : 0 < d) by (unfold d; lia).
  assert (Hk : 0 < k).
  { destruct (Z_lt_le_dec 0 k) as [? | Hle]; [assumption|].
    assert (2 ^ k <= 1).
    { destruct (Z.eq_dec k 0) as [-> | ?]; [simpl; lia|].
      rewrite Z.pow_neg_r by lia. lia. }
    lia. }
  destruct (Z_lt_le_dec d k) as [Hlt | Hge].
  - assert (2 ^ d <= 2 ^ (k - 1)) by (apply Z.pow_le_mono_r; lia). lia.
  - destruct (Z_lt_le_dec k d) as [Hlt | Hge'].
    + assert (2 ^ k <= 2 ^ (d - 1)) by (apply Z.pow_le_mono_r; lia). lia.
    + lia.
Qed.

(** A right shift by [n] bits followed by rounding to nearest even is
    within half a unit of the exact quotient. *)
Lemma shr_round m n e :
  0 <= m ->
  let mrs := fst (shr {| shr_m := m; shr_r := false; shr_s := false |} e (Z.pos n)) in
  let e' := snd (shr {| shr_m := m; shr_r := false; shr_s := false |} e (Z.pos n)) in
  let m1 := round_nearest_even (shr_m mrs) (loc_of_shr_record mrs) in
  e' = e + Z.pos n /\
  - 2 ^ Z.pos n <= 2 * (m1 * 2 ^ Z.pos n - m) <= 2 ^ Z.pos n /\
  (m1 - 1) * 2 ^ Z.pos n <= m < (m1 + 1) * 2 ^ Z.pos n.
Proof.
  intros Hm. unfold shr. cbn [fst snd]. rewrite iter_pos_nat.
  pose proof (shr_iter m (Pos.to_nat n) Hm) as Hsh.
  unfold shifted in Hsh. rewrite positive_nat_Z in Hsh.
  destruct (Nat.iter _ shr_1 _) as [q r s].
  destruct Hsh as (Hq & u & Hu & Heq & Hs). cbn [shr_m shr_r shr_s] in *.
  rewrite Z.pow_add_r in Heq by lia. change (2 ^ 1) with 2 in Heq.
  set (P := 2 ^ Z.pos n) in *.
  assert (HP : 0 < P) by (apply Z.pow_pos_nonneg; lia). clearbody P.
  split; [reflexivity|].
  unfold loc_of_shr_record, round_nearest_even.
  destruct r, s.
  - assert (u <> 0) by (intros ->; destruct Hs as [_ Hs]; discriminate (Hs eq_refl)).
    split; nia.
  - assert (u = 0) by (apply Hs; reflexivity). subst u.
    destruct (Z.even q); split; nia.
  - split; nia.
  - assert (u = 0) by (apply Hs; reflexivity). subst u. split; nia.
Qed.

Lemma fexp_normal e : -1021 <= e -> fexp 53 1024 e = e - 53.
Proof. intros H. unfold fexp, emin. lia. Qed.

Lemma shr_fexp_keep m e :
  0 < m -> -1021 <= Zdigits2 m + e -> Zdigits2 m <= 53 ->
  shr_fexp 53 1024 m e loc_Exact
  = ({| shr_m := m; shr_r := false; shr_s := false |}, e).
Proof.
  intros Hm He Hd. unfold shr_fexp. rewrite fexp_normal by exact He.
  cbn [shr_record_of_loc]. unfold shr.
  destruct (Zdigits2 m + e - 53 - e) as [|p|p] eqn:E; try reflexivity. lia.
Qed.

(** [binary_round_aux] on an exact positive mantissa: the result is the
    mantissa itself when it has at most 53 bits, and otherwise within half
    a unit of the bits shifted out. *)
Lemma binary_round_aux_spec (mx : positive) (ex : Z) :
  let d := Z.pos (digits2_pos mx) in
  -1021 <= d + ex -> d + ex <= 900 ->
  exists m e,
    binary_round_aux 53 1024 false (Z.pos mx) ex loc_Exact = S754_finite false m e /\
    ex <= e <= Z.max ex (d + ex - 52) /\
    - 2 ^ Z.max 0 (d - 53) <= 2 * (Z.pos m * 2 ^ (e - ex) - Z.pos mx)
      <= 2 ^ Z.max 0 (d - 53).
Proof.
  intros d Hlo Hhi. unfold binary_round_aux.
  destruct (Z_le_gt_dec d 53) as [Hd | Hd].
  - (* nothing to shift out *)
    rewrite shr_fexp_keep by (cbn [Zdigits2]; fold d; lia).
    cbn [shr_m loc_of_shr_record round_nearest_even].
    rewrite shr_fexp_keep by (cbn [Zdigits2]; fold d; lia).
    cbn [shr_m].
    destruct (Z.leb_spec ex (1024 - 53)) as [_ | Hbad]; [|lia].
    exists mx, ex. split; [reflexivity|].
    rewrite Z.sub_diag, (Z.max_l 0 (d - 53)) by lia. simpl (2 ^ 0). lia.
  - (* [d - 53] bits are shifted out *)
    unfold shr_fexp at 1. cbn [Zdigits2 shr_record_of_loc]. fold d.
    rewrite fexp_normal by exact Hlo.
    replace (d + ex - 53 - ex) with (d - 53) by lia.
    destruct (d - 53) as [|n|n] eqn:En; try lia.
    pose proof (shr_round (Z.pos mx) n ex ltac:(lia)) as Hr. cbv zeta in Hr.
    destruct (shr {| shr_m := Z.pos mx; shr_r := false; shr_s := false |} ex (Z.pos n))
      as [mrs e1]. cbn [fst snd] in Hr.
    set (m1 := round_nearest_even (shr_m mrs) (loc_of_shr_record mrs)) in *.
    destruct Hr as (-> & Hclose & Hq).
    pose proof (digits2_bounds mx) as [Dlo Dhi]. fold d in Dlo, Dhi.
    replace (d - 1) with (52 + Z.pos n) in Dlo by lia.
    replace d with (53 + Z.pos n) in Dhi by lia.
    rewrite Z.pow_add_r in Dlo, Dhi by lia.
    set (P := 2 ^ Z.pos n) in *.
    assert (HP : 0 < P) by (apply Z.pow_pos_nonneg; lia).
    assert (Hm1 : 2 ^ 52 <= m1 <= 2 ^ 53) by nia.
    rewrite (Z.max_r 0 (Z.pos n)) by lia. fold P.
    destruct (Z.eq_dec m1 (2 ^ 53)) as [Heq | Hne].
    + (* the rounding carried into a 54th bit *)
      assert (Heq' : m1 = 9007199254740992) by lia.
      rewrite Heq' in *.
      exists 4503599627370496%positive, (ex + Z.pos n + 1).
      split.
      * unfold shr_fexp. change (Zdigits2 9007199254740992) with 54.
        rewrite fexp_normal by lia.
        replace (54 + (ex + Z.pos n) - 53 - (ex + Z.pos n)) with 1 by lia.
        cbn [shr_record_of_loc shr iter_pos shr_1 shr_m].
        destruct (Z.leb_spec (ex + Z.pos n + 1) (1024 - 53)) as [_ | Hbad]; [reflexivity | lia].
      * split; [lia|].
        replace (ex + Z.pos n + 1 - ex) with (Z.pos n + 1) by lia.
        rewrite Z.pow_add_r by lia. fold P. change (2 ^ 1) with 2. lia.
    + (* the rounded mantissa still has 53 bits *)
      destruct m1 as [|p1|p1] eqn:Ep1; try lia.
      assert (Hd1 : Z.pos (digits2_pos p1) = 53) by (apply digits2_unique; lia).
      rewrite shr_fexp_keep by (cbn [Zdigits2]; lia).
      cbn [shr_m].
      destruct (Z.leb_spec (ex + Z.pos n) (1024 - 53)) as [_ | Hbad]; [|lia].
      exists p1, (ex + Z.pos n). split; [reflexivity|].
      split; [lia|].
      replace (ex + Z.pos n - ex) with (Z.pos n) by lia. fold P. exact Hclose.
Qed.

Lemma pos_iter_xO mx k : Z.pos (Pos.iter xO mx k) = Z.pos mx * 2 ^ Z.pos k.
Proof.
  induction k as [|k IH] using Pos.peano_ind.
  - cbn [Pos.iter]. change (Z.pos mx~0) with (2 * Z.pos mx). lia.
  - rewrite Pos.iter_succ, Pos2Z.inj_succ, Z.pow_succ_r by lia.
    change (Z.pos (Pos.iter xO mx k)~0) with (2 * Z.pos (Pos.iter xO mx k)).
    rewrite IH. lia.
Qed.

(** [shl_align] towards a smaller exponent keeps the value. *)
Lemma shl_align_spec mx ex ex' :
  ex' <= ex ->
  let '(mz, ez) := shl_align mx ex ex' in
  ez = ex' /\ Z.pos mz = Z.pos mx * 2 ^ (ex - ex').
Proof.
  intros Hle. unfold shl_align.
  destruct (ex' - ex) as [|p|p] eqn:E; try lia.
  - split; [lia|]. replace (ex - ex') with 0 by lia. simpl. lia.
  - split; [reflexivity|]. rewrite pos_iter_xO. f_equal. f_equal. lia.
Qed.

(** [binary_round_aux], with the values scaled by [2^K]. *)
Lemma binary_round_aux_scaled (K : Z) (mx : positive) (ex : Z) :
  let d := Z.pos (digits2_pos mx) in
  -1021 <= d + ex -> d + ex <= 900 -> 0 <= ex + K ->
  exists m e,
    binary_round_aux 53 1024 false (Z.pos mx) ex loc_Exact = S754_finite false m e /\
    ex <= e /\
    - 2 ^ (Z.max 0 (d - 53) + (ex + K))
      <= 2 * (Z.pos m * 2 ^ (e + K) - Z.pos mx * 2 ^ (ex + K))
      <= 2 ^ (Z.max 0 (d - 53) + (ex + K)) /\
    (d <= 53 -> Z.pos m * 2 ^ (e + K) = Z.pos mx * 2 ^ (ex + K)).
Proof.
  intros d Hlo Hhi HK.
  destruct (binary_round_aux_spec mx ex ltac:(fold d; lia) ltac:(fold d; lia))
    as (m & e & Hr & He & Hc). fold d in He, Hc.
  exists m, e. split; [exact Hr | split; [lia|]].
  replace (e + K) with ((e - ex) + (ex + K)) by lia.
  rewrite (Z.pow_add_r 2 (e - ex)), (Z.pow_add_r 2 (Z.max 0 (d - 53))) by lia.
  assert (0 < 2 ^ (ex + K)) by (apply Z.pow_pos_nonneg; lia).
  split.
  - set (A := 2 ^ Z.max 0 (d - 53)) in *. set (B := 2 ^ (e - ex)) in *.
    set (C := 2 ^ (ex + K)) in *. clearbody A B C. nia.
  - intros Hd. rewrite Z.max_l in Hc by lia. simpl (2 ^ 0) in Hc.
    assert (Z.pos m * 2 ^ (e - ex) = Z.pos mx) as <- by lia.
    rewrite Z.mul_assoc. reflexivity.
Qed.

(** [binary_round] of a positive mantissa: the result is within half a
    unit of the bits it shifts out, and exact when there are none. *)
Lemma binary_round_spec (K : Z) (mx : positive) (ex : Z) :
  let d := Z.pos (digits2_pos mx) in
  -1021 <= d + ex -> d + ex <= 900 -> 0 <= ex + K -> 0 <= d + ex - 53 + K ->
  exists m e,
    binary_round 53 1024 false mx ex = S754_finite false m e /\
    Z.min ex (d + ex - 53) <= e /\
    - 2 ^ (Z.max 0 (d - 53) + (ex + K))
      <= 2 * (Z.pos m * 2 ^ (e + K) - Z.pos mx * 2 ^ (ex + K))
      <= 2 ^ (Z.max 0 (d - 53) + (ex + K)) /\
    (d <= 53 -> Z.pos m * 2 ^ (e + K) = Z.pos mx * 2 ^ (ex + K)).
Proof.
  intros d Hlo Hhi HK HK'. unfold binary_round. fold d.
  rewrite fexp_normal by exact Hlo.
  pose proof (digits2_bounds mx) as [Dlo Dhi]. fold d in Dlo, Dhi.
  destruct (Z_lt_le_dec d 53) as [Hd | Hd].
  - (* fewer than 53 bits: the mantissa is shifted left, nothing is lost *)
    pose proof (shl_align_spec mx ex (d + ex - 53) ltac:(lia)) as Hs.
    destruct (shl_align mx ex (d + ex - 53)) as [mz ez]. destruct Hs as [-> Hmz].
    replace (ex - (d + ex - 53)) with (53 - d) in Hmz by lia.
    assert (Hdz : Z.pos (digits2_pos mz) = 53).
    { apply digits2_unique. change (53 - 1) with 52.
      assert (E1 : 2 ^ 52 = 2 ^ (d - 1) * 2 ^ (53 - d)).
      { rewrite <- Z.pow_add_r by lia. f_equal. lia. }
      assert (E2 : 2 ^ 53 = 2 ^ d * 2 ^ (53 - d)).
      { rewrite <- Z.pow_add_r by lia. f_equal. lia. }
      assert (0 < 2 ^ (53 - d)) by (apply Z.pow_pos_nonneg; lia).
      rewrite Hmz, E1, E2. nia. }
    destruct (binary_round_aux_scaled K mz (d + ex - 53)) as (m & e & Hr & He & _ & Hx).
    { rewrite Hdz. lia. } { rewrite Hdz. lia. } { lia. }
    rewrite Hdz in Hx. specialize (Hx ltac:(lia)).
    exists m, e. split; [exact Hr | split; [lia|]].
    assert (Hval : Z.pos m * 2 ^ (e + K) = Z.pos mx * 2 ^ (ex + K)).
    { rewrite Hx, Hmz.
      replace (ex + K) with ((53 - d) + (d + ex - 53 + K)) by lia.
      rewrite (Z.pow_add_r 2 (53 - d)) by lia. rewrite Z.mul_assoc. reflexivity. }
    split; [|intros _; exact Hval].
    rewrite Hval, Z.sub_diag.
    pose proof (Z.pow_nonneg 2 (Z.max 0 (d - 53) + (ex + K)) ltac:(lia)). lia.
  - (* at least 53 bits: [shl_align] does nothing *)
    assert (Hs : shl_align mx ex (d + ex - 53) = (mx, ex)).
    { unfold shl_align. destruct (d + ex - 53 - ex) as [|p|p] eqn:E; try reflexivity. lia. }
    rewrite Hs.
    destruct (binary_round_aux_scaled K mx ex ltac:(fold d; lia) ltac:(fold d; lia) HK)
      as (m & e & Hr & He & Hc & Hx). fold d in Hc, Hx.
    exists m, e. split; [exact Hr | split; [lia | split; [exact Hc | exact Hx]]].
Qed.

(** The rounding error in terms of the size of the value: a value below
    [2^T] is rounded with an error of at most [2^(T-54)]. *)
Lemma rounding_error (d ex K T mx v : Z) :
  0 < mx -> 2 ^ (d - 1) <= mx -> 0 < d -> 0 <= ex + K ->
  mx * 2 ^ (ex + K) < 2 ^ T ->
  - 2 ^ (Z.max 0 (d - 53) + (ex + K)) <= 2 * (v - mx * 2 ^ (ex + K))
    <= 2 ^ (Z.max 0 (d - 53) + (ex + K)) ->
  (d <= 53 -> v = mx * 2 ^ (ex + K)) ->
  53 <= T ->
  d + ex + K <= T /\
  - 2 ^ (T - 53) <= 2 * (v - mx * 2 ^ (ex + K)) <= 2 ^ (T - 53).
Proof.
  intros Hmx Hd Hd0 HK Hlt Hc Hx HT.
  assert (Hsize : d + ex + K <= T).
  { destruct (Z_le_gt_dec (d + ex + K) T) as [? | Hgt]; [assumption|].
    assert (2 ^ T <= 2 ^ (d - 1 + (ex + K))) by (apply Z.pow_le_mono_r; lia).
    rewrite Z.pow_add_r in H by lia.
    assert (0 < 2 ^ (ex + K)) by (apply Z.pow_pos_nonneg; lia). nia. }
  split; [exact Hsize|].
  pose proof (Z.pow_nonneg 2 (T - 53) ltac:(lia)).
  destruct (Z_le_gt_dec d 53) as [Hle | Hgt].
  - rewrite (Hx Hle), Z.sub_diag. lia.
  - rewrite Z.max_r in Hc by lia.
    assert (2 ^ (d - 53 + (ex + K)) <= 2 ^ (T - 53)) by (apply Z.pow_le_mono_r; lia).
    lia.
Qed.

Lemma size_bound (d ex K T mx : Z) :
  2 ^ (d - 1) <= mx -> 0 < d -> 0 <= ex + K -> 0 <= T ->
  mx * 2 ^ (ex + K) < 2 ^ T -> d + ex + K <= T.
Proof.
  intros Hd Hd0 HK HT Hlt.
  destruct (Z_le_gt_dec (d + ex + K) T) as [? | Hgt]; [assumption|].
  assert (H : 2 ^ T <= 2 ^ (d - 1 + (ex + K))) by (apply Z.pow_le_mono_r; lia).
  rewrite Z.pow_add_r in H by lia.
  assert (0 < 2 ^ (ex + K)) by (apply Z.pow_pos_nonneg; lia). nia.
Qed.

Lemma b64_of_Z_spec h :
  0 <= h < 2 ^ 32 ->
  sf_ok 52 0 (b64_of_Z h) /\ sf_scaled 52 (b64_of_Z h) = h * 2 ^ 52.
Proof.
  intros Hh. unfold b64_of_Z, binary_normalize.
  destruct h as [|p|p]; [split; [left; reflexivity | reflexivity] | | lia].
  pose proof (digits2_bounds p) as [Dlo Dhi].
  set (d := Z.pos (digits2_pos p)) in *.
  assert (Hd : 0 < d) by (unfold d; lia).
  assert (Hd32 : d <= 32).
  { pose proof (size_bound d 0 0 32 (Z.pos p) Dlo Hd ltac:(lia) ltac:(lia)) as H.
    simpl (2 ^ (0 + 0)) in H. lia. }
  destruct (binary_round_spec 52 p 0) as (m & e & Hr & He & _ & Hx); fold d; try lia.
  fold d in He, Hx. rewrite Hr.
  split; [right; exists m, e; split; [reflexivity | lia]|].
  cbn [sf_scaled]. apply Hx. lia.
Qed.

(** The product of a binary64 constant below 1 by a 32-bit counter. *)
Lemma b64_mul_const_spec (Mc : positive) (ec h : Z) :
  Z.pos Mc < 2 ^ 53 -> -60 <= ec <= -53 -> 0 <= h < 2 ^ 32 ->
  let x := b64_mul (S754_finite false Mc ec) (b64_of_Z h) in
  sf_ok 200 52 x /\
  - 2 ^ (32 + ec + 200) <= 2 * (sf_scaled 200 x - Z.pos Mc * h * 2 ^ (ec + 200))
    <= 2 ^ (32 + ec + 200).
Proof.
  intros HMc Hec Hh x. subst x.
  destruct (b64_of_Z_spec h Hh) as [Hok Hval].
  pose proof (Z.pow_nonneg 2 (32 + ec + 200) ltac:(lia)) as Hnn.
  destruct Hok as [Hz | (mz & ez & Hf & Hez)].
  - rewrite Hz in *. cbn [sf_scaled] in Hval.
    assert (h = 0) by lia. subst h.
    split; [left; reflexivity|]. cbn [b64_mul SFmul sf_scaled xorb].
    replace (Z.pos Mc * 0 * 2 ^ (ec + 200)) with 0 by ring. lia.
  - rewrite Hf in *. cbn [sf_scaled] in Hval.
    unfold b64_mul. cbn [SFmul xorb].
    change (Z.pos (Mc * mz)) with (Z.pos Mc * Z.pos mz).
    rewrite <- Pos2Z.inj_mul.
    set (mx := (Mc * mz)%positive).
    pose proof (digits2_bounds mx) as [Dlo Dhi].
    set (d := Z.pos (digits2_pos mx)) in *.
    assert (Hd : 0 < d) by (unfold d; lia).
    assert (Hexact : Z.pos mx * 2 ^ (ec + ez + 200) = Z.pos Mc * h * 2 ^ (ec + 200)).
    { unfold mx. rewrite Pos2Z.inj_mul.
      replace (ec + ez + 200) with ((ez + 52) + (ec + 148)) by lia.
      replace (ec + 200) with (52 + (ec + 148)) by lia.
      rewrite (Z.pow_add_r 2 (ez + 52) (ec + 148)) by lia.
      rewrite (Z.pow_add_r 2 52 (ec + 148)) by lia.
      transitivity (Z.pos Mc * (Z.pos mz * 2 ^ (ez + 52)) * 2 ^ (ec + 148)); [ring|].
      rewrite Hval. ring. }
    assert (Hlt : Z.pos mx * 2 ^ (ec + ez + 200) < 2 ^ (85 + ec + 200)).
    { rewrite Hexact.
      replace (85 + ec + 200) with (53 + 32 + (ec + 200)) by lia.
      rewrite (Z.pow_add_r 2 (53 + 32) (ec + 200)) by lia.
      rewrite (Z.pow_add_r 2 53 32) by lia.
      assert (0 < 2 ^ (ec + 200)) by (apply Z.pow_pos_nonneg; lia).
      assert (0 < h).
      { destruct (Z.eq_dec h 0) as [-> | ?]; [|lia].
        assert (0 < 2 ^ (ez + 52)) by (apply Z.pow_pos_nonneg; lia). nia. }
      assert (Z.pos Mc * h < 2 ^ 53 * 2 ^ 32) by nia.
      nia. }
    pose proof (size_bound d (ec + ez) 200 (85 + ec + 200) (Z.pos mx) Dlo Hd
                  ltac:(lia) ltac:(lia) Hlt) as Hsize.
    destruct (binary_round_aux_scaled 200 mx (ec + ez)) as (m & e & Hr & He & Hc & Hx);
      fold d; try lia.
    fold d in Hc, Hx. rewrite Hr.
    split; [right; exists m, e; split; [reflexivity | lia]|].
    cbn [sf_scaled]. rewrite <- Hexact.
    destruct (rounding_error d (ec + ez) 200 (85 + ec + 200) (Z.pos mx)
                (Z.pos m * 2 ^ (e + 200)) ltac:(lia) Dlo Hd ltac:(lia) Hlt Hc Hx ltac:(lia))
      as [_ Herr].
    replace (85 + ec + 200 - 53) with (32 + ec + 200) in Herr by lia. exact Herr.
Qed.

(** The sum of two non-negative floats below [2^32]. *)
Lemma b64_add_spec (x y : spec_float) :
  sf_ok 200 52 x -> sf_ok 200 52 y ->
  sf_scaled 200 x < 2 ^ 232 -> sf_scaled 200 y < 2 ^ 232 ->
  sf_ok 200 0 (b64_add x y) /\
  - 2 ^ 180 <= 2 * (sf_scaled 200 (b64_add x y) - (sf_scaled 200 x + sf_scaled 200 y))
    <= 2 ^ 180.
Proof.
  intros Hx Hy Bx By.
  assert (Hweak : forall z, sf_ok 200 52 z -> sf_ok 200 0 z).
  { intros z [-> | (m & e & -> & He)]; [left; reflexivity|].
    right. exists m, e. split; [reflexivity | lia]. }
  destruct Hx as [-> | (m1 & e1 & -> & He1)]; destruct Hy as [-> | (m2 & e2 & -> & He2)].
  - split; [left; reflexivity|]. cbn. lia.
  - split; [apply Hweak; right; exists m2, e2; split; [reflexivity | lia]|].
    cbn [b64_add SFadd sf_scaled]. lia.
  - split; [apply Hweak; right; exists m1, e1; split; [reflexivity | lia]|].
    cbn [b64_add SFadd sf_scaled]. lia.
  - cbn [sf_scaled] in *. unfold b64_add. cbn [SFadd cond_Zopp].
    set (ez := Z.min e1 e2).
    pose proof (shl_align_spec m1 e1 ez ltac:(lia)) as H1.
    pose proof (shl_align_spec m2 e2 ez ltac:(lia)) as H2.
    destruct (shl_align m1 e1 ez) as [a ?]. destruct (shl_align m2 e2 ez) as [b ?].
    destruct H1 as [_ Ha]. destruct H2 as [_ Hb]. cbn [fst].
    change (Z.pos a + Z.pos b) with (Z.pos (a + b)). cbn [binary_normalize].
    set (s := (a + b)%positive).
    assert (Hsum : Z.pos s * 2 ^ (ez + 200)
                   = Z.pos m1 * 2 ^ (e1 + 200) + Z.pos m2 * 2 ^ (e2 + 200)).
    { unfold s. rewrite Pos2Z.inj_add, Ha, Hb.
      replace (e1 + 200) with ((e1 - ez) + (ez + 200)) by lia.
      replace (e2 + 200) with ((e2 - ez) + (ez + 200)) by lia.
      rewrite (Z.pow_add_r 2 (e1 - ez)), (Z.pow_add_r 2 (e2 - ez)) by lia. ring. }
    pose proof (digits2_bounds s) as [Dlo Dhi].
    set (d := Z.pos (digits2_pos s)) in *.
    assert (Hd : 0 < d) by (unfold d; lia).
    assert (Hlt : Z.pos s * 2 ^ (ez + 200) < 2 ^ 233).
    { rewrite Hsum. change (2 ^ 233) with (2 ^ 232 + 2 ^ 232). lia. }
    pose proof (size_bound d ez 200 233 (Z.pos s) Dlo Hd ltac:(lia) ltac:(lia) Hlt) as Hsize.
    destruct (binary_round_spec 200 s ez) as (m & e & Hr & He & Hc & Hex); fold d; try lia.
    fold d in He, Hc, Hex. rewrite Hr.
    split; [right; exists m, e; split; [reflexivity | lia]|].
    cbn [sf_scaled]. rewrite <- Hsum.
    destruct (rounding_error d ez 200 233 (Z.pos s) (Z.pos m * 2 ^ (e + 200))
                ltac:(lia) Dlo Hd ltac:(lia) Hlt Hc Hex ltac:(lia)) as [_ Herr].
    exact Herr.
Qed.

(** Truncation reads off the integer part of the scaled value. *)
Lemma b64_trunc_spec (K : Z) (x : spec_float) :
  0 <= K -> sf_ok K 0 x -> b64_trunc x = sf_scaled K x / 2 ^ K.
Proof.
  intros HK [-> | (m & e & -> & He)]; [reflexivity|].
  cbn [b64_trunc sf_scaled].
  destruct (Z.leb_spec 0 e) as [Hpos | Hneg].
  - rewrite Z.pow_add_r by lia. rewrite Z.mul_assoc, Z.div_mul; [reflexivity|].
    apply Z.pow_nonzero; lia.
  - replace K with ((e + K) + (- e)) at 2 by lia.
    rewrite (Z.pow_add_r 2 (e + K)) by lia.
    rewrite (Z.mul_comm (2 ^ (e + K))).
    rewrite Z.div_mul_cancel_r; [reflexivity | |]; apply Z.pow_nonzero; lia.
Qed.

Lemma sf_scaled_nonneg (K c : Z) (x : spec_float) :
  sf_ok K c x -> 0 <= sf_scaled K x.
Proof.
  intros [-> | (m & e & -> & _)]; cbn [sf_scaled]; [lia|].
  pose proof (Z.pow_nonneg 2 (e + K) ltac:(lia)). nia.
Qed.

(** The blend computed in binary64 is the exact quotient [(7h + 3m) / 10]
    rounded down, or one less; it can only be one less when the exact
    blend is an integer. *)
Lemma utility_blend_close (h m : Z) :
  0 <= h < 2 ^ 32 -> 0 <= m < 2 ^ 32 ->
  exact_utility h m - 1 <= utility_blend h m <= exact_utility h m /\
  ((7 * h + 3 * m) mod 10 <> 0 -> utility_blend h m = exact_utility h m).
Proof.
  intros Hh Hm. unfold utility_blend, exact_utility.
  destruct (b64_mul_const_spec 6305039478318694 (-53) h ltac:(reflexivity) ltac:(lia) Hh)
    as [HokA HA].
  destruct (b64_mul_const_spec 5404319552844595 (-54) m ltac:(reflexivity) ltac:(lia) Hm)
    as [HokB HB].
  change (S754_finite false 6305039478318694 (-53)) with b64_0_7 in *.
  change (S754_finite false 5404319552844595 (-54)) with b64_0_3 in *.
  set (x := b64_mul b64_0_7 (b64_of_Z h)) in *.
  set (y := b64_mul b64_0_3 (b64_of_Z m)) in *.
  pose proof (sf_scaled_nonneg _ _ _ HokA) as HA0.
  pose proof (sf_scaled_nonneg _ _ _ HokB) as HB0.
  set (A := sf_scaled 200 x) in *. set (B := sf_scaled 200 y) in *.
  change (2 ^ 32) with 4294967296 in *.
  change (2 ^ (32 + -53 + 200)) with (2 ^ 179) in HA.
  change (2 ^ (32 + -54 + 200)) with (2 ^ 178) in HB.
  change (2 ^ (-53 + 200)) with (2 ^ 147) in HA.
  change (2 ^ (-54 + 200)) with (2 ^ 146) in HB.
  assert (HAlt : A < 2 ^ 232) by lia.
  assert (HBlt : B < 2 ^ 232) by lia.
  destruct (b64_add_spec x y HokA HokB HAlt HBlt) as [HokS HS].
  fold A B in HS.
  pose proof (sf_scaled_nonneg _ _ _ HokS) as HS0.
  rewrite (b64_trunc_spec 200 _ ltac:(lia) HokS).
  set (S := sf_scaled 200 (b64_add x y)) in *.
  pose proof (Z.div_mod S (2 ^ 200) ltac:(lia)) as HT.
  pose proof (Z.mod_pos_bound S (2 ^ 200) ltac:(lia)) as HTr.
  set (T := S / 2 ^ 200) in *.
  pose proof (Z.div_mod (7 * h + 3 * m) 10 ltac:(lia)) as Hq.
  pose proof (Z.mod_pos_bound (7 * h + 3 * m) 10 ltac:(lia)) as Hr.
  set (q := (7 * h + 3 * m) / 10) in *.
  set (r := (7 * h + 3 * m) mod 10) in *.
  clearbody A B S T q r. clear x y HokA HokB HokS.
  assert (HT0 : 0 <= T < 4294967296) by lia.
  rewrite (u32_small T) by (change (2 ^ 32) with 4294967296; lia).
  lia.
Qed.


(** ** Dynamic way partitioning *)

Lemma u32_add_l x y : u32 (u32 x + y) = u32 (x + y).
Proof. unfold u32. apply Zplus_mod_idemp_l. Qed.

(** The hit counters that the loop adds up are those of the ways the core
    owns, the sum being taken modulo [2^32]. *)
Lemma hit_sum_spec r hits k n : forall i total,
  total = u32 (owned_hits r hits k i) ->
  hit_sum r hits k i n total = u32 (owned_hits r hits k (i + n)).
Proof.
  induction n as [|n IH]; intros i total Ht; simpl.
  - rewrite Nat.add_0_r. exact Ht.
  - replace (i + S n)%nat with (S i + n)%nat by lia. apply IH. simpl.
    destruct (coreID (r !!! i) =? k).
    + rewrite Ht. apply u32_add_l.
    + rewrite Z.add_0_r. exact Ht.
Qed.

(** C4, as the code behaves.  Under DWP on a full set, every call stores
    into [DWP_CORE0_WAYS] the quotient of [utility 0 * W] by
    [max (utility 0 + utility 1) 1], every operation being taken in
    32-bit unsigned arithmetic, where the hits of a core are the sum of
    [totalHits] over the ways it owns, the misses are [totalMisses] for
    both cores, and the utility is the binary64 value of [0.7 * hits +
    0.3 * misses], each product and the sum rounded to nearest, truncated
    to an integer.  That utility is the exact [floor ((7 * hits + 3 *
    misses) / 10)] or one less, and it is the exact one whenever [7 * hits
    + 3 * misses] is not a multiple of 10.  The victim is then chosen as
    under SWP with this quota: the least recently used line of core 1 when
    core 0 is under the quota, of the requesting core otherwise. *)
Theorem dwp_quota_update (c : Cache) (g : Globals) (set_index core_id : Z) :
  let s := cacheGrid c !!! Z.to_nat set_index in
  let W := Z.to_nat (ways c) in
  let hits k := u32 (owned_hits (row s) (totalHits (umon s)) k W) in
  let misses := u32 (totalMisses (umon s)) in
  let utility k := utility_blend (hits k) misses in
  let quota := u32 (utility 0 * ways c) / Z.max (u32 (utility 0 + utility 1)) 1 in
  let ways0 := ways_per_core s !!! 0%nat in
  let target := if ways0 <? quota then 1 else core_id in
  let v := fst (cache_find_victim c g set_index core_id) in
  policy c = DWP -> full_set W s ->
  DWP_CORE0_WAYS (snd (cache_find_victim c g set_index core_id)) = quota /\
  v = partition_victim (row s) W ways0 quota core_id /\
  ((exists w, (w < W)%nat /\ coreID (row s !!! w) = target) ->
   oldest_of_core target (row s) W v) /\
  (forall k,
     exact_utility (hits k) misses - 1 <= utility k <= exact_utility (hits k) misses /\
     ((7 * hits k + 3 * misses) mod 10 <> 0 ->
      utility k = exact_utility (hits k) misses)).
Proof.
  intros s W hits misses utility quota ways0 target v Hpol Hfull.
  assert (Hq : dwp_quota s (ways c) = quota).
  { unfold dwp_quota, quota, utility, hits, misses. fold W.
    rewrite !(hit_sum_spec _ _ _ W 0%nat 0 eq_refl). reflexivity. }
  assert (Hfind : cache_find_victim c g set_index core_id
                  = (partition_victim (row s) W ways0 quota core_id,
                     set_DWP_CORE0_WAYS quota g)).
  { unfold cache_find_victim. fold s W.
    destruct (first_way (fun l => negb (valid l)) (row s) 0 W) as [i|] eqn:E.
    - apply first_way_Some in E as (Hr & Hp & _).
      rewrite Hfull in Hp by lia. discriminate.
    - rewrite Hpol, Hq. reflexivity. }
  unfold v. rewrite Hfind. cbn [fst snd].
  split; [reflexivity | split; [reflexivity | split]].
  - intros Hex. apply partition_victim_spec. exact Hex.
  - intros k. apply utility_blend_close; apply u32_range.
Qed.

Lemma dwp_quota_update_witness :
  let c := dwp_example in
  let g := example_globals SIM_MODE_DEF DWP 128 2 in
  policy c = DWP /\ full_set 2 (cacheGrid c !!! 0%nat) /\
  DWP_CORE0_WAYS (snd (cache_find_victim c g 0 0)) = 0.
Proof.
  intros c g.
  assert (Hfull : full_set 2 (cacheGrid c !!! 0%nat)).
  { intros w Hw. destruct w as [|[|w]]; [reflexivity | reflexivity | lia]. }
  split; [reflexivity | split; [exact Hfull |]].
  destruct (dwp_quota_update c g 0 0 eq_refl Hfull) as [-> _]. reflexivity.
Defined.

(** The quota that C4 states in exact arithmetic is not the one the code
    stores: with 3 hits for core 0, 4 for core 1 and 3 misses in a set of
    two ways, the code computes the utilities 2 and 3 and stores 0, where
    the exact utilities 3 and 3 give 1. *)
Lemma dwp_quota_update_counterexample :
  let c := dwp_example in
  let g := example_globals SIM_MODE_DEF DWP 128 2 in
  let s := cacheGrid c !!! 0%nat in
  policy c = DWP /\ full_set 2 s /\
  owned_hits (row s) (totalHits (umon s)) 0 2 = 3 /\
  owned_hits (row s) (totalHits (umon s)) 1 2 = 4 /\
  totalMisses (umon s) = 3 /\
  utility_blend 3 3 = 2 /\ exact_utility 3 3 = 3 /\
  dwp_quota_spec s (ways c) = 1 /\
  DWP_CORE0_WAYS (snd (cache_find_victim c g 0 0)) <> dwp_quota_spec s (ways c).
Proof.
  intros c g s.
  split; [reflexivity|].
  split; [intros w Hw; destruct w as [|[|w]]; [reflexivity | reflexivity | lia]|].
  repeat (split; [reflexivity|]).
  vm_compute. discriminate.
Qed.

(** ** Writebacks from the L1 caches *)

(** Every call of [memsys_l2_access] on a well-shaped L2 completes; the
    calls it issues are its own L2 access followed by DRAM accesses only. *)
Lemma l2_writeback_cases_total sys g a wb k l2 d :
  l2cache sys = Some l2 -> dram sys = Some d -> cache_ok l2 -> k = 0 \/ k = 1 ->
  exists delay sys' g' l2' d' evs,
    memsys_l2_access sys g a wb k = Some (delay, sys', g') /\
    l2cache sys' = Some l2' /\ dram sys' = Some d' /\ cache_ok l2' /\
    issued sys' = issued sys ++ evs /\
    writebacks evs = (if wb then [EvL2 a true k] else []) /\
    (forall w, l1_get w sys' = l1_get w sys).
Proof.
  intros Hl2 Hd Hok Hk.
  pose proof (memsys_l2_access_cases sys g a wb k l2 d Hl2 Hd Hok Hk) as Hc.
  cbv zeta in Hc.
  pose proof (cache_access_ok l2 g a wb k Hok) as Hok1.
  destruct (fst (cache_access l2 g a wb k)).
  - eexists _, _, _, _, _, _. split; [exact Hc|]. cbn [l2cache dram issued with_l2_dram].
    split; [reflexivity | split; [reflexivity | split; [exact Hok1 |]]].
    split; [reflexivity | split].
    + destruct wb; reflexivity.
    + intros w. destruct w; reflexivity.
  - destruct Hc as (l2b & g1 & Hi & Hres).
    pose proof (cache_install_ok _ g a wb k l2b g1 Hok1 Hi) as Hokb.
    destruct (valid (lastEvictedLine l2b) && dirty (lastEvictedLine l2b));
      (eexists _, _, _, _, _, _; split; [exact Hres|];
       cbn [l2cache dram issued with_l2_dram];
       split; [reflexivity | split; [reflexivity | split; [exact Hokb |]]];
       split; [reflexivity | split];
       [destruct wb; reflexivity | intros w; destruct w; reflexivity]).
Qed.

Lemma lor_range x y n :
  0 <= n -> 0 <= x < 2 ^ n -> 0 <= y < 2 ^ n -> 0 <= Z.lor x y < 2 ^ n.
Proof.
  intros Hn Hx Hy. split; [apply Z.lor_nonneg; lia|].
  destruct (Z.eq_dec (Z.lor x y) 0) as [-> | Hne]; [lia|].
  assert (Hpos : 0 < Z.lor x y).
  { pose proof (proj2 (Z.lor_nonneg x y) (conj (proj1 Hx) (proj1 Hy))). lia. }
  apply Z.log2_lt_pow2; [exact Hpos|].
  rewrite Z.log2_lor by lia.
  destruct (Z.eq_dec x 0) as [-> | Hx0]; destruct (Z.eq_dec y 0) as [-> | Hy0];
    try (rewrite Z.lor_0_l in Hne); try (rewrite Z.lor_0_r in Hne); try lia.
  - change (Z.log2 0) with 0. pose proof (proj1 (Z.log2_lt_pow2 y n ltac:(lia)) ltac:(lia)).
    pose proof (Z.log2_nonneg y). lia.
  - change (Z.log2 0) with 0. pose proof (proj1 (Z.log2_lt_pow2 x n ltac:(lia)) ltac:(lia)).
    pose proof (Z.log2_nonneg x). lia.
  - pose proof (proj1 (Z.log2_lt_pow2 x n ltac:(lia)) ltac:(lia)).
    pose proof (proj1 (Z.log2_lt_pow2 y n ltac:(lia)) ltac:(lia)). lia.
Qed.

(** [memsys_access_modeBC] truncates the shifted tag before it adds the
    index bits, [memsys_access_modeDEF] and [memsys_l2_access] after; the
    two orders give the same address. *)
Lemma evicted_address_modeBC c line_addr :
  let index := u32 (Z.land line_addr (index_mask c)) in
  u32 (Z.lor (u32 (u64 (Z.shiftl (tag (lastEvictedLine c)) (index_bits c)))) index)
  = evicted_address c line_addr.
Proof.
  intros index. unfold evicted_address. fold index.
  generalize (u64 (Z.shiftl (tag (lastEvictedLine c)) (index_bits c))). intros x.
  unfold u32. rewrite <- !(Z.land_ones _ 32) by lia.
  rewrite !Z.land_lor_distr_l. f_equal.
  rewrite <- Z.land_assoc, Z.land_diag. reflexivity.
Qed.

(** The rebuilt address is the address of the evicted line whenever that
    address fits 32 bits. *)
Lemma evicted_address_exact c line_addr :
  cache_ok c -> 0 <= tag (lastEvictedLine c) ->
  Z.shiftl (tag (lastEvictedLine c)) (index_bits c) < 2 ^ 32 ->
  evicted_address c line_addr
  = Z.lor (Z.shiftl (tag (lastEvictedLine c)) (index_bits c))
          (Z.land line_addr (index_mask c)).
Proof.
  intros Hok Htag Hsmall. unfold evicted_address.
  pose proof (ok_bits c Hok) as Hb. pose proof (ok_sets c Hok) as Hs.
  pose proof (land_ones_range line_addr (index_bits c) Hb) as Hr.
  rewrite <- (ok_mask c Hok) in Hr.
  assert (Hb31 : index_bits c <= 31).
  { destruct (Z_le_gt_dec (index_bits c) 31) as [? | Hgt]; [assumption|].
    assert (2 ^ 32 <= 2 ^ index_bits c) by (apply Z.pow_le_mono_r; lia). lia. }
  assert (Hp : 2 ^ index_bits c <= 2 ^ 32) by (apply Z.pow_le_mono_r; lia).
  assert (Hsh : 0 <= Z.shiftl (tag (lastEvictedLine c)) (index_bits c))
    by (apply Z.shiftl_nonneg; exact Htag).
  rewrite (u32_small (Z.land _ _)) by lia.
  rewrite (u64_small (Z.shiftl _ _)) by lia.
  apply u32_small. apply lor_range; lia.
Qed.

Lemma l1_get_set w sys c c' :
  l1_get w sys = Some c -> l1_get w (l1_set w c' sys) = Some c'.
Proof.
  destruct w as [| | k | k]; simpl; try reflexivity; unfold core_slot;
    destruct (0 <=? k); try discriminate; intros H;
    (destruct (_ !! Z.to_nat k) as [o|] eqn:E; [|discriminate]);
    apply lookup_lt_Some in E;
    rewrite list_lookup_insert_eq by exact E; reflexivity.
Qed.

(** X27.  The writebacks of one L1 reference.  On a well-shaped L1 and L2, a
    reference of core 0 or 1 that misses the L1 completes, and among the
    calls it issues there is exactly one L2 access with the writeback flag
    when the reference is a load or a store and the line evicted from the
    L1 is valid and dirty, at the rebuilt address [evicted_address], and
    none otherwise. *)
Lemma l1_miss_writebacks sys g w a type is_write k delay c l2 d :
  l1_get w sys = Some c -> l2cache sys = Some l2 -> dram sys = Some d ->
  cache_ok c -> cache_ok l2 -> k = 0 \/ k = 1 ->
  fst (cache_access c g a is_write k) = MISS ->
  exists delay' sys' g' c2 evs,
    memsys_l1_access sys g w a type is_write k delay = Some (delay', sys', g') /\
    l1_get w sys' = Some c2 /\
    issued sys' = issued sys ++ evs /\
    writebacks evs =
      (if match type with ACCESS_TYPE_IFETCH => false | _ => true end
          && valid (lastEvictedLine c2) && dirty (lastEvictedLine c2)
       then [EvL2 (evicted_address c2 a) true k] else []).
Proof.
  intros Hc Hl2 Hd Hokc Hok2 Hk Hmiss.
  unfold memsys_l1_access. rewrite Hc.
  destruct (cache_access c g a is_write k) as [r c1] eqn:Eacc.
  cbn [fst] in Hmiss. subst r.
  assert (Hok1 : cache_ok c1).
  { pose proof (cache_access_ok c g a is_write k Hokc) as H. rewrite Eacc in H. exact H. }
  set (sysA := l1_set w c1 sys).
  assert (HA2 : l2cache sysA = Some l2) by exact Hl2.
  assert (HAd : dram sysA = Some d) by exact Hd.
  destruct (l2_writeback_cases_total sysA g a false k l2 d HA2 HAd Hok2 Hk)
    as (d1 & sys1 & g1 & l2' & dr' & evs1 & H1 & H1l2 & H1d & H1ok & H1ev & H1wb & H1get).
  rewrite H1.
  destruct (cache_install_total c1 g1 a is_write k Hok1 Hk) as [[c2 g2] Hi]. rewrite Hi.
  set (sysB := l1_set w c2 sys1).
  assert (HgetB : l1_get w sysB = Some c2).
  { apply (l1_get_set w sys1 c1). rewrite H1get. apply (l1_get_set w sys c). exact Hc. }
  assert (Hplain : exists delay' evs,
            Some (u64 (delay + d1), sysB, g2) = Some (delay', sysB, g2) /\
            l1_get w sysB = Some c2 /\ issued sysB = issued sys ++ evs /\
            writebacks evs = []).
  { exists (u64 (delay + d1)), evs1. repeat split; [exact HgetB | exact H1ev | exact H1wb]. }
  destruct (match type with ACCESS_TYPE_IFETCH => false | _ => true end) eqn:Etype.
  - destruct (valid (lastEvictedLine c2) && dirty (lastEvictedLine c2)) eqn:Evd.
    + assert (HB2 : l2cache sysB = Some l2') by exact H1l2.
      assert (HBd : dram sysB = Some dr') by exact H1d.
      destruct (l2_writeback_cases_total sysB g2 (evicted_address c2 a) true k l2' dr'
                  HB2 HBd H1ok Hk)
        as (d3 & sys3 & g3 & l2'' & dr'' & evs3 & H3 & _ & _ & _ & H3ev & H3wb & H3get).
      exists (u64 (delay + d1)), sys3, g3, c2, (evs1 ++ evs3).
      split; [destruct type; try discriminate; rewrite H3; reflexivity |].
      split; [rewrite H3get; exact HgetB |].
      split; [rewrite H3ev; change (issued sysB) with (issued sys1);
              rewrite H1ev, app_assoc; reflexivity |].
      unfold writebacks in *. rewrite List.filter_app, H1wb, H3wb.
      cbn [andb]. rewrite Evd. reflexivity.
    + destruct Hplain as (delay' & evs & He & Hg & Hev & Hwb).
      exists delay', sysB, g2, c2, evs.
      split; [destruct type; try discriminate; exact He |].
      split; [exact Hg | split; [exact Hev |]].
      cbn [andb]. rewrite Evd. exact Hwb.
  - destruct Hplain as (delay' & evs & He & Hg & Hev & Hwb).
    exists delay', sysB, g2, c2, evs.
    split; [destruct type; try discriminate; exact He |].
    split; [exact Hg | split; [exact Hev | exact Hwb]].
Qed.

(** C1 at a failing input.  In mode C, with caches of one 64-byte line, a
    store to byte address [2^38] (line [2^32]) followed by a load of
    address 0: the load misses, its install evicts the dirty line of the
    store, whose line address is [2^32], and the one writeback that is
    issued to the L2 is for line 0.  The address is rebuilt in a 32-bit
    [unsigned] and loses the bits above. *)
Theorem writeback_address_truncated :
  let g := example_globals SIM_MODE_C LRU 64 1 in
  let store :=
    {| ref_cycle := 1; ref_addr := 2 ^ 38; ref_type := ACCESS_TYPE_STORE; ref_core := 0 |} in
  let load :=
    {| ref_cycle := 2; ref_addr := 0; ref_type := ACCESS_TYPE_LOAD; ref_core := 0 |} in
  let after_store := memsys_run (memsys_new g) g [store] in
  let after_load := memsys_run (memsys_new g) g [store; load] in
  (* the store leaves line 2^32 dirty in the data cache *)
  dcache_after (fun c => row (cacheGrid c !!! 0%nat)) after_store =
    Some [ {| valid := true; dirty := true; tag := 2 ^ 32; coreID := 0;
              lastAccessTime := 1 |} ] /\
  issued_after after_store =
    Some [EvL2 (2 ^ 32) false 0; EvDram (2 ^ 32) false] /\
  (* the load evicts it: the evicted line is valid and dirty, at line 2^32 *)
  dcache_after lastEvictedLine after_load =
    Some {| valid := true; dirty := true; tag := 2 ^ 32; coreID := 0;
            lastAccessTime := 1 |} /\
  dcache_after (fun c => Z.lor (Z.shiftl (tag (lastEvictedLine c)) (index_bits c))
                            (Z.land (0 / 64) (index_mask c))) after_load =
    Some (2 ^ 32) /\
  (* the writeback goes to line 0 *)
  dcache_after (fun c => evicted_address c (0 / 64)) after_load = Some 0 /\
  issued_after after_load =
    Some [EvL2 (2 ^ 32) false 0; EvDram (2 ^ 32) false;
          EvL2 0 false 0; EvDram 0 false; EvL2 0 true 0].
Proof. vm_compute. repeat split. Qed.

(** * Part IV: further properties of the code *)

(** ** A new cache *)

Lemma lookup_total_out_of_range {A} `{!Inhabited A} (l : list A) i :
  (length l <= i)%nat -> l !!! i = inhabitant.
Proof.
  intros H. rewrite list_lookup_total_alt, (lookup_ge_None_2 l i H). reflexivity.
Qed.

Lemma cache_new_line size associativity line_size pol j i :
  row (cacheGrid (cache_new size associativity line_size pol) !!! j) !!! i = zero_line.
Proof.
  unfold cache_new. cbn [cacheGrid].
  set (n := Z.to_nat (u32 (size / line_size / associativity))).
  set (s := {| row := _ |}).
  destruct (decide (j < n)%nat) as [Hj | Hj].
  - rewrite lookup_total_replicate_2 by exact Hj. unfold s. cbn [row].
    destruct (decide (i < Z.to_nat (u32 associativity))%nat) as [Hi | Hi].
    + apply lookup_total_replicate_2. exact Hi.
    + rewrite lookup_total_out_of_range by (rewrite length_replicate; lia).
      reflexivity.
  - rewrite (lookup_total_out_of_range (replicate n s) j)
      by (rewrite length_replicate; lia).
    reflexivity.
Qed.

(** X1.  A cache that [cache_new] has just built holds no line: whatever
    the address, the core and the kind of access, the first access misses,
    and it is counted as one access and one miss of its kind. *)
Theorem fresh_cache_misses (size associativity line_size : Z)
    (pol : ReplacementPolicy) (g : Globals) (a : Z) (w : bool) (k : Z) :
  0 < line_size -> 0 < associativity <= MAX_WAYS_PER_CACHE_SET ->
  0 < u32 ((size / line_size) / associativity) <= 2 ^ 31 ->
  let c := cache_new size associativity line_size pol in
  (forall b q, ~ holds c b q) /\
  fst (cache_access c g a w k) = MISS /\
  cache_counters (snd (cache_access c g a w k))
  = (if w then (0, 1, 0, 1, 0) else (1, 0, 1, 0, 0)).
Proof.
  intros _ _ _ c.
  assert (Hnone : forall b q, ~ holds c b q).
  { intros b q (i & _ & Hm). unfold c in Hm. rewrite cache_new_line in Hm.
    discriminate. }
  assert (Hmiss : fst (cache_access c g a w k) = MISS).
  { apply cache_access_miss. apply Hnone. }
  split; [exact Hnone | split; [exact Hmiss |]].
  destruct (cache_access_counters c g a w k) as (Hra & Hwa & Hrm & Hwm).
  destruct (cache_access_static c g a w k) as (_ & _ & _ & _ & _ & _ & Hde & _).
  unfold cache_counters. rewrite Hra, Hwa, Hrm, Hwm, Hde, Hmiss.
  destruct w; reflexivity.
Qed.

Lemma fresh_cache_misses_witness :
  let g := example_globals SIM_MODE_A LRU 128 2 in
  fst (cache_access (cache_new 128 2 64 LRU) g 5 true 1) = MISS.
Proof.
  intros g.
  apply (fresh_cache_misses 128 2 64 LRU g 5 true 1);
    unfold MAX_WAYS_PER_CACHE_SET; try lia.
  change (u32 (128 / 64 / 2)) with 1. lia.
Defined.

(** ** The victim of each policy *)

Lemma lru_victim_spec (r : list CacheLine) (W : nat) :
  (0 < W)%nat ->
  let v := oldest_way (fun _ => true) r 0 W 0 (lastAccessTime (r !!! 0%nat)) in
  (v < W)%nat /\
  forall w, (w < W)%nat ->
    lastAccessTime (r !!! v) < lastAccessTime (r !!! w) \/
    (lastAccessTime (r !!! v) = lastAccessTime (r !!! w) /\ (v <= w)%nat).
Proof.
  intros HW v.
  destruct (oldest_way_spec (fun _ => true) r 0 W 0 0 (lastAccessTime (r !!! 0%nat)))
    as [(_ & _ & _ & Hbest) Hwhere].
  { repeat split; try lia; intros; lia. }
  fold v in Hbest, Hwhere. split.
  - destruct Hwhere as [-> | ?]; lia.
  - intros w Hw. apply Hbest; [lia | reflexivity].
Qed.

Lemma full_set_no_invalid_way (W : nat) (s : CacheSet) :
  full_set W s -> first_way (fun l => negb (valid l)) (row s) 0 W = None.
Proof.
  intros Hfull. destruct (first_way _ (row s) 0 W) as [i|] eqn:E; [|reflexivity].
  apply first_way_Some in E as (Hr & Hp & _).
  rewrite Hfull in Hp by lia. discriminate.
Qed.

(** X2.  Under LRU on a full set the victim is the line with the smallest
    [lastAccessTime] of the whole set, whoever owns it and whoever asks,
    the lowest way among equally old lines; the globals are left alone. *)
Theorem lru_victim_is_oldest (c : Cache) (g : Globals) (set_index core_id : Z) :
  let s := cacheGrid c !!! Z.to_nat set_index in
  let W := Z.to_nat (ways c) in
  let v := fst (cache_find_victim c g set_index core_id) in
  policy c = LRU -> (0 < W)%nat -> full_set W s ->
  (v < W)%nat /\
  (forall w, (w < W)%nat ->
     lastAccessTime (row s !!! v) < lastAccessTime (row s !!! w) \/
     (lastAccessTime (row s !!! v) = lastAccessTime (row s !!! w) /\ (v <= w)%nat)) /\
  snd (cache_find_victim c g set_index core_id) = g.
Proof.
  intros s W v Hpol HW Hfull. unfold v, cache_find_victim. fold s W.
  rewrite (full_set_no_invalid_way W s Hfull), Hpol. cbn [fst snd].
  destruct (lru_victim_spec (row s) W HW) as [Hv Hbest].
  split; [exact Hv | split; [exact Hbest | reflexivity]].
Qed.

Lemma lru_victim_is_oldest_witness :
  let c := two_way_shared LRU in
  let g := example_globals SIM_MODE_DEF LRU 128 2 in
  let s := cacheGrid c !!! 0%nat in
  let v := fst (cache_find_victim c g 0 1) in
  policy c = LRU /\ full_set 2 s /\
  lastAccessTime (row s !!! v) <= lastAccessTime (row s !!! 1%nat).
Proof.
  intros c g s v.
  assert (Hfull : full_set 2 s).
  { intros w Hw. destruct w as [|[|w]]; [reflexivity | reflexivity | lia]. }
  split; [reflexivity | split; [exact Hfull |]].
  destruct (lru_victim_is_oldest c g 0 1 eq_refl ltac:(change (0 < 2)%nat; lia) Hfull)
    as (_ & Hbest & _).
  destruct (Hbest 1%nat ltac:(change (1 < 2)%nat; lia)) as [Hlt | [Heq _]].
  - apply Z.lt_le_incl. exact Hlt.
  - apply Z.eq_le_incl. exact Heq.
Defined.

(** X3.  Under RANDOM on a full set the victim is the next value of
    [rand()] modulo the number of ways, a way of the set whatever the lines
    hold, and the generator has been called exactly once; nothing else in
    the globals changes. *)
Theorem random_victim_draws_once (c : Cache) (g : Globals) (set_index core_id : Z) :
  let s := cacheGrid c !!! Z.to_nat set_index in
  let W := Z.to_nat (ways c) in
  let v := fst (cache_find_victim c g set_index core_id) in
  let g' := snd (cache_find_victim c g set_index core_id) in
  policy c = RANDOM -> 0 < ways c < 2 ^ 32 -> full_set W s ->
  Z.of_nat v = (Z.of_nat (rand_tape g (rand_calls g)) mod 2 ^ 31) mod ways c /\
  (v < W)%nat /\
  rand_calls g' = S (rand_calls g) /\ rand_tape g' = rand_tape g /\
  DWP_CORE0_WAYS g' = DWP_CORE0_WAYS g /\ SWP_CORE0_WAYS g' = SWP_CORE0_WAYS g /\
  current_cycle g' = current_cycle g.
Proof.
  intros s W v g' Hpol HW Hfull. unfold v, g', cache_find_victim. fold s W.
  rewrite (full_set_no_invalid_way W s Hfull), Hpol. cbn [rand fst snd].
  pose proof (Z.mod_pos_bound (Z.of_nat (rand_tape g (rand_calls g)) mod 2 ^ 31)
                (ways c) ltac:(lia)) as Hr.
  rewrite u32_small by lia.
  split; [rewrite Z2Nat.id by lia; reflexivity |].
  split; [unfold W; lia |]. repeat split; reflexivity.
Qed.

Lemma random_victim_draws_once_witness :
  let c := two_way_shared RANDOM in
  let g := example_globals SIM_MODE_DEF RANDOM 128 2 in
  policy c = RANDOM /\ full_set 2 (cacheGrid c !!! 0%nat) /\
  rand_calls (snd (cache_find_victim c g 0 0)) = 1%nat.
Proof.
  intros c g.
  assert (Hfull : full_set 2 (cacheGrid c !!! 0%nat)).
  { intros w Hw. destruct w as [|[|w]]; [reflexivity | reflexivity | lia]. }
  split; [reflexivity | split; [exact Hfull |]].
  assert (HW : 0 < ways c < 2 ^ 32) by (change (ways c) with 2; lia).
  destruct (random_victim_draws_once c g 0 0 eq_refl HW Hfull)
    as (_ & _ & Hcalls & _).
  exact Hcalls.
Defined.

(** X4.  Whatever the policy, a set with an invalid way gives its first
    invalid way as the victim, so that no valid line is displaced while a
    way is free; in that case the globals are left as they are: RANDOM does
    not call [rand()] and DWP does not recompute its quota. *)
Theorem victim_is_first_invalid_way (c : Cache) (g : Globals)
    (set_index core_id : Z) (w : nat) :
  let s := cacheGrid c !!! Z.to_nat set_index in
  let W := Z.to_nat (ways c) in
  let v := fst (cache_find_victim c g set_index core_id) in
  (w < W)%nat -> valid (row s !!! w) = false ->
  valid (row s !!! v) = false /\ (v <= w)%nat /\
  (forall i, (i < v)%nat -> valid (row s !!! i) = true) /\
  snd (cache_find_victim c g set_index core_id) = g.
Proof.
  intros s W v Hw Hinv.
  destruct (first_way_exists (fun l => negb (valid l)) (row s) 0 W w) as [i Hi];
    [lia | rewrite Hinv; reflexivity |].
  unfold v. rewrite (cache_find_victim_invalid c g set_index core_id i Hi).
  cbn [fst snd].
  apply first_way_Some in Hi as (Hr & Hp & Hbefore).
  apply negb_true_iff in Hp.
  split; [exact Hp | split; [| split; [| reflexivity]]].
  - destruct (le_lt_dec i w) as [? | Hlt]; [assumption|].
    pose proof (Hbefore w ltac:(lia)) as Hf. cbn beta in Hf.
    rewrite Hinv in Hf. discriminate.
  - intros j Hj. pose proof (Hbefore j ltac:(lia)) as Hf. cbn beta in Hf.
    apply negb_false_iff in Hf. exact Hf.
Qed.

Lemma victim_is_first_invalid_way_witness :
  let c := after_first_install in
  let g := example_globals SIM_MODE_A LRU 128 2 in
  fst (cache_find_victim c g 0 0) = 1%nat.
Proof.
  intros c g.
  destruct (victim_is_first_invalid_way c g 0 0 1%nat
              ltac:(change (1 < 2)%nat; lia) eq_refl) as (Hv & Hle & Hbefore & _).
  destruct (fst (cache_find_victim c g 0 0)) as [|[|v]] eqn:E.
  - discriminate Hv.
  - reflexivity.
  - exfalso. lia.
Defined.

(** X6.  The fallback of the partitioned policies.  On a full set in which
    no line belongs to the core the quota designates, SWP and DWP evict way
    0, a line of the other core. *)
Theorem partition_victim_falls_back_to_way_0 (c : Cache) (g : Globals)
    (set_index core_id : Z) :
  let s := cacheGrid c !!! Z.to_nat set_index in
  let W := Z.to_nat (ways c) in
  let v := fst (cache_find_victim c g set_index core_id) in
  let ways0 := ways_per_core s !!! 0%nat in
  let quota := match policy c with
               | DWP => dwp_quota s (ways c)
               | _ => SWP_CORE0_WAYS g
               end in
  let target := if ways0 <? quota then 1 else core_id in
  policy c = SWP \/ policy c = DWP -> (0 < W)%nat -> full_set W s ->
  (forall w, (w < W)%nat -> coreID (row s !!! w) <> target) ->
  v = 0%nat /\ coreID (row s !!! v) <> target.
Proof.
  intros s W v ways0 quota target Hpol HW Hfull Hnone.
  assert (Hv : v = partition_victim (row s) W ways0 quota core_id).
  { unfold v, cache_find_victim. fold s W.
    rewrite (full_set_no_invalid_way W s Hfull).
    unfold quota. destruct Hpol as [-> | ->]; reflexivity. }
  rewrite Hv, (partition_victim_none (row s) W ways0 quota core_id Hnone).
  split; [reflexivity | apply Hnone; exact HW].
Qed.

Lemma partition_victim_falls_back_to_way_0_witness :
  let c := filled_by_core0 SWP in
  let g := example_globals SIM_MODE_DEF SWP 128 2 in
  let s := cacheGrid c !!! 0%nat in
  policy c = SWP /\ full_set 2 s /\
  lastAccessTime (row s !!! 1%nat) < lastAccessTime (row s !!! 0%nat) /\
  fst (cache_find_victim c g 0 1) = 0%nat.
Proof.
  intros c g s.
  assert (Hfull : full_set 2 s).
  { intros w Hw. destruct w as [|[|w]]; [reflexivity | reflexivity | lia]. }
  split; [reflexivity | split; [exact Hfull | split; [reflexivity |]]].
  apply (partition_victim_falls_back_to_way_0 c g 0 1 (or_introl eq_refl)
           ltac:(change (0 < 2)%nat; lia) Hfull).
  intros w Hw. change (w < 2)%nat in Hw.
  destruct w as [|[|w]]; [discriminate | discriminate | exfalso; lia].
Defined.

(** ** Example states *)

Lemma cache_ops_ok (ops : list CacheOp) : forall c g c' g',
  cache_ok c -> cache_ops c g ops = Some (c', g') -> cache_ok c'.
Proof.
  induction ops as [|[t a w k | t a w k] ops IH]; intros c g c' g' Hok H; simpl in H.
  - injection H as <- _. exact Hok.
  - apply (IH _ _ _ _ (cache_access_ok c _ a w k Hok) H).
  - destruct (cache_install c (set_current_cycle t g) a w k) as [[c1 g1]|] eqn:Hi;
      [|discriminate].
    apply (IH _ _ _ _ (cache_install_ok c _ a w k c1 g1 Hok Hi) H).
Qed.

Lemma example_cache_ok (pol : ReplacementPolicy) : cache_ok (cache_new 128 2 64 pol).
Proof.
  apply cache_new_ok; unfold MAX_WAYS_PER_CACHE_SET; try lia.
  change (u32 (128 / 64 / 2)) with 1. lia.
Qed.

Lemma two_way_shared_ok (pol : ReplacementPolicy) : cache_ok (two_way_shared pol).
Proof.
  unfold two_way_shared.
  destruct (cache_ops _ _ _) as [[c g]|] eqn:E; [|apply example_cache_ok].
  apply (cache_ops_ok _ _ _ _ _ (example_cache_ok pol) E).
Qed.

Lemma filled_by_core0_ok (pol : ReplacementPolicy) : cache_ok (filled_by_core0 pol).
Proof.
  unfold filled_by_core0.
  destruct (cache_ops _ _ _) as [[c g]|] eqn:E; [|apply example_cache_ok].
  apply (cache_ops_ok _ _ _ _ _ (example_cache_ok pol) E).
Qed.

(** ** The effect of an access *)

(** X7.  What one access changes on a well-shaped cache.  On a hit the
    first matching way [i] of the set is stamped with the current cycle,
    made dirty by a write and left as dirty as it was by a read, and
    [totalHits[i]] of the set grows by one; on a miss no line changes and
    [totalMisses] of the set grows by one.  Either way the other sets, the
    other ways of the set and [ways_per_core] are untouched. *)
Theorem access_touches_one_line (c : Cache) (g : Globals) (a : Z) (w : bool) (k : Z) :
  cache_ok c ->
  let si := set_index_of c a in
  let s := cacheGrid c !!! si in
  let c' := snd (cache_access c g a w k) in
  let s' := cacheGrid c' !!! si in
  match fst (cache_access c g a w k) with
  | HIT =>
      exists i, (i < Z.to_nat (ways c))%nat /\
        line_matches k (Z.shiftr a (index_bits c)) (row s !!! i) = true /\
        (forall i', (i' < i)%nat ->
           line_matches k (Z.shiftr a (index_bits c)) (row s !!! i') = false) /\
        row s' = <[i := touch_line w (current_cycle g) (row s !!! i)]> (row s) /\
        totalHits (umon s')
        = <[i := u32 (totalHits (umon s) !!! i + 1)]> (totalHits (umon s)) /\
        totalMisses (umon s') = totalMisses (umon s)
  | MISS =>
      row s' = row s /\ totalHits (umon s') = totalHits (umon s) /\
      totalMisses (umon s') = u32 (totalMisses (umon s) + 1)
  end /\
  ways_per_core s' = ways_per_core s /\
  (forall j, j <> si -> cacheGrid c' !!! j = cacheGrid c !!! j).
Proof.
  intros Hok si s c' s'.
  destruct (set_index_in_grid c a Hok) as (_ & _ & Hlt). fold si in Hlt.
  unfold s', c', cache_access. fold (set_index_of c a). fold si.
  cbn [cacheGrid count_access ways]. fold s.
  destruct (first_way _ (row s) 0 (Z.to_nat (ways c))) as [i|] eqn:E;
    cbn [fst snd cacheGrid with_grid count_miss count_access].
  - rewrite list_lookup_total_insert_eq by exact Hlt. cbn [row umon ways_per_core totalHits totalMisses].
    apply first_way_Some in E as (Hr & Hp & Hbefore).
    split; [|split; [reflexivity |]].
    + exists i. split; [lia | split; [exact Hp | split; [| repeat split]]].
      intros i' Hi'. apply Hbefore. lia.
    + intros j Hj. apply list_lookup_total_insert_ne. congruence.
  - rewrite list_lookup_total_insert_eq by exact Hlt. cbn [row umon ways_per_core totalHits totalMisses].
    split; [repeat split | split; [reflexivity |]].
    intros j Hj. apply list_lookup_total_insert_ne. congruence.
Qed.

Lemma access_touches_one_line_witness :
  let c := two_way_shared LRU in
  let g := set_current_cycle 9 (example_globals SIM_MODE_DEF LRU 128 2) in
  cache_ok c /\
  row (cacheGrid (snd (cache_access c g 1 true 1)) !!! 0%nat) !!! 1%nat
  = {| valid := true; dirty := true; tag := 1; coreID := 1; lastAccessTime := 9 |}.
Proof.
  intros c g.
  pose proof (two_way_shared_ok LRU) as Hok. fold c in Hok.
  split; [exact Hok |].
  pose proof (access_touches_one_line c g 1 true 1 Hok) as [H _].
  change (fst (cache_access c g 1 true 1)) with HIT in H.
  destruct H as (i & Hi & Hm & Hbefore & Hrow & _).
  change (set_index_of c 1) with 0%nat in *.
  rewrite Hrow.
  destruct i as [|[|i]].
  - discriminate Hm.
  - reflexivity.
  - exfalso. change (S (S i) < 2)%nat in Hi. lia.
Defined.

(** ** The effect of an install *)

(** X8.  What one install changes on a well-shaped cache: the victim way
    of the set of the address receives a valid line with the tag of the
    address, owned by the installing core, stamped with the current cycle
    and dirty exactly when the install comes from a write; the line that
    was there becomes [lastEvictedLine], and [stat_dirty_evicts] grows by
    one exactly when that line was valid and dirty.  No other way of any
    set changes, the access and miss counters keep their values, and the
    utility monitor of every set is kept as it is: the hit counter of the
    victim way passes to the new line. *)
Theorem install_changes_one_way (c : Cache) (g : Globals) (a : Z) (w : bool)
    (k : Z) (c' : Cache) (g' : Globals) :
  cache_ok c -> cache_install c g a w k = Some (c', g') ->
  let si := set_index_of c a in
  let v := fst (cache_find_victim c g (Z.land a (index_mask c)) k) in
  let ev := row (cacheGrid c !!! si) !!! v in
  (v < Z.to_nat (ways c))%nat /\
  row (cacheGrid c' !!! si) !!! v
  = {| valid := true; dirty := w; tag := Z.shiftr a (index_bits c); coreID := k;
       lastAccessTime := current_cycle g |} /\
  lastEvictedLine c' = ev /\
  stat_dirty_evicts c'
  = (if valid ev && dirty ev then u64 (stat_dirty_evicts c + 1)
     else stat_dirty_evicts c) /\
  (forall j i, j <> si \/ i <> v ->
     row (cacheGrid c' !!! j) !!! i = row (cacheGrid c !!! j) !!! i) /\
  (forall j, umon (cacheGrid c' !!! j) = umon (cacheGrid c !!! j)) /\
  (stat_read_access c', stat_write_access c', stat_read_miss c', stat_write_miss c')
  = (stat_read_access c, stat_write_access c, stat_read_miss c, stat_write_miss c).
Proof.
  intros Hok Hi si v ev.
  destruct (cache_install_effect c g a w k c' g' Hok Hi)
    as (Hv & _ & _ & Hev & Hrow & Humon & Hother & _).
  destruct (cache_install_static c g a w k c' g' Hi)
    as (_ & _ & _ & _ & _ & Hra & Hrm & Hwa & Hwm & Hde).
  fold si in Hev, Hrow, Humon, Hother. fold v in Hv, Hev, Hrow. fold ev in Hev.
  destruct (set_index_in_grid c a Hok) as (_ & _ & Hlt). fold si in Hlt.
  destruct (cache_ok_set c si Hok Hlt) as [Hr _ _ _ _].
  split; [exact Hv | split; [| split; [exact Hev | split; [| split; [| split]]]]].
  - rewrite Hrow. apply list_lookup_total_insert_eq. lia.
  - rewrite Hde, Hev. reflexivity.
  - intros j i Hji. destruct (decide (j = si)) as [-> | Hne].
    + rewrite Hrow. apply list_lookup_total_insert_ne.
      destruct Hji as [? | ?]; congruence.
    + rewrite (Hother j Hne). reflexivity.
  - intros j. destruct (decide (j = si)) as [-> | Hne];
      [exact Humon | rewrite (Hother j Hne); reflexivity].
  - rewrite Hra, Hwa, Hrm, Hwm. reflexivity.
Qed.

Lemma install_changes_one_way_witness :
  let c := two_way_shared LRU in
  let g := set_current_cycle 7 (example_globals SIM_MODE_DEF LRU 128 2) in
  cache_ok c /\
  exists c' g', cache_install c g 4 true 1 = Some (c', g') /\
    lastEvictedLine c' = row (cacheGrid c !!! 0%nat) !!! 0%nat /\
    row (cacheGrid c' !!! 0%nat) !!! 1%nat = row (cacheGrid c !!! 0%nat) !!! 1%nat.
Proof.
  intros c g.
  pose proof (two_way_shared_ok LRU) as Hok. fold c in Hok.
  split; [exact Hok |].
  destruct (cache_install c g 4 true 1) as [[c' g']|] eqn:Hi; [|discriminate Hi].
  exists c', g'. split; [reflexivity |].
  destruct (install_changes_one_way c g 4 true 1 c' g' Hok Hi)
    as (_ & _ & Hev & _ & Hframe & _).
  split; [exact Hev |].
  apply (Hframe 0%nat 1%nat). right. discriminate.
Defined.

(** X9.  While the set of the address has an invalid way, an install
    evicts nothing: [lastEvictedLine] is invalid afterwards, no dirty
    eviction is counted, and every line the cache held is still held. *)
Theorem install_in_free_way_evicts_nothing (c : Cache) (g : Globals) (a : Z)
    (w : bool) (k : Z) (c' : Cache) (g' : Globals) (free : nat) :
  cache_ok c -> cache_install c g a w k = Some (c', g') ->
  (free < Z.to_nat (ways c))%nat ->
  valid (row (cacheGrid c !!! set_index_of c a) !!! free) = false ->
  valid (lastEvictedLine c') = false /\
  stat_dirty_evicts c' = stat_dirty_evicts c /\
  g' = g /\
  forall b q, holds c b q -> holds c' b q.
Proof.
  intros Hok Hi Hfree Hinv.
  destruct (cache_install_effect c g a w k c' g' Hok Hi)
    as (_ & Hg & _ & Hev & _).
  destruct (cache_install_static c g a w k c' g' Hi)
    as (_ & _ & _ & _ & _ & _ & _ & _ & _ & Hde).
  destruct (set_index_in_grid c a Hok) as (Hsi & _ & _).
  assert (Hidx : Z.to_nat (Z.land a (index_mask c)) = set_index_of c a)
    by (symmetry; exact Hsi).
  destruct (first_way_exists (fun l => negb (valid l))
              (row (cacheGrid c !!! set_index_of c a)) 0 (Z.to_nat (ways c)) free)
    as [i Hfw]; [lia | rewrite Hinv; reflexivity |].
  rewrite <- Hidx in Hfw.
  pose proof (cache_find_victim_invalid c g (Z.land a (index_mask c)) k i Hfw) as Hfind.
  rewrite Hidx in Hfw. apply first_way_Some in Hfw as (_ & Hv & _).
  apply negb_true_iff in Hv.
  rewrite Hfind in Hev, Hg. cbn [fst snd] in Hev, Hg.
  assert (Hevv : valid (lastEvictedLine c') = false) by (rewrite Hev; exact Hv).
  split; [exact Hevv | split; [| split]].
  - rewrite Hde, Hevv. reflexivity.
  - exact Hg.
  - intros b q Hh. apply (holds_install_other c g a w k c' g' b q Hok Hh Hi).
    right. unfold line_matches. rewrite Hevv. reflexivity.
Qed.

Lemma install_in_free_way_evicts_nothing_witness :
  let c := after_first_install in
  let g := example_globals SIM_MODE_A LRU 128 2 in
  cache_ok c /\ valid (row (cacheGrid c !!! set_index_of c 1) !!! 1%nat) = false /\
  exists c' g', cache_install c g 1 true 1 = Some (c', g') /\
    valid (lastEvictedLine c') = false /\ holds c' 0 0.
Proof.
  intros c g.
  assert (Hok : cache_ok c).
  { unfold c, after_first_install.
    destruct (cache_install _ _ 0 false 0) as [[c1 g1]|] eqn:E; [|apply example_cache_ok].
    apply (cache_install_ok _ _ _ _ _ _ _
             (cache_access_ok _ _ 0 false 0 (example_cache_ok LRU)) E). }
  split; [exact Hok | split; [reflexivity |]].
  destruct (cache_install c g 1 true 1) as [[c' g']|] eqn:Hi; [|discriminate Hi].
  exists c', g'. split; [reflexivity |].
  destruct (install_in_free_way_evicts_nothing c g 1 true 1 c' g' 1%nat Hok Hi
              ltac:(change (1 < 2)%nat; lia) eq_refl) as (Hev & _ & _ & Hkeep).
  split; [exact Hev |]. apply Hkeep.
  exists 0%nat. split; [change (0 < 2)%nat; lia | reflexivity].
Defined.

(** X5.  [cache_install] indexes [ways_per_core] with the core id it is
    given, unchecked.  On a well-shaped cache the install is defined
    exactly for the core ids 0 and 1; when it is, every index it uses is in
    range and the cache it leaves is well-shaped again, with the counters
    [ways_per_core] of the set still adding up to the number of valid
    lines of the two cores. *)
Theorem install_defined_for_two_cores (c : Cache) (g : Globals) (a : Z)
    (w : bool) (k : Z) :
  cache_ok c ->
  (is_Some (cache_install c g a w k) <-> k = 0 \/ k = 1) /\
  (forall c' g', cache_install c g a w k = Some (c', g') ->
     cache_ok c' /\
     (set_index_of c a < length (cacheGrid c))%nat /\
     (fst (cache_find_victim c g (Z.land a (index_mask c)) k)
      < length (row (cacheGrid c !!! set_index_of c a)))%nat /\
     let s' := cacheGrid c' !!! set_index_of c a in
     ways_per_core s' = [owned_ways 0 (row s'); owned_ways 1 (row s')]).
Proof.
  intros Hok. split.
  - split.
    + intros [[c' g'] Hi].
      destruct (cache_install_effect c g a w k c' g' Hok Hi) as (_ & _ & Hk & _).
      exact Hk.
    + apply cache_install_total. exact Hok.
  - intros c' g' Hi.
    destruct (cache_install_effect c g a w k c' g' Hok Hi)
      as (Hv & _ & _ & _ & _ & _ & _ & _ & Hset).
    destruct (set_index_in_grid c a Hok) as (_ & _ & Hlt).
    destruct (cache_ok_set c _ Hok Hlt) as [Hr _ _ _ _].
    split; [exact (cache_install_ok c g a w k c' g' Hok Hi) |].
    split; [exact Hlt | split; [lia |]].
    destruct Hset as [_ Hlen H0 H1 _]. cbv zeta.
    destruct (ways_per_core (cacheGrid c' !!! set_index_of c a))
      as [|x0 [|x1 [|? ?]]]; try discriminate.
    change ([x0; x1] !!! 0%nat) with x0 in H0.
    change ([x0; x1] !!! 1%nat) with x1 in H1.
    rewrite H0, H1. reflexivity.
Qed.

Lemma install_defined_for_two_cores_witness :
  let c := two_way_shared LRU in
  let g := example_globals SIM_MODE_DEF LRU 128 2 in
  cache_ok c /\ is_Some (cache_install c g 4 false 1) /\
  cache_install c g 4 false 2 = None.
Proof.
  intros c g.
  pose proof (two_way_shared_ok LRU) as Hok. fold c in Hok.
  split; [exact Hok |].
  destruct (install_defined_for_two_cores c g 4 false 1 Hok) as [[_ Hyes] _].
  split; [apply Hyes; right; reflexivity | reflexivity].
Defined.

Lemma cache_access_hit_row c g a w k :
  cache_ok c -> fst (cache_access c g a w k) = HIT ->
  let s := cacheGrid c !!! set_index_of c a in
  exists i, (i < Z.to_nat (ways c))%nat /\
    row (cacheGrid (snd (cache_access c g a w k)) !!! set_index_of c a)
    = <[i := touch_line w (current_cycle g) (row s !!! i)]> (row s).
Proof.
  intros Hok. destruct (set_index_in_grid c a Hok) as (_ & _ & Hlt).
  unfold cache_access, set_index_of in *. simpl.
  set (si := Z.to_nat (to_int _)) in *. set (s := cacheGrid c !!! si) in *.
  destruct (first_way _ (row s) 0 (Z.to_nat (ways c))) as [i|] eqn:E; simpl;
    [intros _ | discriminate].
  apply first_way_Some in E as (Hi & _ & _).
  exists i. split; [lia |].
  rewrite list_lookup_total_insert_eq by exact Hlt. reflexivity.
Qed.

(** X10.  Under LRU the line that has just been hit is not the next
    victim.  In a full set of at least two ways whose lines were all last
    used before the current cycle, after a hit the victim of the set is a
    line the hit has not touched, last used before the current cycle. *)
Theorem lru_spares_line_just_hit (c : Cache) (g : Globals) (a : Z) (w : bool)
    (k : Z) (g1 : Globals) (core1 : Z) :
  cache_ok c -> policy c = LRU -> 1 < ways c ->
  let si := set_index_of c a in
  let s := cacheGrid c !!! si in
  let W := Z.to_nat (ways c) in
  let c1 := snd (cache_access c g a w k) in
  let v := fst (cache_find_victim c1 g1 (Z.of_nat si) core1) in
  full_set W s ->
  (forall i, (i < W)%nat -> lastAccessTime (row s !!! i) < current_cycle g) ->
  fst (cache_access c g a w k) = HIT ->
  (v < W)%nat /\
  row (cacheGrid c1 !!! si) !!! v = row s !!! v /\
  lastAccessTime (row (cacheGrid c1 !!! si) !!! v) < current_cycle g.
Proof.
  intros Hok Hpol HW si s W c1 v Hfull Hold Hhit.
  destruct (cache_access_static c g a w k) as (Hw1 & _ & Hp1 & _).
  fold c1 in Hw1, Hp1.
  destruct (cache_access_hit_row c g a w k Hok Hhit) as (i & Hi & Hrow).
  fold si s c1 W in Hi, Hrow.
  set (s1 := cacheGrid c1 !!! si) in *.
  destruct (set_index_in_grid c a Hok) as (_ & _ & Hlt).
  destruct (cache_ok_set c _ Hok Hlt) as [Hr _ _ _ _]. fold si s in Hr.
  assert (Hline : lastAccessTime (row s1 !!! i) = current_cycle g).
  { rewrite Hrow, list_lookup_total_insert_eq by lia. reflexivity. }
  assert (Hsame : forall j, j <> i -> row s1 !!! j = row s !!! j).
  { intros j Hj. rewrite Hrow. apply list_lookup_total_insert_ne. congruence. }
  assert (Hfull1 : full_set W s1).
  { intros j Hj. destruct (cache_access_lines c g a w k si j) as (Hv & _).
    fold c1 s1 s in Hv. rewrite Hv. apply Hfull. exact Hj. }
  assert (Hfind : v = oldest_way (fun _ => true) (row s1) 0 W 0
                        (lastAccessTime (row s1 !!! 0%nat))).
  { unfold v, cache_find_victim. rewrite Nat2Z.id, Hw1. fold s1 W.
    rewrite (full_set_no_invalid_way W s1 Hfull1), Hp1, Hpol. reflexivity. }
  destruct (lru_victim_spec (row s1) W ltac:(unfold W; lia)) as [Hv Hbest].
  rewrite <- Hfind in Hv, Hbest.
  assert (Hother : exists j, (j < W)%nat /\ j <> i).
  { destruct i as [|i]; [exists 1%nat | exists 0%nat]; unfold W; split; lia. }
  destruct Hother as (j & Hj & Hji).
  assert (Hvi : v <> i).
  { intros ->. pose proof (Hbest j Hj) as Hb.
    rewrite (Hsame j Hji), Hline in Hb.
    pose proof (Hold j Hj). lia. }
  split; [exact Hv | split; [exact (Hsame v Hvi) |]].
  rewrite (Hsame v Hvi). apply Hold. exact Hv.
Qed.

Lemma lru_spares_line_just_hit_witness :
  let c := two_way_shared LRU in
  let g := set_current_cycle 9 (example_globals SIM_MODE_DEF LRU 128 2) in
  let c1 := snd (cache_access c g 1 false 1) in
  cache_ok c /\ fst (cache_access c g 1 false 1) = HIT /\
  lastAccessTime (row (cacheGrid c1 !!! 0%nat) !!! fst (cache_find_victim c1 g 0 0)) < 9.
Proof.
  intros c g c1.
  pose proof (two_way_shared_ok LRU) as Hok. fold c in Hok.
  split; [exact Hok | split; [reflexivity |]].
  assert (Hfull : full_set 2 (cacheGrid c !!! 0%nat)).
  { intros i Hi. destruct i as [|[|i]]; [reflexivity | reflexivity | lia]. }
  assert (Hold : forall i, (i < 2)%nat ->
            lastAccessTime (row (cacheGrid c !!! 0%nat) !!! i) < 9).
  { intros i Hi. destruct i as [|[|i]]; [reflexivity | reflexivity | lia]. }
  apply (lru_spares_line_just_hit c g 1 false 1 g 0 Hok eq_refl
           ltac:(change (ways c) with 2; lia) Hfull Hold eq_refl).
Defined.

(** ** Sets that are never used *)





(** ** The quota of DWP *)

Lemma hit_sum_bound (r : list CacheLine) (hits : list Z) (core : Z) (n : nat) :
  Forall (fun h => 0 <= h < 2 ^ 24) hits ->
  forall way total,
    0 <= total -> total + Z.of_nat n * 2 ^ 24 <= 2 ^ 32 ->
    0 <= hit_sum r hits core way n total <= total + Z.of_nat n * (2 ^ 24 - 1).
Proof.
  intros Hall. change (2 ^ 24) with 16777216 in *. change (2 ^ 32) with 4294967296.
  induction n as [|n IH]; intros way total H0 Hup; cbn [hit_sum]; [lia|].
  assert (Hh : 0 <= hits !!! way < 16777216).
  { destruct (decide (way < length hits)%nat) as [Hlt | Hge].
    - apply (Forall_lookup_total_1 _ hits way Hall Hlt).
    - rewrite list_lookup_total_alt, (lookup_ge_None_2 hits way) by lia.
      cbn. lia. }
  destruct (coreID (r !!! way) =? core).
  - rewrite u32_small by (change (2 ^ 32) with 4294967296; lia).
    assert (H1 : 0 <= total + hits !!! way) by lia.
    assert (H2 : total + hits !!! way + Z.of_nat n * 16777216 <= 4294967296) by lia.
    pose proof (IH (S way) _ H1 H2). lia.
  - pose proof (IH (S way) total ltac:(lia) ltac:(lia)). lia.
Qed.

(** X12.  The quota that DWP stores never exceeds the associativity, as
    long as the counters of the utility monitor are far from wrapping:
    with every [totalHits] entry below [2^24] and [totalMisses] below
    [2^28], the value written to [DWP_CORE0_WAYS] on a full set lies
    between 0 and the number of ways. *)
Theorem dwp_quota_within_ways (c : Cache) (g : Globals) (set_index core_id : Z) :
  let s := cacheGrid c !!! Z.to_nat set_index in
  policy c = DWP -> 0 < ways c <= MAX_WAYS_PER_CACHE_SET ->
  full_set (Z.to_nat (ways c)) s ->
  Forall (fun h => 0 <= h < 2 ^ 24) (totalHits (umon s)) ->
  0 <= totalMisses (umon s) < 2 ^ 28 ->
  0 <= DWP_CORE0_WAYS (snd (cache_find_victim c g set_index core_id)) <= ways c.
Proof.
  intros s Hpol HW Hfull Hhits Hmiss. unfold MAX_WAYS_PER_CACHE_SET in HW.
  unfold cache_find_victim. fold s.
  rewrite (full_set_no_invalid_way _ s Hfull), Hpol. cbn [snd set_DWP_CORE0_WAYS DWP_CORE0_WAYS].
  unfold dwp_quota.
  set (h := fun k => hit_sum (row s) (totalHits (umon s)) k 0 (Z.to_nat (ways c)) 0).
  assert (Hh : forall k, 0 <= h k < 2 ^ 28).
  { intros k. unfold h.
    pose proof (hit_sum_bound (row s) (totalHits (umon s)) k (Z.to_nat (ways c))
                  Hhits 0%nat 0 ltac:(lia) ltac:(lia)). lia. }
  rewrite (u32_small (0 + _)) by lia. rewrite Z.add_0_l.
  set (m := totalMisses (umon s)) in *.
  assert (Hu : forall k, 0 <= utility_blend (h k) m < 2 ^ 28).
  { intros k. pose proof (Hh k).
    destruct (utility_blend_close (h k) m ltac:(lia) ltac:(lia)) as [[_ Hle] _].
    split; [apply u32_range |].
    unfold exact_utility in Hle.
    assert ((7 * h k + 3 * m) / 10 < 2 ^ 28) by (apply Z.div_lt_upper_bound; lia).
    lia. }
  fold (h 0) (h 1). pose proof (Hu 0) as H0. pose proof (Hu 1) as H1.
  set (u0 := utility_blend (h 0) m) in *. set (u1 := utility_blend (h 1) m) in *.
  rewrite (u32_small (u0 + u1)) by lia.
  rewrite (u32_small (u0 * ways c)) by nia.
  split.
  - apply Z.div_pos; [nia | lia].
  - apply Z.div_le_upper_bound; [lia | nia].
Qed.

Lemma dwp_quota_within_ways_witness :
  let c := dwp_example in
  let g := example_globals SIM_MODE_DEF DWP 128 2 in
  0 <= DWP_CORE0_WAYS (snd (cache_find_victim c g 0 0)) <= 2.
Proof.
  intros c g.
  assert (Hfull : full_set 2 (cacheGrid c !!! 0%nat)).
  { intros w Hw. destruct w as [|[|w]]; [reflexivity | reflexivity | lia]. }
  apply (dwp_quota_within_ways c g 0 0 eq_refl).
  - unfold MAX_WAYS_PER_CACHE_SET. change (ways c) with 2. lia.
  - exact Hfull.
  - change (totalHits (umon (cacheGrid c !!! Z.to_nat 0)))
      with ([3; 4] ++ replicate 14 0).
    repeat constructor; lia.
  - change (totalMisses (umon (cacheGrid c !!! Z.to_nat 0))) with 3. lia.
Defined.

(** ** More on the DRAM *)

Lemma dram_row_static d d' a :
  Dram.bank_bits d' = Dram.bank_bits d ->
  dram_row d' a = dram_row d a /\ dram_bank d' a = dram_bank d a.
Proof. intros H. unfold dram_bank, dram_row. rewrite H. split; reflexivity. Qed.

(** X13.  A DRAM access costs 55, 100 or 145 cycles and nothing else,
    whatever the mode, the page policy and the state; in mode B it costs
    100 and leaves every row buffer as it is.  No access changes the
    number of banks or of bank bits. *)
Theorem dram_delay_is_55_100_or_145 (d : DRAM) (g : Globals) (a : Z) (w : bool) :
  let delay := fst (dram_access d g a w) in
  let d' := snd (dram_access d g a w) in
  (delay = 55 \/ delay = 100 \/ delay = 145) /\
  (SIM_MODE g = SIM_MODE_B -> delay = 100 /\ Dram.rowbuf d' = Dram.rowbuf d) /\
  (DRAM_PAGE_POLICY g = CLOSE_PAGE -> delay = 100) /\
  length (Dram.rowbuf d') = length (Dram.rowbuf d) /\
  Dram.bank_bits d' = Dram.bank_bits d.
Proof.
  intros delay d'.
  split; [| split; [| split; [| split]]].
  - unfold delay, dram_access, dram_access_mode_CDEF.
    destruct (SIM_MODE g), (DRAM_PAGE_POLICY g); repeat case_if; cbn [fst];
      first [left; reflexivity | right; left; reflexivity | right; right; reflexivity].
  - intros Hm. unfold delay, d', dram_access. rewrite Hm.
    destruct w; split; reflexivity.
  - intros Hp. unfold delay, dram_access, dram_access_mode_CDEF. rewrite Hp.
    destruct (SIM_MODE g); reflexivity.
  - apply dram_access_length.
  - apply dram_access_bank_bits.
Qed.

Lemma dram_row_hit_after (d : DRAM) (g : Globals) (a b : Z) (w w' : bool) :
  SIM_MODE g <> SIM_MODE_B -> DRAM_PAGE_POLICY g = OPEN_PAGE ->
  length (Dram.rowbuf d) = Z.to_nat NUM_BANKS ->
  dram_row d b = dram_row d a ->
  let d1 := snd (dram_access d g a w) in
  fst (dram_access d1 g b w') = 55 /\
  Dram.rowbuf (snd (dram_access d1 g b w')) = Dram.rowbuf d1.
Proof.
  intros Hmode Hpol Hlen Hrow d1.
  pose proof (dram_access_cases d g a w Hmode) as H1. cbv zeta in H1.
  pose proof (dram_access_cases d1 g b w' Hmode) as H2. cbv zeta in H2.
  rewrite Hpol in H1, H2.
  destruct (dram_row_static d d1 b (dram_access_bank_bits d g a w)) as [Hr1 Hb1].
  assert (Hbank : dram_bank d b = dram_bank d a).
  { unfold dram_bank. rewrite Hrow. reflexivity. }
  rewrite Hr1, Hb1, Hrow, Hbank in H2. fold d1 in H1.
  set (bank := Z.to_nat (dram_bank d a)) in *.
  assert (Hlt : (bank < length (Dram.rowbuf d))%nat).
  { unfold bank. pose proof (dram_bank_range d a). lia. }
  assert (Hopen : Dram.rowbuf d1 !!! bank
                  = {| Dram.valid := true; Dram.rowID := dram_row d a |}).
  { destruct (Dram.valid (Dram.rowbuf d !!! bank)) eqn:Hv.
    - destruct (Dram.rowID (Dram.rowbuf d !!! bank) =? dram_row d a) eqn:Hid.
      + destruct H1 as [_ ->]. apply Z.eqb_eq in Hid.
        destruct (Dram.rowbuf d !!! bank) as [v r]. cbn in *. subst. reflexivity.
      + destruct H1 as [_ ->]. apply list_lookup_total_insert_eq. exact Hlt.
    - destruct H1 as [_ ->]. apply list_lookup_total_insert_eq. exact Hlt. }
  rewrite Hopen in H2. cbn [Dram.valid Dram.rowID] in H2.
  rewrite Z.eqb_refl in H2. destruct H2 as [-> ->]. split; reflexivity.
Qed.

(** X14.  Under the open-page policy, outside mode B, an access to a line
    of the row that the previous access touched is a row hit, whatever the
    state before and whether the accesses read or write: it costs 55
    cycles and leaves the row buffers as they are. *)
Theorem dram_same_row_again_costs_55 (d : DRAM) (g : Globals) (a b : Z)
    (w w' : bool) :
  SIM_MODE g <> SIM_MODE_B -> DRAM_PAGE_POLICY g = OPEN_PAGE ->
  length (Dram.rowbuf d) = Z.to_nat NUM_BANKS ->
  Z.shiftr b (Dram.bank_bits d) = Z.shiftr a (Dram.bank_bits d) ->
  let d1 := snd (dram_access d g a w) in
  fst (dram_access d1 g b w') = 55 /\
  Dram.rowbuf (snd (dram_access d1 g b w')) = Dram.rowbuf d1 /\
  Dram.rowbuf d1 !!! Z.to_nat (dram_bank d a)
  = {| Dram.valid := true; Dram.rowID := dram_row d a |}.
Proof.
  intros Hmode Hpol Hlen Hrow d1.
  assert (Hr : dram_row d b = dram_row d a) by (unfold dram_row; rewrite Hrow; reflexivity).
  destruct (dram_row_hit_after d g a b w w' Hmode Hpol Hlen Hr) as [H55 Hbuf].
  fold d1 in H55, Hbuf. split; [exact H55 | split; [exact Hbuf |]].
  destruct (dram_row_hit_after d g a a w false Hmode Hpol Hlen eq_refl) as [H55' _].
  fold d1 in H55'.
  pose proof (dram_access_cases d1 g a false Hmode) as H2. cbv zeta in H2.
  rewrite Hpol in H2.
  destruct (dram_row_static d d1 a (dram_access_bank_bits d g a w)) as [Hr1 Hb1].
  rewrite Hr1, Hb1 in H2.
  destruct (Dram.rowbuf d1 !!! Z.to_nat (dram_bank d a)) as [v r]. cbn in H2.
  destruct v.
  - destruct (r =? dram_row d a) eqn:E.
    + apply Z.eqb_eq in E. subst r. reflexivity.
    + destruct H2 as [H2 _]. rewrite H55' in H2. discriminate.
  - destruct H2 as [H2 _]. rewrite H55' in H2. discriminate.
Qed.

Lemma dram_same_row_again_costs_55_witness :
  let g := example_globals SIM_MODE_C LRU 64 1 in
  SIM_MODE g <> SIM_MODE_B /\ DRAM_PAGE_POLICY g = OPEN_PAGE /\
  fst (dram_access (snd (dram_access dram_new g 80 false)) g 95 true) = 55.
Proof.
  intros g.
  assert (Hm : SIM_MODE g <> SIM_MODE_B) by discriminate.
  split; [exact Hm | split; [reflexivity |]].
  apply (dram_same_row_again_costs_55 dram_new g 80 95 false true Hm eq_refl eq_refl eq_refl).
Defined.

(** X15.  The row number is kept in a 32-bit [unsigned]: with the 4 bank
    bits of [dram_new], two lines [2^36] apart have the same row number and
    the same bank, so that under open-page the second of two such accesses
    is served as a row hit. *)
Theorem dram_row_number_wraps (d : DRAM) (g : Globals) (a : Z) (w w' : bool) :
  0 <= a -> Dram.bank_bits d = 4 ->
  dram_row d (a + 2 ^ 36) = dram_row d a /\
  dram_bank d (a + 2 ^ 36) = dram_bank d a /\
  (SIM_MODE g <> SIM_MODE_B -> DRAM_PAGE_POLICY g = OPEN_PAGE ->
   length (Dram.rowbuf d) = Z.to_nat NUM_BANKS ->
   fst (dram_access (snd (dram_access d g a w)) g (a + 2 ^ 36) w') = 55).
Proof.
  intros Ha Hbits.
  assert (Hrow : dram_row d (a + 2 ^ 36) = dram_row d a).
  { unfold dram_row, u32. rewrite Hbits, !Z.shiftr_div_pow2 by lia.
    replace (a + 2 ^ 36) with (a + 2 ^ 32 * 2 ^ 4) by lia.
    rewrite Z.div_add by lia.
    rewrite <- Z.add_mod_idemp_r, Z.mod_same, Z.add_0_r by lia. reflexivity. }
  split; [exact Hrow | split].
  - unfold dram_bank. rewrite Hrow. reflexivity.
  - intros Hmode Hpol Hlen.
    apply (dram_row_hit_after d g a (a + 2 ^ 36) w w' Hmode Hpol Hlen Hrow).
Qed.

Lemma dram_row_number_wraps_witness :
  let g := example_globals SIM_MODE_C LRU 64 1 in
  fst (dram_access (snd (dram_access dram_new g 80 false)) g (80 + 2 ^ 36) false) = 55.
Proof.
  intros g.
  destruct (dram_row_number_wraps dram_new g 80 false false ltac:(lia) eq_refl)
    as (_ & _ & H).
  apply H; [discriminate | reflexivity | reflexivity].
Defined.

Lemma dram_access_rowbuf (d : DRAM) (g : Globals) (a : Z) (w : bool) :
  Dram.rowbuf (snd (dram_access d g a w)) = Dram.rowbuf d \/
  exists v, Dram.rowbuf (snd (dram_access d g a w))
            = <[Z.to_nat (dram_bank d a) :=
                  {| Dram.valid := v; Dram.rowID := dram_row d a |}]> (Dram.rowbuf d).
Proof.
  unfold dram_access, dram_access_mode_CDEF.
  destruct (SIM_MODE g), (DRAM_PAGE_POLICY g), w; repeat case_if; cbn;
    first [left; reflexivity | right; eexists; reflexivity].
Qed.

Lemma dram_access_rowbuf_eq (d : DRAM) (g : Globals) (a : Z) (w : bool) :
  let bank := Z.to_nat (dram_bank d a) in
  let rb := Dram.rowbuf d !!! bank in
  let put v := <[bank := {| Dram.valid := v; Dram.rowID := dram_row d a |}]> (Dram.rowbuf d) in
  Dram.rowbuf (snd (dram_access d g a w)) =
  match SIM_MODE g with
  | SIM_MODE_B => Dram.rowbuf d
  | _ =>
      match DRAM_PAGE_POLICY g with
      | OPEN_PAGE =>
          if Dram.valid rb
          then if Dram.rowID rb =? dram_row d a then Dram.rowbuf d else put true
          else put true
      | CLOSE_PAGE => put false
      end
  end.
Proof.
  intros bank rb put. unfold dram_access, dram_access_mode_CDEF. fold bank rb.
  destruct (SIM_MODE g), (DRAM_PAGE_POLICY g), w;
    try (destruct (Dram.valid rb) eqn:Hv; [destruct (Dram.rowID rb =? dram_row d a)|]);
    cbn; rewrite ?Hv; reflexivity.
Qed.

Lemma dram_access_delay_local (d d' : DRAM) (g : Globals) (b : Z) (w : bool) :
  Dram.bank_bits d' = Dram.bank_bits d ->
  Dram.rowbuf d' !!! Z.to_nat (dram_bank d b) = Dram.rowbuf d !!! Z.to_nat (dram_bank d b) ->
  fst (dram_access d' g b w) = fst (dram_access d g b w).
Proof.
  intros Hbits Hrb.
  destruct (dram_row_static d d' b Hbits) as [Hr Hb].
  unfold dram_access, dram_access_mode_CDEF. rewrite Hr, Hb, Hrb.
  destruct (SIM_MODE g), (DRAM_PAGE_POLICY g), w; repeat case_if; reflexivity.
Qed.

(** X16.  Banks do not interfere.  An access changes at most the row
    buffer of its own bank, so the delay of an access to another bank is
    the same before and after it, and two accesses to different banks
    leave the same row buffers in either order. *)
Theorem dram_banks_are_independent (d : DRAM) (g : Globals) (a b : Z)
    (w w' : bool) :
  dram_bank d a <> dram_bank d b ->
  let da := snd (dram_access d g a w) in
  let db := snd (dram_access d g b w') in
  fst (dram_access da g b w') = fst (dram_access d g b w') /\
  fst (dram_access db g a w) = fst (dram_access d g a w) /\
  Dram.rowbuf (snd (dram_access da g b w')) = Dram.rowbuf (snd (dram_access db g a w)).
Proof.
  intros Hne da db.
  pose proof (dram_bank_range d a) as Ra. pose proof (dram_bank_range d b) as Rb.
  assert (Hn : Z.to_nat (dram_bank d a) <> Z.to_nat (dram_bank d b)) by lia.
  pose proof (dram_access_bank_bits d g a w) as Hba. fold da in Hba.
  pose proof (dram_access_bank_bits d g b w') as Hbb. fold db in Hbb.
  assert (Hkeep_a : Dram.rowbuf da !!! Z.to_nat (dram_bank d b)
                    = Dram.rowbuf d !!! Z.to_nat (dram_bank d b)).
  { unfold da. destruct (dram_access_rowbuf d g a w) as [-> | [v ->]]; [reflexivity |].
    apply list_lookup_total_insert_ne. exact Hn. }
  assert (Hkeep_b : Dram.rowbuf db !!! Z.to_nat (dram_bank d a)
                    = Dram.rowbuf d !!! Z.to_nat (dram_bank d a)).
  { unfold db. destruct (dram_access_rowbuf d g b w') as [-> | [v ->]]; [reflexivity |].
    apply list_lookup_total_insert_ne. congruence. }
  split; [exact (dram_access_delay_local d da g b w' Hba Hkeep_a) |].
  split; [exact (dram_access_delay_local d db g a w Hbb Hkeep_b) |].
  destruct (dram_row_static d da b Hba) as [Hrb Hbkb].
  destruct (dram_row_static d db a Hbb) as [Hra Hbka].
  rewrite (dram_access_rowbuf_eq da g b w'), (dram_access_rowbuf_eq db g a w).
  cbv zeta. rewrite Hrb, Hbkb, Hra, Hbka, Hkeep_a, Hkeep_b.
  unfold da, db.
  rewrite (dram_access_rowbuf_eq d g a w), (dram_access_rowbuf_eq d g b w').
  cbv zeta.
  destruct (SIM_MODE g), (DRAM_PAGE_POLICY g); repeat case_if;
    try reflexivity; apply list_insert_insert_ne; congruence.
Qed.

Lemma dram_banks_are_independent_witness :
  let g := example_globals SIM_MODE_C LRU 64 1 in
  fst (dram_access (snd (dram_access dram_new g 80 false)) g 112 false)
  = fst (dram_access dram_new g 112 false).
Proof.
  intros g.
  apply (dram_banks_are_independent dram_new g 80 112 false false). discriminate.
Defined.

Lemma u64_add_l x y : u64 (u64 x + y) = u64 (x + y).
Proof. unfold u64. apply Zplus_mod_idemp_l. Qed.

Lemma dram_access_stats (d : DRAM) (g : Globals) (a : Z) (w : bool) (want : bool) :
  let delay := fst (dram_access d g a w) in
  let d' := snd (dram_access d g a w) in
  (if want then Dram.stat_write_access d' else Dram.stat_read_access d')
  = (if Bool.eqb w want
     then u64 ((if want then Dram.stat_write_access d else Dram.stat_read_access d) + 1)
     else (if want then Dram.stat_write_access d else Dram.stat_read_access d)) /\
  (if want then Dram.stat_write_delay d' else Dram.stat_read_delay d')
  = (if Bool.eqb w want
     then u64 ((if want then Dram.stat_write_delay d else Dram.stat_read_delay d) + delay)
     else (if want then Dram.stat_write_delay d else Dram.stat_read_delay d)).
Proof.
  intros delay d'. unfold delay, d', dram_access, dram_access_mode_CDEF.
  destruct (SIM_MODE g), (DRAM_PAGE_POLICY g), w, want; cbn [Bool.eqb];
    repeat case_if; split; reflexivity.
Qed.

Lemma dram_run_cons (d : DRAM) (g : Globals) (a : Z) (w : bool) (ops : list (Z * bool)) :
  dram_run d g ((a, w) :: ops)
  = (fst (dram_access d g a w) :: fst (dram_run (snd (dram_access d g a w)) g ops),
     snd (dram_run (snd (dram_access d g a w)) g ops)).
Proof.
  cbn [dram_run]. destruct (dram_access d g a w) as [delay d1]. cbn [fst snd].
  destruct (dram_run d1 g ops) as [delays d2]. reflexivity.
Qed.

Lemma access_count_cons (want : bool) (a : Z) (w : bool) (ops : list (Z * bool)) :
  access_count want ((a, w) :: ops)
  = (if Bool.eqb w want then 1 else 0) + access_count want ops.
Proof.
  unfold access_count. cbn [List.filter snd].
  destruct (Bool.eqb w want); cbn [length]; lia.
Qed.

Lemma dram_run_stats (g : Globals) (want : bool) (ops : list (Z * bool)) : forall d,
  0 <= (if want then Dram.stat_write_access d else Dram.stat_read_access d) < 2 ^ 64 ->
  0 <= (if want then Dram.stat_write_delay d else Dram.stat_read_delay d) < 2 ^ 64 ->
  let delays := fst (dram_run d g ops) in
  let d' := snd (dram_run d g ops) in
  length delays = length ops /\
  (if want then Dram.stat_write_access d' else Dram.stat_read_access d')
  = u64 ((if want then Dram.stat_write_access d else Dram.stat_read_access d)
         + access_count want ops) /\
  (if want then Dram.stat_write_delay d' else Dram.stat_read_delay d')
  = u64 ((if want then Dram.stat_write_delay d else Dram.stat_read_delay d)
         + delay_sum want ops delays).
Proof.
  induction ops as [|[a w] ops IH]; intros d Ha Hd.
  - cbn. unfold access_count. cbn. rewrite !Z.add_0_r, !u64_small by lia.
    repeat split; reflexivity.
  - rewrite dram_run_cons. cbn [fst snd].
    destruct (dram_access_stats d g a w want) as [Hacc Hdel].
    set (delay := fst (dram_access d g a w)) in *.
    set (d1 := snd (dram_access d g a w)) in *.
    assert (Ha1 : 0 <= (if want then Dram.stat_write_access d1
                        else Dram.stat_read_access d1) < 2 ^ 64).
    { rewrite Hacc. destruct (Bool.eqb w want); [apply u64_range | exact Ha]. }
    assert (Hd1 : 0 <= (if want then Dram.stat_write_delay d1
                        else Dram.stat_read_delay d1) < 2 ^ 64).
    { rewrite Hdel. destruct (Bool.eqb w want); [apply u64_range | exact Hd]. }
    destruct (IH d1 Ha1 Hd1) as (Hlen & Hacc2 & Hdel2).
    split; [cbn [length]; rewrite Hlen; reflexivity |].
    rewrite Hacc2, Hdel2, Hacc, Hdel, access_count_cons. cbn [delay_sum].
    destruct (Bool.eqb w want).
    + rewrite !u64_add_l. split; f_equal; lia.
    + split; f_equal; lia.
Qed.

(** X17.  The DRAM statistics add up what the accesses returned.  After
    any sequence of accesses, the read counter has grown by the number of
    reads and the read delay total by the sum of the delays returned for
    the reads, and likewise for the writes, all modulo [2^64]; one delay is
    returned per access. *)
Theorem dram_stats_accumulate (ops : list (Z * bool)) (d : DRAM) (g : Globals) :
  let delays := fst (dram_run d g ops) in
  let d' := snd (dram_run d g ops) in
  0 <= Dram.stat_read_access d < 2 ^ 64 -> 0 <= Dram.stat_read_delay d < 2 ^ 64 ->
  0 <= Dram.stat_write_access d < 2 ^ 64 -> 0 <= Dram.stat_write_delay d < 2 ^ 64 ->
  length delays = length ops /\
  Dram.stat_read_access d' = u64 (Dram.stat_read_access d + access_count false ops) /\
  Dram.stat_read_delay d' = u64 (Dram.stat_read_delay d + delay_sum false ops delays) /\
  Dram.stat_write_access d' = u64 (Dram.stat_write_access d + access_count true ops) /\
  Dram.stat_write_delay d' = u64 (Dram.stat_write_delay d + delay_sum true ops delays).
Proof.
  intros delays d' Hra Hrd Hwa Hwd.
  destruct (dram_run_stats g false ops d Hra Hrd) as (Hlen & H1 & H2).
  destruct (dram_run_stats g true ops d Hwa Hwd) as (_ & H3 & H4).
  repeat split; assumption.
Qed.

Lemma dram_stats_accumulate_witness :
  let g := example_globals SIM_MODE_C LRU 64 1 in
  let ops := [(80, false); (80, true); (336, false)] in
  fst (dram_run dram_new g ops) = [100; 55; 145] /\
  Dram.stat_read_delay (snd (dram_run dram_new g ops)) = u64 (0 + (100 + (0 + (145 + 0)))).
Proof.
  intros g ops. split; [reflexivity |].
  destruct (dram_stats_accumulate ops dram_new g) as (_ & _ & H & _);
    [cbn; lia | cbn; lia | cbn; lia | cbn; lia |].
  exact H.
Defined.

Lemma dram_access_flat (d : DRAM) (g : Globals) (a : Z) (w : bool) :
  SIM_MODE g = SIM_MODE_B \/ DRAM_PAGE_POLICY g = CLOSE_PAGE ->
  fst (dram_access d g a w) = 100 /\
  (Forall (fun rb => Dram.valid rb = false) (Dram.rowbuf d) ->
   Forall (fun rb => Dram.valid rb = false) (Dram.rowbuf (snd (dram_access d g a w)))).
Proof.
  intros Hflat. split.
  - unfold dram_access, dram_access_mode_CDEF.
    destruct Hflat as [-> | ->]; [reflexivity | destruct (SIM_MODE g); reflexivity].
  - intros Hall. rewrite dram_access_rowbuf_eq. cbv zeta.
    destruct Hflat as [-> | ->]; [exact Hall |].
    destruct (SIM_MODE g); try exact Hall; apply Forall_insert; auto.
Qed.

(** X18.  In mode B and under the close-page policy the DRAM has a flat
    latency: every access of any sequence costs 100 cycles, whatever the
    addresses.  Mode B never touches the row buffers, and neither of the
    two ever leaves a row open: row buffers that are all invalid, as in a
    new DRAM, stay all invalid. *)
Theorem dram_flat_latency (ops : list (Z * bool)) (d : DRAM) (g : Globals) :
  SIM_MODE g = SIM_MODE_B \/ DRAM_PAGE_POLICY g = CLOSE_PAGE ->
  fst (dram_run d g ops) = replicate (length ops) 100 /\
  (SIM_MODE g = SIM_MODE_B -> Dram.rowbuf (snd (dram_run d g ops)) = Dram.rowbuf d) /\
  (Forall (fun rb => Dram.valid rb = false) (Dram.rowbuf d) ->
   Forall (fun rb => Dram.valid rb = false) (Dram.rowbuf (snd (dram_run d g ops)))).
Proof.
  intros Hflat. revert d. induction ops as [|[a w] ops IH]; intros d.
  - cbn. auto.
  - rewrite dram_run_cons. cbn [fst snd length replicate].
    destruct (dram_access_flat d g a w Hflat) as [H100 Hinv].
    destruct (IH (snd (dram_access d g a w))) as (Hd & HB & Hall).
    rewrite H100, Hd. split; [reflexivity | split].
    + intros Hm. rewrite (HB Hm), dram_access_rowbuf_eq. cbv zeta. rewrite Hm.
      reflexivity.
    + intros H. apply Hall, Hinv, H.
Qed.

Lemma dram_flat_latency_witness :
  let g := example_globals SIM_MODE_B LRU 64 1 in
  fst (dram_run dram_new g [(80, false); (80, false); (336, true)]) = [100; 100; 100].
Proof.
  intros g.
  apply (dram_flat_latency [(80, false); (80, false); (336, true)] dram_new g).
  left. reflexivity.
Defined.

(** ** More on the address translation *)

Lemma vpn_to_pfn_exact (g : Globals) (vpn core_id : Z) :
  NUM_CORES g = 2 -> 0 <= vpn < 2 ^ 63 - 2 ^ 20 -> core_id = 0 \/ core_id = 1 ->
  memsys_convert_vpn_to_pfn g vpn core_id
  = Some (vpn mod 2 ^ 20 + (core_id + vpn / 2 ^ 20) * 2 ^ 21).
Proof.
  intros Hn Hv Hk. unfold memsys_convert_vpn_to_pfn. rewrite Hn. cbn [Z.eqb Pos.eqb].
  f_equal. change 0xfffff with (Z.ones 20).
  rewrite Z.land_ones, Z.shiftr_div_pow2, !Z.shiftl_mul_pow2 by lia.
  pose proof (Z.mod_pos_bound vpn (2 ^ 20) ltac:(lia)) as Ht.
  assert (Hh : 0 <= vpn / 2 ^ 20 < 2 ^ 43 - 1).
  { split; [apply Z.div_pos; lia | apply Z.div_lt_upper_bound; lia]. }
  rewrite (u32_small (core_id * 2 ^ 21)) by (destruct Hk as [-> | ->]; lia).
  rewrite (u64_small (vpn mod 2 ^ 20 + _)) by (destruct Hk as [-> | ->]; lia).
  rewrite (u64_small (vpn / 2 ^ 20 * 2 ^ 21)) by lia.
  rewrite u64_small by (destruct Hk as [-> | ->]; lia).
  lia.
Qed.

(** X19.  For one core the translation is one-to-one on the pages below
    [2^63 - 2^20], and the page is recovered from the frame: its low 20 bits
    are the frame's low 21 bits and its high part is the frame's high part
    less the core id.  Bit 20 of every frame number is 0, so half of the
    frames are never produced. *)
Theorem vpn_to_pfn_one_to_one (g : Globals) (v1 v2 core_id pfn : Z) :
  NUM_CORES g = 2 -> core_id = 0 \/ core_id = 1 ->
  0 <= v1 < 2 ^ 63 - 2 ^ 20 -> 0 <= v2 < 2 ^ 63 - 2 ^ 20 ->
  memsys_convert_vpn_to_pfn g v1 core_id = Some pfn ->
  v1 = (pfn / 2 ^ 21 - core_id) * 2 ^ 20 + pfn mod 2 ^ 21 /\
  Z.testbit pfn 20 = false /\
  (memsys_convert_vpn_to_pfn g v2 core_id = Some pfn -> v2 = v1).
Proof.
  intros Hn Hk H1 H2 Hp.
  assert (Hdec : forall v, 0 <= v < 2 ^ 63 - 2 ^ 20 ->
            memsys_convert_vpn_to_pfn g v core_id = Some pfn ->
            pfn mod 2 ^ 21 = v mod 2 ^ 20 /\ pfn / 2 ^ 21 = core_id + v / 2 ^ 20).
  { intros v Hv Hpv. rewrite (vpn_to_pfn_exact g v core_id Hn Hv Hk) in Hpv.
    injection Hpv as <-.
    pose proof (Z.mod_pos_bound v (2 ^ 20) ltac:(lia)) as Ht.
    split.
    - rewrite Z.mod_add by lia. apply Z.mod_small. lia.
    - rewrite Z.div_add by lia. rewrite Z.div_small by lia. lia. }
  destruct (Hdec v1 H1 Hp) as [Hm1 Hd1].
  assert (Hrec : forall v, 0 <= v ->
            pfn mod 2 ^ 21 = v mod 2 ^ 20 -> pfn / 2 ^ 21 = core_id + v / 2 ^ 20 ->
            v = (pfn / 2 ^ 21 - core_id) * 2 ^ 20 + pfn mod 2 ^ 21).
  { intros v Hv Hm Hd. rewrite Hm, Hd.
    pose proof (Z.div_mod v (2 ^ 20) ltac:(lia)). lia. }
  split; [apply Hrec; [lia | exact Hm1 | exact Hd1] | split].
  - rewrite Z.testbit_eqb by lia.
    pose proof (Z.mod_pos_bound v1 (2 ^ 20) ltac:(lia)) as Ht.
    assert (Hpos : 0 <= pfn).
    { pose proof (Z.div_pos v1 (2 ^ 20) ltac:(lia) ltac:(lia)).
      pose proof (Z.div_mod pfn (2 ^ 21) ltac:(lia)).
      destruct Hk as [-> | ->]; lia. }
    assert (Hq : pfn / 2 ^ 20 = 2 * (pfn / 2 ^ 21)).
    { pose proof (Z.div_mod pfn (2 ^ 21) ltac:(lia)) as Hdm.
      rewrite Hdm at 1. rewrite Hm1.
      replace (2 ^ 21 * (pfn / 2 ^ 21) + v1 mod 2 ^ 20)
        with (v1 mod 2 ^ 20 + 2 * (pfn / 2 ^ 21) * 2 ^ 20) by lia.
      rewrite Z.div_add by lia. rewrite Z.div_small by lia. lia. }
    rewrite Hq. rewrite Z.mul_comm, Z.mod_mul by lia. reflexivity.
  - intros Hp2. destruct (Hdec v2 H2 Hp2) as [Hm2 Hd2].
    rewrite (Hrec v2 ltac:(lia) Hm2 Hd2). symmetry.
    apply Hrec; [lia | exact Hm1 | exact Hd1].
Qed.

Lemma vpn_to_pfn_one_to_one_witness :
  let g := example_globals SIM_MODE_DEF LRU 64 1 in
  NUM_CORES g = 2 /\
  memsys_convert_vpn_to_pfn g 0x123456 1 = Some 0x423456 /\
  0x123456 = (0x423456 / 2 ^ 21 - 1) * 2 ^ 20 + 0x423456 mod 2 ^ 21.
Proof.
  intros g. split; [reflexivity | split; [reflexivity |]].
  apply (vpn_to_pfn_one_to_one g 0x123456 0 1 0x423456 eq_refl (or_intror eq_refl));
    [lia | lia | reflexivity].
Defined.

(** X20.  The two cores do not get disjoint frames: page [v + 2^20] of
    core 0 and page [v] of core 1 are mapped to the same frame, for every
    page [v] below [2^63 - 2^21]. *)
Theorem vpn_to_pfn_cores_overlap (g : Globals) (v : Z) :
  NUM_CORES g = 2 -> 0 <= v < 2 ^ 63 - 2 ^ 21 ->
  memsys_convert_vpn_to_pfn g (v + 2 ^ 20) 0 = memsys_convert_vpn_to_pfn g v 1.
Proof.
  intros Hn Hv.
  rewrite (vpn_to_pfn_exact g (v + 2 ^ 20) 0 Hn ltac:(lia) (or_introl eq_refl)).
  rewrite (vpn_to_pfn_exact g v 1 Hn ltac:(lia) (or_intror eq_refl)).
  f_equal.
  replace (v + 2 ^ 20) with (v + 1 * 2 ^ 20) by lia.
  rewrite Z.mod_add, Z.div_add by lia. lia.
Qed.

Lemma vpn_to_pfn_cores_overlap_witness :
  let g := example_globals SIM_MODE_DEF LRU 64 1 in
  memsys_convert_vpn_to_pfn g (5 + 2 ^ 20) 0 = memsys_convert_vpn_to_pfn g 5 1.
Proof.
  intros g. apply (vpn_to_pfn_cores_overlap g 5 eq_refl). lia.
Defined.

(** The shifts of [memsys_access_modeDEF] are defined for a line size from
    1 to 8191 bytes. *)
Lemma shift_defined_true (g : Globals) :
  0 < CACHE_LINESIZE g < 8192 -> shift_defined g = true.
Proof.
  intros Hls. unfold shift_defined.
  apply andb_true_iff. split; [apply Z.ltb_lt; lia |].
  apply Z.leb_le. change (Z.log2 PAGE_SIZE) with (Z.log2 8191).
  apply Z.log2_le_mono. lia.
Qed.

(** X21.  Mode DEF runs the L1 access on the translated address, and the
    translation replaces the page number and keeps the position of the
    line in its page.  For a line size from 1 to 4096 bytes, with
    [b = 12 - floor (log2 line size)] and a virtual line address below
    [2^50]: the low [b] bits of the physical line address are those of the
    virtual one, and the bits above are the frame number of the virtual page
    [v_line_addr >> b]. *)
Theorem modeDEF_translates_page_only (sys : MemorySystem) (g : Globals)
    (v_line_addr : Z) (type : AccessType) (core_id : Z) :
  let b := 12 - Z.log2 (CACHE_LINESIZE g) in
  memsys_access_modeDEF sys g v_line_addr type core_id
  = match p_line_addr_of g v_line_addr core_id with
    | Some p =>
        memsys_l1_access sys g
          match type with
          | ACCESS_TYPE_IFETCH => L1_icache_coreid core_id
          | _ => L1_dcache_coreid core_id
          end p type
          match type with ACCESS_TYPE_STORE => true | _ => false end core_id 1
    | None => None
    end /\
  (NUM_CORES g = 2 -> core_id = 0 \/ core_id = 1 ->
   1 <= CACHE_LINESIZE g <= 4096 -> 0 <= v_line_addr < 2 ^ 50 ->
   exists p pfn,
     p_line_addr_of g v_line_addr core_id = Some p /\
     memsys_convert_vpn_to_pfn g (Z.shiftr v_line_addr b) core_id = Some pfn /\
     Z.land p (Z.ones b) = Z.land v_line_addr (Z.ones b) /\
     Z.shiftr p b = pfn /\ 0 <= p < 2 ^ 64).
Proof.
  intros b. split.
  - unfold memsys_access_modeDEF, p_line_addr_of.
    destruct (shift_defined g); [|reflexivity].
    destruct (memsys_convert_vpn_to_pfn g _ core_id); [|reflexivity].
    destruct type; reflexivity.
  - intros Hn Hk Hls Hv.
    assert (Hlog : 0 <= Z.log2 (CACHE_LINESIZE g) <= 12).
    { split; [apply Z.log2_nonneg |].
      change 12 with (Z.log2 4096). apply Z.log2_le_mono. lia. }
    assert (Hb : 0 <= b <= 12) by (unfold b; lia).
    assert (Hpow : 1 <= 2 ^ b <= 2 ^ 12).
    { split; [pose proof (Z.pow_pos_nonneg 2 b ltac:(lia) ltac:(lia)); lia
             | apply Z.pow_le_mono_r; lia]. }
    assert (Hvfn : 0 <= Z.shiftr v_line_addr b < 2 ^ 50).
    { rewrite Z.shiftr_div_pow2 by lia. split; [apply Z.div_pos; lia |].
      apply Z.div_lt_upper_bound; [lia | nia]. }
    pose proof (vpn_to_pfn_exact g (Z.shiftr v_line_addr b) core_id Hn ltac:(lia) Hk) as Hpfn.
    set (vfn := Z.shiftr v_line_addr b) in *.
    set (pfn := vfn mod 2 ^ 20 + (core_id + vfn / 2 ^ 20) * 2 ^ 21) in *.
    assert (Hpr : 0 <= pfn < 2 ^ 52).
    { unfold pfn. pose proof (Z.mod_pos_bound vfn (2 ^ 20) ltac:(lia)).
      assert (0 <= vfn / 2 ^ 20 < 2 ^ 30).
      { split; [apply Z.div_pos; lia | apply Z.div_lt_upper_bound; lia]. }
      destruct Hk as [-> | ->]; lia. }
    unfold p_line_addr_of. rewrite (shift_defined_true g) by lia.
    change (Z.log2 PAGE_SIZE) with 12. fold b. fold vfn.
    rewrite Hpfn.
    assert (Hmask : u32 (Z.shiftl 1 b - 1) = Z.ones b).
    { rewrite Z.shiftl_1_l, Z.ones_equiv. apply u32_small. lia. }
    rewrite Hmask.
    assert (Hsh : u64 (Z.shiftl pfn b) = Z.shiftl pfn b).
    { apply u64_small. rewrite Z.shiftl_mul_pow2 by lia. nia. }
    rewrite Hsh.
    exists (Z.lor (Z.shiftl pfn b) (Z.land v_line_addr (Z.ones b))), pfn.
    split; [reflexivity | split; [reflexivity | split; [| split]]].
    + rewrite Z.land_lor_distr_l, <- Z.land_assoc, Z.land_diag.
      rewrite (Z.land_ones (Z.shiftl pfn b)), Z.shiftl_mul_pow2, Z.mod_mul by lia.
      apply Z.lor_0_l.
    + rewrite Z.shiftr_lor, Z.shiftr_shiftl_l, Z.sub_diag, Z.shiftl_0_r by lia.
      rewrite Z.land_ones, Z.shiftr_div_pow2 by lia.
      rewrite Z.div_small by (apply Z.mod_pos_bound; lia).
      apply Z.lor_0_r.
    + apply lor_range; [lia | |].
      * rewrite Z.shiftl_mul_pow2 by lia. nia.
      * rewrite Z.land_ones by lia.
        pose proof (Z.mod_pos_bound v_line_addr (2 ^ b) ltac:(lia)). lia.
Qed.

Lemma modeDEF_translates_page_only_witness :
  let g := example_globals SIM_MODE_DEF LRU 64 1 in
  exists p, p_line_addr_of g (0x123456 * 64 + 5) 1 = Some p /\
    Z.land p (Z.ones 6) = 5 /\ Z.shiftr p 6 = 0x423456.
Proof.
  intros g.
  destruct (modeDEF_translates_page_only (memsys_new g) g (0x123456 * 64 + 5)
              ACCESS_TYPE_LOAD 1) as [_ H].
  destruct (H eq_refl (or_intror eq_refl) ltac:(cbn; lia) ltac:(lia))
    as (p & pfn & Hp & Hpfn & Hland & Hshift & _).
  exists p. split; [exact Hp | split; [exact Hland |]].
  injection Hpfn as <-. exact Hshift.
Defined.

(** ** The delay of a reference *)

Lemma dram_access_delay_cases (d : DRAM) (g : Globals) (a : Z) (w : bool) :
  let delay := fst (dram_access d g a w) in
  (delay = 55 \/ delay = 100 \/ delay = 145) /\
  (SIM_MODE g = SIM_MODE_B -> delay = 100).
Proof.
  intros delay. unfold delay, dram_access, dram_access_mode_CDEF. split.
  - destruct (SIM_MODE g), (DRAM_PAGE_POLICY g); repeat case_if; cbn [fst];
      first [left; reflexivity | right; left; reflexivity | right; right; reflexivity].
  - intros ->. reflexivity.
Qed.

Lemma memsys_l2_access_delay sys g a wb k delay sys' g' :
  memsys_l2_access sys g a wb k = Some (delay, sys', g') ->
  (delay = 10 \/ delay = 65 \/ delay = 110 \/ delay = 155) /\
  (SIM_MODE g = SIM_MODE_B -> delay = 10 \/ delay = 110).
Proof.
  unfold memsys_l2_access.
  destruct (l2cache sys) as [l2|]; [|discriminate].
  destruct (cache_access l2 g a wb k) as [[] l2a].
  - intros [= <- _ _]. split; [left; reflexivity | intros _; left; reflexivity].
  - destruct (dram sys) as [d|]; [|discriminate].
    destruct (dram_access_delay_cases d g a false) as [Hd HB].
    destruct (dram_access d g a false) as [dd d1]. cbn [fst] in Hd, HB.
    destruct (cache_install l2a g a wb k) as [[l2b g1]|]; [|discriminate].
    assert (Hres : (u64 (L2CACHE_HIT_LATENCY + dd) = 65 \/
                    u64 (L2CACHE_HIT_LATENCY + dd) = 110 \/
                    u64 (L2CACHE_HIT_LATENCY + dd) = 155) /\
                   (SIM_MODE g = SIM_MODE_B -> u64 (L2CACHE_HIT_LATENCY + dd) = 110)).
    { split.
      - destruct Hd as [-> | [-> | ->]]; auto.
      - intros Hm. rewrite (HB Hm). reflexivity. }
    destruct (valid (lastEvictedLine l2b) && dirty (lastEvictedLine l2b));
      [destruct (dram_access d1 g1 _ true) as [? d2] |];
      intros [= <- _ _]; (split; [right; apply Hres | intros Hm; right; apply Hres, Hm]).
Qed.

Lemma memsys_l1_access_delay sys g w a type iw k sys' g' delay :
  memsys_l1_access sys g w a type iw k 1 = Some (delay, sys', g') ->
  (delay = 1 \/ delay = 11 \/ delay = 66 \/ delay = 111 \/ delay = 156) /\
  (SIM_MODE g = SIM_MODE_B -> delay = 1 \/ delay = 11 \/ delay = 111).
Proof.
  unfold memsys_l1_access.
  destruct (l1_get w sys) as [c|]; [|discriminate].
  destruct (cache_access c g a iw k) as [[] c1].
  - intros [= <- _ _]. split; [left; reflexivity | intros _; left; reflexivity].
  - destruct (memsys_l2_access (l1_set w c1 sys) g a false k)
      as [[[d2 sys1] g1]|] eqn:E2; [|discriminate].
    destruct (memsys_l2_access_delay _ _ _ _ _ _ _ _ E2) as [Hd HB].
    destruct (cache_install c1 g1 a iw k) as [[c2 g2]|]; [|discriminate].
    assert (Hres : (u64 (1 + d2) = 11 \/ u64 (1 + d2) = 66 \/ u64 (1 + d2) = 111 \/
                    u64 (1 + d2) = 156) /\
                   (SIM_MODE g = SIM_MODE_B -> u64 (1 + d2) = 11 \/ u64 (1 + d2) = 111)).
    { split.
      - destruct Hd as [-> | [-> | [-> | ->]]]; auto.
      - intros Hm. destruct (HB Hm) as [-> | ->]; auto. }
    assert (Hfinal : forall x : MemorySystem * Globals,
              Some (u64 (1 + d2), fst x, snd x) = Some (delay, sys', g') ->
              (delay = 1 \/ delay = 11 \/ delay = 66 \/ delay = 111 \/ delay = 156) /\
              (SIM_MODE g = SIM_MODE_B -> delay = 1 \/ delay = 11 \/ delay = 111)).
    { intros x [= <- _ _]. split; [right; apply Hres | intros Hm; right; apply Hres, Hm]. }
    destruct type;
      try (apply (Hfinal (l1_set w c2 sys1, g2)));
      (destruct (valid (lastEvictedLine c2) && dirty (lastEvictedLine c2));
       [destruct (memsys_l2_access _ g2 _ true k) as [[[d3 sys3] g3]|];
        [apply (Hfinal (sys3, g3)) | discriminate]
       | apply (Hfinal (l1_set w c2 sys1, g2))]).
Qed.

(** X22.  The delay that [memsys_access] returns is 0 in mode A; in mode B
    it is 1 on an L1 hit, 11 when the L2 hits and 111 when the DRAM is
    read; in modes C to F it is 1, 11, or 11 plus a DRAM delay of 55, 100
    or 145.  The writebacks, to the L2 and to the DRAM, never add to it. *)
Theorem memsys_access_delay_values (sys : MemorySystem) (g : Globals) (addr : Z)
    (type : AccessType) (core_id : Z) (delay : Z) (sys' : MemorySystem)
    (g' : Globals) :
  memsys_access sys g addr type core_id = Some (delay, sys', g') ->
  match SIM_MODE g with
  | SIM_MODE_A => delay = 0
  | SIM_MODE_B => delay = 1 \/ delay = 11 \/ delay = 111
  | _ => delay = 1 \/ delay = 11 \/ delay = 66 \/ delay = 111 \/ delay = 156
  end.
Proof.
  unfold memsys_access.
  destruct (SIM_MODE g) eqn:Hm.
  - unfold memsys_access_modeA.
    destruct type; cbn; try (intros [= <- _ _]; reflexivity);
      (destruct (dcache sys) as [c|]; [|discriminate]);
      (destruct (cache_access c g _ _ core_id) as [[] c1];
       [| destruct (cache_install c1 g _ _ core_id) as [[c2 g1]|]; [|discriminate]]);
      intros [= <- _ _]; reflexivity.
  - destruct (memsys_access_modeBC sys g _ type core_id) as [[[d sys1] g1]|] eqn:E;
      [|discriminate].
    intros [= <- _ _]. unfold memsys_access_modeBC in E.
    destruct type; apply memsys_l1_access_delay in E; apply E; exact Hm.
  - destruct (memsys_access_modeBC sys g _ type core_id) as [[[d sys1] g1]|] eqn:E;
      [|discriminate].
    intros [= <- _ _]. unfold memsys_access_modeBC in E.
    destruct type; apply memsys_l1_access_delay in E; apply E.
  - destruct (memsys_access_modeDEF sys g _ type core_id) as [[[d sys1] g1]|] eqn:E;
      [|discriminate].
    intros [= <- _ _]. unfold memsys_access_modeDEF in E.
    destruct (shift_defined g); [|discriminate].
    destruct (memsys_convert_vpn_to_pfn g _ core_id) as [pfn|]; [|discriminate].
    destruct type; apply memsys_l1_access_delay in E; apply E.
Qed.

Lemma memsys_access_delay_values_witness :
  let g := example_globals SIM_MODE_C LRU 64 1 in
  exists delay sys' g',
    memsys_access (memsys_new g) g 0 ACCESS_TYPE_LOAD 0 = Some (delay, sys', g') /\
    (delay = 1 \/ delay = 11 \/ delay = 66 \/ delay = 111 \/ delay = 156).
Proof.
  intros g.
  destruct (memsys_access (memsys_new g) g 0 ACCESS_TYPE_LOAD 0)
    as [[[delay sys'] g']|] eqn:E; [|vm_compute in E; discriminate E].
  exists delay, sys', g'. split; [reflexivity |].
  apply (memsys_access_delay_values (memsys_new g) g 0 ACCESS_TYPE_LOAD 0 delay sys' g' E).
Defined.

(** ** Mode A *)

(** X23.  Mode A uses the data cache and nothing else: a reference leaves
    the other caches, the L2, the DRAM and the list of calls issued below
    the L1 as they are, and an instruction fetch leaves the data cache as
    it is too, so that only its two counters record it. *)
Theorem modeA_touches_only_dcache (sys : MemorySystem) (g : Globals) (addr : Z)
    (type : AccessType) (core_id : Z) (delay : Z) (sys' : MemorySystem)
    (g' : Globals) :
  SIM_MODE g = SIM_MODE_A ->
  memsys_access sys g addr type core_id = Some (delay, sys', g') ->
  icache sys' = icache sys /\ dcache_coreid sys' = dcache_coreid sys /\
  icache_coreid sys' = icache_coreid sys /\ l2cache sys' = l2cache sys /\
  dram sys' = dram sys /\ issued sys' = issued sys /\
  (type = ACCESS_TYPE_IFETCH ->
   dcache sys' = dcache sys /\ g' = g /\
   stat_ifetch_access sys' = u64 (stat_ifetch_access sys + 1) /\
   stat_ifetch_delay sys' = u64 (stat_ifetch_delay sys + 0)).
Proof.
  intros Hm. unfold memsys_access, memsys_access_modeA. rewrite Hm.
  destruct type; cbn.
  - intros [= <- <- <-]. cbn. repeat split; reflexivity.
  - destruct (dcache sys) as [c|]; [|discriminate].
    destruct (cache_access c g _ _ core_id) as [[] c1];
      [| destruct (cache_install c1 g _ _ core_id) as [[c2 g1]|]; [|discriminate]];
      intros [= <- <- <-]; cbn; repeat split; discriminate.
  - destruct (dcache sys) as [c|]; [|discriminate].
    destruct (cache_access c g _ _ core_id) as [[] c1];
      [| destruct (cache_install c1 g _ _ core_id) as [[c2 g1]|]; [|discriminate]];
      intros [= <- <- <-]; cbn; repeat split; discriminate.
Qed.

Lemma modeA_touches_only_dcache_witness :
  let g := example_globals SIM_MODE_A LRU 64 1 in
  exists delay sys' g',
    memsys_access (memsys_new g) g 0 ACCESS_TYPE_IFETCH 0 = Some (delay, sys', g') /\
    dcache sys' = dcache (memsys_new g).
Proof.
  intros g.
  destruct (memsys_access (memsys_new g) g 0 ACCESS_TYPE_IFETCH 0)
    as [[[delay sys'] g']|] eqn:E; [|vm_compute in E; discriminate E].
  exists delay, sys', g'. split; [reflexivity |].
  destruct (modeA_touches_only_dcache (memsys_new g) g 0 ACCESS_TYPE_IFETCH 0
              delay sys' g' eq_refl E) as (_ & _ & _ & _ & _ & _ & H).
  destruct (H eq_refl) as [Hd _]. exact Hd.
Defined.

(** ** A run never leaves the allocated memory *)

Lemma same_config_refl g : same_config g g.
Proof. repeat split; reflexivity. Qed.

Lemma same_config_trans g1 g2 g3 :
  same_config g1 g2 -> same_config g2 g3 -> same_config g1 g3.
Proof.
  intros (A1 & A2 & A3 & A4 & A5) (B1 & B2 & B3 & B4 & B5).
  repeat split; congruence.
Qed.

Lemma cache_install_config c g a w k c' g' :
  cache_install c g a w k = Some (c', g') -> same_config g g'.
Proof.
  unfold cache_install.
  pose proof (cache_find_victim_globals c g
                (u32 (Z.land a (index_mask c) mod sets c)) k) as H. cbv zeta in H.
  destruct (cache_find_victim c g _ k) as [v g1]. cbn [snd] in H.
  destruct (if valid _ then _ else _) as [wpc1|]; [|discriminate].
  destruct (bump 1 k wpc1) as [wpc2|]; [|discriminate].
  intros [= _ <-]. destruct H as (_ & H1 & H2 & H3 & H4 & H5).
  repeat split; assumption.
Qed.

Lemma l1_get_set_other w w' c sys :
  w <> w' -> w ∈ l1_of_mode SIM_MODE_DEF \/ w = L1_dcache \/ w = L1_icache ->
  w' ∈ l1_of_mode SIM_MODE_DEF \/ w' = L1_dcache \/ w' = L1_icache ->
  l1_get w' (l1_set w c sys) = l1_get w' sys.
Proof.
  intros Hne Hw Hw'.
  assert (Hslot : forall x, x ∈ l1_of_mode SIM_MODE_DEF \/ x = L1_dcache \/ x = L1_icache ->
            match x with
            | L1_dcache_coreid k | L1_icache_coreid k => k = 0 \/ k = 1
            | _ => True
            end).
  { intros x [Hx | [-> | ->]]; [| exact I | exact I].
    cbn in Hx. rewrite !elem_of_cons, elem_of_nil in Hx.
    destruct Hx as [-> | [-> | [-> | [-> | []]]]]; auto. }
  pose proof (Hslot w Hw) as Sw. pose proof (Hslot w' Hw') as Sw'.
  destruct w as [| | k | k], w' as [| | k' | k']; cbn; try reflexivity;
    try congruence; unfold core_slot;
    (destruct (0 <=? k'); [|reflexivity]);
    rewrite list_lookup_insert_ne; [reflexivity | | reflexivity |];
    intros Heq; apply Hne; f_equal; lia.
Qed.

Lemma L1_eq_dec (w w' : L1) : {w = w'} + {w <> w'}.
Proof. decide equality; apply Z.eq_dec. Qed.

Lemma l1_in_mode_known m w :
  w ∈ l1_of_mode m ->
  w ∈ l1_of_mode SIM_MODE_DEF \/ w = L1_dcache \/ w = L1_icache.
Proof.
  destruct m; cbn; rewrite ?elem_of_cons, ?elem_of_nil; intros H;
    try (left; rewrite ?elem_of_cons, ?elem_of_nil; exact H);
    right; tauto.
Qed.

Lemma memsys_ok_l1_set m sys w c :
  memsys_ok m sys -> w ∈ l1_of_mode m -> cache_ok c -> memsys_ok m (l1_set w c sys).
Proof.
  intros [Hl1 Hl2] Hw Hc. split.
  - intros w' Hw'. destruct (L1_eq_dec w w') as [<- | Hne].
    + destruct (Hl1 w Hw) as (c0 & Hget & _).
      exists c. split; [exact (l1_get_set w sys c0 c Hget) | exact Hc].
    + rewrite (l1_get_set_other w w' c sys Hne (l1_in_mode_known m w Hw)
                 (l1_in_mode_known m w' Hw')).
      apply Hl1. exact Hw'.
  - intros Hm. destruct (Hl2 Hm) as (l2 & d & H2 & Hok2 & Hd).
    exists l2, d. split; [exact H2 | split; [exact Hok2 | exact Hd]].
Qed.

Lemma memsys_l2_access_config sys g a wb k delay sys' g' :
  memsys_l2_access sys g a wb k = Some (delay, sys', g') -> same_config g g'.
Proof.
  unfold memsys_l2_access.
  destruct (l2cache sys) as [l2|]; [|discriminate].
  destruct (cache_access l2 g a wb k) as [[] l2a].
  - intros [= _ _ <-]. apply same_config_refl.
  - destruct (dram sys) as [d|]; [|discriminate].
    destruct (dram_access d g a false) as [dd d1].
    destruct (cache_install l2a g a wb k) as [[l2b g1]|] eqn:Hi; [|discriminate].
    pose proof (cache_install_config _ _ _ _ _ _ _ Hi) as Hcfg.
    destruct (valid (lastEvictedLine l2b) && dirty (lastEvictedLine l2b));
      [destruct (dram_access d1 g1 _ true) as [? d2] |];
      intros [= _ _ <-]; exact Hcfg.
Qed.

Lemma memsys_l2_access_keeps m sys g a wb k :
  memsys_ok m sys -> m <> SIM_MODE_A -> k = 0 \/ k = 1 ->
  exists delay sys' g',
    memsys_l2_access sys g a wb k = Some (delay, sys', g') /\
    memsys_ok m sys' /\ same_config g g'.
Proof.
  intros [Hl1 Hl2] Hm Hk. destruct (Hl2 Hm) as (l2 & d & H2 & Hok2 & Hd).
  destruct (l2_writeback_cases_total sys g a wb k l2 d H2 Hd Hok2 Hk)
    as (delay & sys' & g' & l2' & d' & evs & H & Hl2' & Hd' & Hok' & _ & _ & Hget).
  exists delay, sys', g'. split; [exact H | split].
  - split.
    + intros w Hw. rewrite Hget. apply Hl1. exact Hw.
    + intros _. exists l2', d'. split; [exact Hl2' | split; [exact Hok' | exact Hd']].
  - exact (memsys_l2_access_config _ _ _ _ _ _ _ _ H).
Qed.

Lemma memsys_l1_access_keeps m sys g w a type iw k d0 :
  memsys_ok m sys -> m <> SIM_MODE_A -> w ∈ l1_of_mode m -> k = 0 \/ k = 1 ->
  exists delay sys' g',
    memsys_l1_access sys g w a type iw k d0 = Some (delay, sys', g') /\
    memsys_ok m sys' /\ same_config g g'.
Proof.
  intros Hok Hm Hw Hk. destruct (proj1 Hok w Hw) as (c & Hget & Hc).
  unfold memsys_l1_access. rewrite Hget.
  pose proof (cache_access_ok c g a iw k Hc) as Hc1.
  destruct (cache_access c g a iw k) as [[] c1]; cbn [snd] in Hc1.
  - eexists _, _, _. split; [reflexivity | split].
    + apply memsys_ok_l1_set; assumption.
    + apply same_config_refl.
  - pose proof (memsys_ok_l1_set m sys w c1 Hok Hw Hc1) as HokA.
    destruct (memsys_l2_access_keeps m _ g a false k HokA Hm Hk)
      as (d2 & sys1 & g1 & H2 & Hok1 & Hcfg1).
    rewrite H2.
    destruct (cache_install_total c1 g1 a iw k Hc1 Hk) as [[c2 g2] Hi]. rewrite Hi.
    pose proof (cache_install_ok c1 g1 a iw k c2 g2 Hc1 Hi) as Hc2.
    pose proof (cache_install_config c1 g1 a iw k c2 g2 Hi) as Hcfg2.
    pose proof (memsys_ok_l1_set m sys1 w c2 Hok1 Hw Hc2) as HokB.
    pose proof (same_config_trans g g1 g2 Hcfg1 Hcfg2) as Hcfg.
    assert (Hplain : exists delay sys' g',
              Some (u64 (d0 + d2), l1_set w c2 sys1, g2) = Some (delay, sys', g') /\
              memsys_ok m sys' /\ same_config g g').
    { eexists _, _, _. split; [reflexivity | split; assumption]. }
    destruct type; try exact Hplain;
      (destruct (valid (lastEvictedLine c2) && dirty (lastEvictedLine c2));
       [| exact Hplain]);
      (destruct (memsys_l2_access_keeps m _ g2 (evicted_address c2 a) true k HokB Hm Hk)
         as (d3 & sys3 & g3 & H3 & Hok3 & Hcfg3));
      rewrite H3; eexists _, _, _;
      (split; [reflexivity | split; [exact Hok3 |]]);
      exact (same_config_trans g g2 g3 Hcfg Hcfg3).
Qed.

Lemma count_reference_ok m type delay sys :
  memsys_ok m sys -> memsys_ok m (count_reference type delay sys).
Proof.
  intros [Hl1 Hl2]. split.
  - intros w Hw. destruct (Hl1 w Hw) as (c & Hget & Hc). exists c.
    split; [destruct w; exact Hget | exact Hc].
  - exact Hl2.
Qed.

(** One reference on a well-shaped memory system. *)
Lemma memsys_access_keeps sys g addr type k :
  memsys_ok (SIM_MODE g) sys ->
  (SIM_MODE g = SIM_MODE_DEF -> NUM_CORES g = 2 /\ 0 < CACHE_LINESIZE g < 8192) ->
  k = 0 \/ k = 1 ->
  exists delay sys' g',
    memsys_access sys g addr type k = Some (delay, sys', g') /\
    memsys_ok (SIM_MODE g) sys' /\ same_config g g'.
Proof.
  intros Hok Hcores Hk. unfold memsys_access.
  assert (Hwrap : forall r,
            (exists delay sys1 g1, r = Some (delay, sys1, g1) /\
               memsys_ok (SIM_MODE g) sys1 /\ same_config g g1) ->
            exists delay sys' g',
              match r with
              | Some (delay, sys1, g1) => Some (delay, count_reference type delay sys1, g1)
              | None => None
              end = Some (delay, sys', g') /\
              memsys_ok (SIM_MODE g) sys' /\ same_config g g').
  { intros r (delay & sys1 & g1 & -> & Hok1 & Hcfg).
    eexists _, _, _. split; [reflexivity | split; [| exact Hcfg]].
    apply count_reference_ok. exact Hok1. }
  set (a := addr / CACHE_LINESIZE g).
  destruct (SIM_MODE g) eqn:Hm.
  - apply Hwrap. unfold memsys_access_modeA.
    destruct (proj1 Hok L1_dcache ltac:(cbn; apply elem_of_cons; left; reflexivity)) as (c & Hget & Hc).
    cbn in Hget.
    assert (Hstep : forall iw, exists delay sys1 g1,
              match dcache sys with
              | Some c =>
                  match cache_access c g a iw k with
                  | (HIT, c1) => Some (0, l1_set L1_dcache c1 sys, g)
                  | (MISS, c1) =>
                      match cache_install c1 g a iw k with
                      | Some (c2, g1) => Some (0, l1_set L1_dcache c2 sys, g1)
                      | None => None
                      end
                  end
              | None => None
              end = Some (delay, sys1, g1) /\
              memsys_ok SIM_MODE_A sys1 /\ same_config g g1).
    { intros iw. rewrite Hget.
      pose proof (cache_access_ok c g a iw k Hc) as Hc1.
      destruct (cache_access c g a iw k) as [[] c1]; cbn [snd] in Hc1.
      - eexists _, _, _. split; [reflexivity | split; [| apply same_config_refl]].
        apply memsys_ok_l1_set; [exact Hok | cbn; apply elem_of_cons; left; reflexivity | exact Hc1].
      - destruct (cache_install_total c1 g a iw k Hc1 Hk) as [[c2 g1] Hi]. rewrite Hi.
        eexists _, _, _. split; [reflexivity | split].
        + apply memsys_ok_l1_set; [exact Hok | cbn; apply elem_of_cons; left; reflexivity |].
          exact (cache_install_ok c1 g a iw k c2 g1 Hc1 Hi).
        + exact (cache_install_config c1 g a iw k c2 g1 Hi). }
    destruct type; cbn.
    + eexists _, _, _. split; [reflexivity | split; [exact Hok | apply same_config_refl]].
    + apply Hstep.
    + apply Hstep.
  - apply Hwrap. unfold memsys_access_modeBC.
    destruct type; apply memsys_l1_access_keeps; try assumption; try discriminate;
      cbn; rewrite !elem_of_cons; auto.
  - apply Hwrap. unfold memsys_access_modeBC.
    destruct type; apply memsys_l1_access_keeps; try assumption; try discriminate;
      cbn; rewrite !elem_of_cons; auto.
  - apply Hwrap. unfold memsys_access_modeDEF, memsys_convert_vpn_to_pfn.
    destruct (Hcores eq_refl) as [Hn Hls].
    rewrite (shift_defined_true g Hls), Hn. cbn [Z.eqb Pos.eqb].
    destruct type; apply memsys_l1_access_keeps; try assumption; try discriminate;
      cbn; rewrite !elem_of_cons; destruct Hk as [-> | ->]; auto.
Qed.

Lemma geometry_cache_ok size associativity line_size pol :
  geometry_ok size associativity line_size ->
  cache_ok (cache_new size associativity line_size pol).
Proof. intros (H1 & H2 & H3). apply cache_new_ok; assumption. Qed.

Lemma memsys_new_ok (g : Globals) :
  config_ok g -> memsys_ok (SIM_MODE g) (memsys_new g).
Proof.
  intros (HD & HIL & Hcores).
  pose proof (geometry_cache_ok _ _ _ (REPL_POLICY g) HD) as HcD.
  unfold memsys_ok, memsys_new.
  destruct (SIM_MODE g) eqn:Hm; cbn [l1_of_mode].
  - split; [| intros H; contradiction].
    intros w Hw. rewrite elem_of_cons, elem_of_nil in Hw. destruct Hw as [-> | []].
    cbn. eauto.
  - destruct (HIL ltac:(discriminate)) as [HI HL].
    split.
    + intros w Hw. rewrite !elem_of_cons, elem_of_nil in Hw.
      destruct Hw as [-> | [-> | []]]; cbn; eexists; split; try reflexivity;
        [exact HcD | apply geometry_cache_ok; exact HI].
    + intros _. cbn. eexists _, _. split; [reflexivity | split; [| reflexivity]].
      apply geometry_cache_ok. exact HL.
  - destruct (HIL ltac:(discriminate)) as [HI HL].
    split.
    + intros w Hw. rewrite !elem_of_cons, elem_of_nil in Hw.
      destruct Hw as [-> | [-> | []]]; cbn; eexists; split; try reflexivity;
        [exact HcD | apply geometry_cache_ok; exact HI].
    + intros _. cbn. eexists _, _. split; [reflexivity | split; [| reflexivity]].
      apply geometry_cache_ok. exact HL.
  - destruct (HIL ltac:(discriminate)) as [HI HL].
    rewrite (proj1 (Hcores eq_refl)).
    split.
    + intros w Hw. rewrite !elem_of_cons, elem_of_nil in Hw.
      destruct Hw as [-> | [-> | [-> | [-> | []]]]]; cbn; eexists; split;
        try reflexivity; first [exact HcD | apply geometry_cache_ok; exact HI].
    + intros _. cbn. eexists _, _. split; [reflexivity | split; [| reflexivity]].
      apply geometry_cache_ok. exact HL.
Qed.

Lemma memsys_run_keeps (refs : list Reference) : forall sys g,
  memsys_ok (SIM_MODE g) sys ->
  (SIM_MODE g = SIM_MODE_DEF -> NUM_CORES g = 2 /\ 0 < CACHE_LINESIZE g < 8192) ->
  Forall (fun r => ref_core r = 0 \/ ref_core r = 1) refs ->
  exists sys' g',
    memsys_run sys g refs = Some (sys', g') /\
    memsys_ok (SIM_MODE g) sys' /\ SIM_MODE g' = SIM_MODE g /\
    NUM_CORES g' = NUM_CORES g /\ CACHE_LINESIZE g' = CACHE_LINESIZE g.
Proof.
  induction refs as [|r refs IH]; intros sys g Hok Hcores Hall.
  - exists sys, g. repeat split; [exact (proj1 Hok) | exact (proj2 Hok)].
  - apply Forall_cons in Hall as [Hr Hall].
    rewrite memsys_run_cons.
    set (g0 := set_current_cycle (ref_cycle r) g).
    destruct (memsys_access_keeps sys g0 (ref_addr r) (ref_type r) (ref_core r) Hok Hcores Hr)
      as (delay & sys1 & g1 & H1 & Hok1 & (Hm1 & Hn1 & Hl1 & _)).
    rewrite H1. change (SIM_MODE g0) with (SIM_MODE g) in *.
    change (NUM_CORES g0) with (NUM_CORES g) in *.
    change (CACHE_LINESIZE g0) with (CACHE_LINESIZE g) in *.
    rewrite <- Hm1 in Hok1.
    destruct (IH sys1 g1 Hok1 ltac:(rewrite Hm1, Hn1, Hl1; exact Hcores) Hall)
      as (sys' & g' & Hrun & Hok' & Hm' & Hn' & Hl').
    exists sys', g'. split; [exact Hrun |].
    rewrite Hm1 in Hok'. split; [exact Hok' |]. repeat split; congruence.
Qed.

(** X24.  A run on a configuration that [cache_new] accepts, with a line
    size below 8192 in modes D to F, never reads a null cache or DRAM
    pointer, never indexes a set, a way or [ways_per_core] out of range and
    never shifts by a negative count: from [memsys_new], every reference of
    core 0 or core 1 completes, in every mode and under every replacement
    and page policy, and it leaves each cache of the mode allocated and
    well shaped. *)
Theorem memsys_run_completes (g : Globals) (refs : list Reference) :
  config_ok g ->
  Forall (fun r => ref_core r = 0 \/ ref_core r = 1) refs ->
  exists sys' g',
    memsys_run (memsys_new g) g refs = Some (sys', g') /\
    memsys_ok (SIM_MODE g) sys' /\ SIM_MODE g' = SIM_MODE g /\
    NUM_CORES g' = NUM_CORES g /\ CACHE_LINESIZE g' = CACHE_LINESIZE g.
Proof.
  intros Hcfg Hall.
  apply memsys_run_keeps; [apply memsys_new_ok; exact Hcfg | | exact Hall].
  intros Hm. destruct Hcfg as ((Hls & _) & _ & Hdef).
  destruct (Hdef Hm) as [Hn Hlt]. split; [exact Hn | lia].
Qed.

Lemma memsys_run_completes_witness :
  let g := example_globals SIM_MODE_DEF DWP 128 2 in
  let refs :=
    [ {| ref_cycle := 1; ref_addr := 0; ref_type := ACCESS_TYPE_STORE; ref_core := 0 |};
      {| ref_cycle := 2; ref_addr := 4096; ref_type := ACCESS_TYPE_IFETCH; ref_core := 1 |} ] in
  config_ok g /\ is_Some (memsys_run (memsys_new g) g refs).
Proof.
  intros g refs.
  assert (Hgeo : geometry_ok 128 2 64).
  { unfold geometry_ok, MAX_WAYS_PER_CACHE_SET.
    change (u32 (128 / 64 / 2)) with 1. lia. }
  assert (Hcfg : config_ok g).
  { split; [exact Hgeo | split; [intros _; split; exact Hgeo |]].
    intros _. split; [reflexivity | cbn; lia]. }
  split; [exact Hcfg |].
  destruct (memsys_run_completes g refs Hcfg) as (sys' & g' & Hrun & _).
  - apply Forall_cons. split; [left; reflexivity |].
    apply Forall_cons. split; [right; reflexivity | apply Forall_nil; exact I].
  - exists (sys', g'). exact Hrun.
Defined.

(** ** The statistics of the memory system *)

Lemma memsys_l2_access_stats sys g a wb k delay sys' g' t :
  memsys_l2_access sys g a wb k = Some (delay, sys', g') ->
  stat_access t sys' = stat_access t sys /\ stat_delay t sys' = stat_delay t sys.
Proof.
  unfold memsys_l2_access.
  destruct (l2cache sys) as [l2|]; [|discriminate].
  destruct (cache_access l2 g a wb k) as [[] l2a].
  - intros [= _ <- _]. destruct t; split; reflexivity.
  - destruct (dram sys) as [d|]; [|discriminate].
    destruct (dram_access d g a false) as [dd d1].
    destruct (cache_install l2a g a wb k) as [[l2b g1]|]; [|discriminate].
    destruct (valid (lastEvictedLine l2b) && dirty (lastEvictedLine l2b));
      [destruct (dram_access d1 g1 _ true) as [? d2] |];
      intros [= _ <- _]; destruct t; split; reflexivity.
Qed.

Lemma l1_set_stats w c sys t :
  stat_access t (l1_set w c sys) = stat_access t sys /\
  stat_delay t (l1_set w c sys) = stat_delay t sys.
Proof. destruct t; split; reflexivity. Qed.

Lemma memsys_l1_access_stats sys g w a type iw k d0 delay sys' g' t :
  memsys_l1_access sys g w a type iw k d0 = Some (delay, sys', g') ->
  stat_access t sys' = stat_access t sys /\ stat_delay t sys' = stat_delay t sys.
Proof.
  unfold memsys_l1_access.
  destruct (l1_get w sys) as [c|]; [|discriminate].
  destruct (cache_access c g a iw k) as [[] c1].
  - intros [= _ <- _]. apply l1_set_stats.
  - destruct (memsys_l2_access (l1_set w c1 sys) g a false k)
      as [[[d2 sys1] g1]|] eqn:E2; [|discriminate].
    destruct (memsys_l2_access_stats _ _ _ _ _ _ _ _ t E2) as [Ha Hd].
    destruct (l1_set_stats w c1 sys t) as [Ha0 Hd0].
    destruct (cache_install c1 g1 a iw k) as [[c2 g2]|]; [|discriminate].
    destruct (l1_set_stats w c2 sys1 t) as [Ha1 Hd1].
    assert (Hplain : Some (u64 (d0 + d2), l1_set w c2 sys1, g2) = Some (delay, sys', g') ->
              stat_access t sys' = stat_access t sys /\
              stat_delay t sys' = stat_delay t sys).
    { intros [= _ <- _]. split; congruence. }
    destruct type; try exact Hplain;
      (destruct (valid (lastEvictedLine c2) && dirty (lastEvictedLine c2));
       [| exact Hplain]);
      (destruct (memsys_l2_access (l1_set w c2 sys1) g2 _ true k)
         as [[[d3 sys3] g3]|] eqn:E3; [|discriminate]);
      destruct (memsys_l2_access_stats _ _ _ _ _ _ _ _ t E3) as [Ha3 Hd3];
      intros [= _ <- _]; split; congruence.
Qed.

Lemma memsys_access_stats sys g addr type k delay sys' g' t :
  memsys_access sys g addr type k = Some (delay, sys', g') ->
  stat_access t sys'
  = (if same_type type t then u64 (stat_access t sys + 1) else stat_access t sys) /\
  stat_delay t sys'
  = (if same_type type t then u64 (stat_delay t sys + delay) else stat_delay t sys).
Proof.
  unfold memsys_access.
  assert (Hcount : forall sys1,
            stat_access t sys1 = stat_access t sys -> stat_delay t sys1 = stat_delay t sys ->
            forall dl,
            stat_access t (count_reference type dl sys1)
            = (if same_type type t then u64 (stat_access t sys + 1) else stat_access t sys) /\
            stat_delay t (count_reference type dl sys1)
            = (if same_type type t then u64 (stat_delay t sys + dl) else stat_delay t sys)).
  { intros sys1 Ha Hd dl. destruct type, t; cbn in *; rewrite ?Ha, ?Hd; split; reflexivity. }
  destruct (match SIM_MODE g with
            | SIM_MODE_A => _ | SIM_MODE_B => _ | SIM_MODE_C => _ | SIM_MODE_DEF => _
            end) as [[[dl sys1] g1]|] eqn:E; [|discriminate].
  intros [= <- <- _].
  assert (Hsame : stat_access t sys1 = stat_access t sys /\
                  stat_delay t sys1 = stat_delay t sys).
  { destruct (SIM_MODE g).
    - unfold memsys_access_modeA in E.
      destruct type; cbn in E;
        try (injection E as _ <- _; split; reflexivity);
        (destruct (dcache sys) as [c|]; [|discriminate]);
        (destruct (cache_access c g _ _ k) as [[] c1];
         [| destruct (cache_install c1 g _ _ k) as [[c2 g2]|]; [|discriminate]]);
        injection E as _ <- _; apply l1_set_stats.
    - unfold memsys_access_modeBC in E.
      destruct type; exact (memsys_l1_access_stats _ _ _ _ _ _ _ _ _ _ _ t E).
    - unfold memsys_access_modeBC in E.
      destruct type; exact (memsys_l1_access_stats _ _ _ _ _ _ _ _ _ _ _ t E).
    - unfold memsys_access_modeDEF in E.
      destruct (shift_defined g); [|discriminate].
      destruct (memsys_convert_vpn_to_pfn g _ k) as [pfn|]; [|discriminate].
      destruct type; exact (memsys_l1_access_stats _ _ _ _ _ _ _ _ _ _ _ t E). }
  destruct Hsame as [Ha Hd]. apply Hcount; assumption.
Qed.

(** X25.  The statistics of the memory system add up what the references
    returned.  After a run, for each type of reference, the access counter
    has grown by the number of references of that type and the delay total
    by the sum of the delays that [memsys_access] returned for them, both
    modulo [2^64]. *)
Theorem memsys_stats_accumulate (refs : list Reference) (sys : MemorySystem)
    (g : Globals) (sys' : MemorySystem) (g' : Globals) (t : AccessType) :
  0 <= stat_access t sys < 2 ^ 64 -> 0 <= stat_delay t sys < 2 ^ 64 ->
  memsys_run sys g refs = Some (sys', g') ->
  exists delays,
    memsys_delays sys g refs = Some delays /\ length delays = length refs /\
    stat_access t sys' = u64 (stat_access t sys + reference_count t refs) /\
    stat_delay t sys' = u64 (stat_delay t sys + reference_delay t refs delays).
Proof.
  revert sys g. induction refs as [|r refs IH]; intros sys g Ha Hd Hrun.
  - injection Hrun as <- <-. exists []. cbn.
    rewrite !Z.add_0_r, !u64_small by lia. repeat split; reflexivity.
  - rewrite memsys_run_cons in Hrun. cbn [memsys_delays].
    destruct (memsys_access sys (set_current_cycle (ref_cycle r) g) (ref_addr r)
                (ref_type r) (ref_core r)) as [[[dl sys1] g1]|] eqn:E; [|discriminate].
    destruct (memsys_access_stats _ _ _ _ _ _ _ _ t E) as [Ha1 Hd1].
    assert (Hra : 0 <= stat_access t sys1 < 2 ^ 64).
    { rewrite Ha1. destruct (same_type (ref_type r) t); [apply u64_range | exact Ha]. }
    assert (Hrd : 0 <= stat_delay t sys1 < 2 ^ 64).
    { rewrite Hd1. destruct (same_type (ref_type r) t); [apply u64_range | exact Hd]. }
    destruct (IH sys1 g1 Hra Hrd Hrun) as (delays & Hds & Hlen & Hacc & Hdel).
    exists (dl :: delays). rewrite Hds.
    split; [reflexivity | split; [cbn [length]; rewrite Hlen; reflexivity |]].
    rewrite Hacc, Hdel, Ha1, Hd1. cbn [reference_count reference_delay].
    destruct (same_type (ref_type r) t).
    + rewrite !u64_add_l. split; f_equal; lia.
    + split; f_equal; lia.
Qed.

Lemma memsys_stats_accumulate_witness :
  let g := example_globals SIM_MODE_C LRU 64 1 in
  let refs :=
    [ {| ref_cycle := 1; ref_addr := 0; ref_type := ACCESS_TYPE_LOAD; ref_core := 0 |};
      {| ref_cycle := 2; ref_addr := 8; ref_type := ACCESS_TYPE_LOAD; ref_core := 0 |} ] in
  exists sys' g', memsys_run (memsys_new g) g refs = Some (sys', g') /\
    stat_load_access sys' = 2 /\ stat_load_delay sys' = 112.
Proof.
  intros g refs.
  destruct (memsys_run (memsys_new g) g refs) as [[sys' g']|] eqn:E;
    [|vm_compute in E; discriminate E].
  exists sys', g'. split; [reflexivity |].
  destruct (memsys_stats_accumulate refs (memsys_new g) g sys' g' ACCESS_TYPE_LOAD
              ltac:(cbn; lia) ltac:(cbn; lia) E) as (delays & Hds & _ & Hacc & Hdel).
  assert (delays = [111; 1]) as -> by (vm_compute in Hds; congruence).
  split; [exact Hacc | exact Hdel].
Defined.

(** ** The address of a writeback *)

(** X26.  The address that the writeback of an evicted line is sent to is
    the low 32 bits of the line's address.  When the evicted line of a
    well-shaped cache comes from line address [b], that is when its tag is
    [b >> index_bits] and [b] lies in the set of the address being
    installed, the address rebuilt for the writeback is [b mod 2^32]: the
    address itself below [2^32], a different line from there on. *)
Theorem writeback_address_is_low_32_bits (c : Cache) (line_addr b : Z) :
  cache_ok c -> 0 <= b < 2 ^ 64 ->
  tag (lastEvictedLine c) = Z.shiftr b (index_bits c) ->
  Z.land line_addr (index_mask c) = Z.land b (index_mask c) ->
  evicted_address c line_addr = b mod 2 ^ 32 /\
  (b < 2 ^ 32 -> evicted_address c line_addr = b) /\
  (2 ^ 32 <= b -> evicted_address c line_addr <> b).
Proof.
  intros Hok Hb Htag Hset.
  pose proof (evicted_address_low_32 c line_addr b Hok Hb Htag Hset) as Hmain.
  split; [exact Hmain | split].
  - intros Hlt. rewrite Hmain. apply Z.mod_small. lia.
  - intros Hge. rewrite Hmain.
    pose proof (Z.mod_pos_bound b (2 ^ 32) ltac:(lia)). lia.
Qed.

Lemma after_eviction_of_ok (b : Z) : cache_ok (after_eviction_of b).
Proof.
  assert (Hnew : cache_ok (cache_new 128 1 64 LRU)).
  { apply cache_new_ok; unfold MAX_WAYS_PER_CACHE_SET; try lia.
    change (u32 (128 / 64 / 1)) with 2. lia. }
  unfold after_eviction_of.
  destruct (cache_ops _ _ _) as [[c g]|] eqn:E; [| exact Hnew].
  apply (cache_ops_ok _ _ _ _ _ Hnew E).
Qed.

Lemma writeback_address_is_low_32_bits_witness :
  let high := after_eviction_of (2 ^ 32 + 7) in
  let low := after_eviction_of 7 in
  (* the line evicted is the line stored to, valid and dirty *)
  lastEvictedLine high =
    {| valid := true; dirty := true; tag := Z.shiftr (2 ^ 32 + 7) 1; coreID := 0;
       lastAccessTime := 1 |} /\
  lastEvictedLine low =
    {| valid := true; dirty := true; tag := Z.shiftr 7 1; coreID := 0;
       lastAccessTime := 1 |} /\
  (* line 2^32 + 7 is written back to line 7, line 7 to line 7 *)
  evicted_address high 5 = 7 /\ evicted_address high 5 <> 2 ^ 32 + 7 /\
  evicted_address low 5 = 7.
Proof.
  intros high low.
  destruct (writeback_address_is_low_32_bits high 5 (2 ^ 32 + 7)
              (after_eviction_of_ok _) ltac:(lia) eq_refl eq_refl)
    as (Hmod & _ & Hne).
  destruct (writeback_address_is_low_32_bits low 5 7
              (after_eviction_of_ok _) ltac:(lia) eq_refl eq_refl)
    as (_ & Hsame & _).
  split; [reflexivity | split; [reflexivity |]].
  split; [exact Hmod | split; [apply Hne; lia | apply Hsame; lia]].
Defined.

Lemma l1_miss_writebacks_witness :
  let g := example_globals SIM_MODE_C LRU 64 1 in
  let after refs :=
    match memsys_run (memsys_new g) g refs with
    | Some (sys, _) => sys
    | None => memsys_new g
    end in
  let stored :=
    after [ {| ref_cycle := 1; ref_addr := 320; ref_type := ACCESS_TYPE_STORE;
               ref_core := 0 |} ] in
  let fetched :=
    after [ {| ref_cycle := 1; ref_addr := 320; ref_type := ACCESS_TYPE_IFETCH;
               ref_core := 0 |} ] in
  (* a load that evicts the dirty line 5 of the store: one writeback *)
  (exists delay' sys' g' c2 evs,
     memsys_l1_access stored g L1_dcache 0 ACCESS_TYPE_LOAD false 0 1
     = Some (delay', sys', g') /\
     l1_get L1_dcache sys' = Some c2 /\
     valid (lastEvictedLine c2) && dirty (lastEvictedLine c2) = true /\
     issued sys' = issued stored ++ evs /\
     writebacks evs = [EvL2 5 true 0]) /\
  (* a fetch that evicts the line 5 of an earlier fetch: no writeback *)
  (exists delay' sys' g' c2 evs,
     memsys_l1_access fetched g L1_icache 0 ACCESS_TYPE_IFETCH false 0 1
     = Some (delay', sys', g') /\
     l1_get L1_icache sys' = Some c2 /\
     valid (lastEvictedLine c2) = true /\
     issued sys' = issued fetched ++ evs /\
     writebacks evs = []).
Proof.
  intros g after stored fetched.
  assert (Hgeo : geometry_ok 64 1 64).
  { unfold geometry_ok, MAX_WAYS_PER_CACHE_SET.
    change (u32 (64 / 64 / 1)) with 1. lia. }
  assert (Hcfg : config_ok g).
  { split; [exact Hgeo | split; [intros _; split; exact Hgeo | discriminate]]. }
  assert (Hafter : forall r, ref_core r = 0 ->
            memsys_ok SIM_MODE_C (after [r])).
  { intros r Hr.
    destruct (memsys_run_keeps [r] (memsys_new g) g (memsys_new_ok g Hcfg)
                ltac:(discriminate))
      as (sys1 & g1 & Hrun & Hok & _).
    - apply Forall_cons. split; [left; exact Hr | apply Forall_nil; exact I].
    - unfold after. rewrite Hrun. exact Hok. }
  split.
  - pose proof (Hafter {| ref_cycle := 1; ref_addr := 320; ref_type := ACCESS_TYPE_STORE;
                           ref_core := 0 |} eq_refl) as [Hl1 Hl2].
    fold stored in Hl1, Hl2.
    destruct (Hl1 L1_dcache ltac:(apply elem_of_cons; left; reflexivity))
      as (c & Hget & Hokc).
    destruct (Hl2 ltac:(discriminate)) as (l2 & d & Hgl2 & Hok2 & Hgd).
    assert (Hmiss : fst (cache_access c g 0 false 0) = MISS).
    { vm_compute in Hget. injection Hget as <-. reflexivity. }
    destruct (l1_miss_writebacks stored g L1_dcache 0 ACCESS_TYPE_LOAD false 0 1 c l2 d
                Hget Hgl2 Hgd Hokc Hok2 (or_introl eq_refl) Hmiss)
      as (delay' & sys' & g' & c2 & evs & Hacc & Hget2 & Hev & Hwb).
    exists delay', sys', g', c2, evs.
    assert (Hc2 : valid (lastEvictedLine c2) && dirty (lastEvictedLine c2) = true /\
                  evicted_address c2 0 = 5).
    { vm_compute in Hacc. injection Hacc as _ <- _.
      vm_compute in Hget2. injection Hget2 as <-. split; reflexivity. }
    destruct Hc2 as [Hvd Haddr].
    split; [exact Hacc | split; [exact Hget2 | split; [exact Hvd | split; [exact Hev |]]]].
    rewrite Hwb. cbn [andb]. rewrite Hvd, Haddr. reflexivity.
  - pose proof (Hafter {| ref_cycle := 1; ref_addr := 320; ref_type := ACCESS_TYPE_IFETCH;
                           ref_core := 0 |} eq_refl) as [Hl1 Hl2].
    fold fetched in Hl1, Hl2.
    destruct (Hl1 L1_icache ltac:(apply elem_of_cons; right; apply elem_of_cons;
                                  left; reflexivity))
      as (c & Hget & Hokc).
    destruct (Hl2 ltac:(discriminate)) as (l2 & d & Hgl2 & Hok2 & Hgd).
    assert (Hmiss : fst (cache_access c g 0 false 0) = MISS).
    { vm_compute in Hget. injection Hget as <-. reflexivity. }
    destruct (l1_miss_writebacks fetched g L1_icache 0 ACCESS_TYPE_IFETCH false 0 1 c l2 d
                Hget Hgl2 Hgd Hokc Hok2 (or_introl eq_refl) Hmiss)
      as (delay' & sys' & g' & c2 & evs & Hacc & Hget2 & Hev & Hwb).
    exists delay', sys', g', c2, evs.
    assert (Hc2 : valid (lastEvictedLine c2) = true).
    { vm_compute in Hacc. injection Hacc as _ <- _.
      vm_compute in Hget2. injection Hget2 as <-. reflexivity. }
    split; [exact Hacc | split; [exact Hget2 | split; [exact Hc2 | split; [exact Hev |]]]].
    exact Hwb.
Defined.

(** ** No line is held twice *)

(** X30.  A cache that is filled the way the memory system fills it, by
    installing a line only after the access to it has missed, never holds
    a line twice: a new cache has no two valid lines with the same tag and
    core in a set, an access keeps it so, and so does the install of the
    line whose access has just missed. *)
Theorem miss_then_install_keeps_lines_unique (c : Cache) (g : Globals) (a : Z)
    (w : bool) (k : Z) :
  cache_ok c -> lines_unique c ->
  let c1 := snd (cache_access c g a w k) in
  lines_unique c1 /\
  (fst (cache_access c g a w k) = MISS ->
   forall g1 w1 c' g',
     cache_install c1 g1 a w1 k = Some (c', g') -> lines_unique c') /\
  (forall size associativity line_size pol,
     lines_unique (cache_new size associativity line_size pol)).
Proof.
  intros Hok Huniq c1.
  destruct (cache_access_static c g a w k) as (Hw1 & _ & _ & Hm1 & Hb1 & _).
  fold c1 in Hw1, Hm1, Hb1.
  assert (Hu1 : lines_unique c1).
  { intros j i1 i2 H1 H2. cbv zeta.
    destruct (cache_access_lines c g a w k j i1) as (Hv1 & Ht1 & Hc1 & _).
    destruct (cache_access_lines c g a w k j i2) as (Hv2 & Ht2 & Hc2 & _).
    fold c1 in Hv1, Ht1, Hc1, Hv2, Ht2, Hc2.
    rewrite Hv1, Hv2, Ht1, Ht2, Hc1, Hc2. rewrite Hw1 in H1, H2.
    apply (Huniq j i1 i2 H1 H2). }
  split; [exact Hu1 | split].
  - intros Hmiss g1 w1 c' g' Hi.
    pose proof (cache_access_ok c g a w k Hok) as Hok1. fold c1 in Hok1.
    destruct (cache_install_static c1 g1 a w1 k c' g' Hi) as (Hw' & _).
    destruct (cache_install_effect c1 g1 a w1 k c' g' Hok1 Hi)
      as (Hv & _ & _ & _ & Hrow & _ & Hother & _).
    rewrite (set_index_of_static c c1 a Hm1) in Hrow, Hother.
    set (si := set_index_of c a) in *.
    set (v := fst (cache_find_victim c1 g1 (Z.land a (index_mask c1)) k)) in *.
    pose proof (cache_access_miss_rows c g a w k si Hmiss) as Hrows. fold c1 in Hrows.
    rewrite Hrows in Hrow.
    destruct (set_index_in_grid c a Hok) as (_ & _ & Hlt). fold si in Hlt.
    destruct (cache_ok_set c si Hok Hlt) as [Hr _ _ _ _].
    assert (Hnot : forall i, (i < Z.to_nat (ways c))%nat ->
              valid (row (cacheGrid c !!! si) !!! i) = true ->
              tag (row (cacheGrid c !!! si) !!! i) = Z.shiftr a (index_bits c) ->
              coreID (row (cacheGrid c !!! si) !!! i) = k -> False).
    { intros i Hi0 Hvi Hti Hci.
      apply (proj1 (cache_access_miss c g a w k) Hmiss).
      exists i. split; [exact Hi0 |]. fold si.
      unfold line_matches. rewrite Hvi, Hti, Hci, !Z.eqb_refl. reflexivity. }
    intros j i1 i2 H1 H2. cbv zeta. rewrite Hw', Hw1 in H1, H2. rewrite Hw1 in Hv.
    destruct (decide (j = si)) as [-> | Hne].
    + rewrite Hrow.
      destruct (decide (i1 = v)) as [-> | N1]; destruct (decide (i2 = v)) as [-> | N2];
        [reflexivity | | |].
      * rewrite list_lookup_total_insert_eq by lia.
        rewrite list_lookup_total_insert_ne by congruence.
        unfold installed_line. cbn [valid tag coreID]. rewrite Hb1.
        intros _ Hv2 Ht Hc. exfalso. apply (Hnot i2 H2 Hv2); congruence.
      * rewrite list_lookup_total_insert_ne by congruence.
        rewrite list_lookup_total_insert_eq by lia.
        unfold installed_line. cbn [valid tag coreID]. rewrite Hb1.
        intros Hv1 _ Ht Hc. exfalso. apply (Hnot i1 H1 Hv1); congruence.
      * rewrite !list_lookup_total_insert_ne by congruence.
        rewrite <- Hrows. apply (Hu1 si i1 i2); rewrite Hw1; assumption.
    + rewrite (Hother j Hne). apply (Hu1 j i1 i2); rewrite Hw1; assumption.
  - intros size assoc ls pol j i1 i2 _ _. cbv zeta.
    rewrite cache_new_line. discriminate.
Qed.

Lemma miss_then_install_keeps_lines_unique_witness :
  let c := cache_new 128 2 64 LRU in
  let g := example_globals SIM_MODE_A LRU 128 2 in
  cache_ok c /\ lines_unique c /\ lines_unique after_first_install.
Proof.
  intros c g.
  pose proof (example_cache_ok LRU) as Hok. fold c in Hok.
  assert (Hu : lines_unique c).
  { intros j i1 i2 _ _. cbv zeta. unfold c. rewrite cache_new_line. discriminate. }
  split; [exact Hok | split; [exact Hu |]].
  destruct (miss_then_install_keeps_lines_unique c g 0 false 0 Hok Hu) as (_ & H & _).
  destruct (cache_install (snd (cache_access c g 0 false 0)) g 0 false 0)
    as [[c' g']|] eqn:Hi; [|discriminate Hi].
  assert (Hc' : after_first_install = c').
  { unfold after_first_install. fold g c. rewrite Hi. reflexivity. }
  rewrite Hc'. apply (H eq_refl g false c' g' Hi).
Defined.

(** ** The statistics of the levels agree *)

Lemma u64_idem x : u64 (u64 x) = u64 x.
Proof. unfold u64. apply Z.mod_mod. lia. Qed.

Lemma u64_add_r x y : u64 (x + u64 y) = u64 (x + y).
Proof. unfold u64. apply Zplus_mod_idemp_r. Qed.

Lemma memsys_l2_access_agree sys g a wb k delay sys' g' :
  l2_dram_stats_agree sys ->
  memsys_l2_access sys g a wb k = Some (delay, sys', g') ->
  l2_dram_stats_agree sys'.
Proof.
  intros Hagree. unfold memsys_l2_access.
  destruct (l2cache sys) as [l2|] eqn:Hl2; [|discriminate].
  destruct (cache_access_counters l2 g a wb k) as (_ & _ & Hrm & Hwm).
  destruct (cache_access_static l2 g a wb k) as (_ & _ & _ & _ & _ & _ & Hde & _).
  destruct (cache_access l2 g a wb k) as [[] l2a]; cbn [fst snd] in Hrm, Hwm, Hde.
  - intros [= _ <- _] l2' d' [= <-] Hd'. cbn [dram with_l2_dram] in Hd'.
    rewrite Hrm, Hwm, Hde. apply (Hagree l2 d' Hl2 Hd').
  - destruct (dram sys) as [d|] eqn:Hd; [|discriminate].
    destruct (Hagree l2 d Hl2 Hd) as [Hr Hw].
    destruct (dram_access_counts d g a false) as [Hdw Hdr].
    destruct (dram_access d g a false) as [dd d1]. cbn [snd] in Hdw, Hdr.
    destruct (cache_install l2a g a wb k) as [[l2b g1]|] eqn:Hi; [|discriminate].
    destruct (cache_install_static l2a g a wb k l2b g1 Hi)
      as (_ & _ & _ & _ & _ & _ & Hrm2 & _ & Hwm2 & Hde2).
    assert (Hreads : Dram.stat_read_access d1
                     = u64 (stat_read_miss l2b + stat_write_miss l2b)).
    { rewrite Hdr, Hr, Hrm2, Hwm2, Hrm, Hwm, u64_add_l.
      destruct wb; [rewrite u64_add_r | rewrite u64_add_l]; f_equal; lia. }
    destruct (valid (lastEvictedLine l2b) && dirty (lastEvictedLine l2b)).
    + destruct (dram_access_counts d1 g1 (evicted_address l2b a) true) as [Hdw2 Hdr2].
      destruct (dram_access d1 g1 _ true) as [? d2]. cbn [snd] in Hdw2, Hdr2.
      intros [= _ <- _] l2' d' [= <-] [= <-].
      split; [rewrite Hdr2; exact Hreads |].
      rewrite Hdw2, Hdw, Hw, Hde2, Hde, u64_add_l, u64_idem. reflexivity.
    + intros [= _ <- _] l2' d' [= <-] [= <-].
      split; [exact Hreads |]. rewrite Hdw, Hw, Hde2, Hde. reflexivity.
Qed.

Lemma l1_set_agree w c sys :
  l2_dram_stats_agree sys -> l2_dram_stats_agree (l1_set w c sys).
Proof. intros H l2 d H2 Hd. apply (H l2 d H2 Hd). Qed.

Lemma memsys_l1_access_agree sys g w a type iw k d0 delay sys' g' :
  l2_dram_stats_agree sys ->
  memsys_l1_access sys g w a type iw k d0 = Some (delay, sys', g') ->
  l2_dram_stats_agree sys'.
Proof.
  intros Hagree. unfold memsys_l1_access.
  destruct (l1_get w sys) as [c|]; [|discriminate].
  destruct (cache_access c g a iw k) as [[] c1].
  - intros [= _ <- _]. apply l1_set_agree. exact Hagree.
  - destruct (memsys_l2_access (l1_set w c1 sys) g a false k)
      as [[[d2 sys1] g1]|] eqn:E2; [|discriminate].
    pose proof (memsys_l2_access_agree _ _ _ _ _ _ _ _ (l1_set_agree w c1 sys Hagree) E2)
      as H1.
    destruct (cache_install c1 g1 a iw k) as [[c2 g2]|]; [|discriminate].
    pose proof (l1_set_agree w c2 sys1 H1) as HB.
    assert (Hplain : Some (u64 (d0 + d2), l1_set w c2 sys1, g2) = Some (delay, sys', g') ->
              l2_dram_stats_agree sys').
    { intros [= _ <- _]. exact HB. }
    destruct type; try exact Hplain;
      (destruct (valid (lastEvictedLine c2) && dirty (lastEvictedLine c2));
       [| exact Hplain]);
      (destruct (memsys_l2_access (l1_set w c2 sys1) g2 _ true k)
         as [[[d3 sys3] g3]|] eqn:E3; [|discriminate]);
      intros [= _ <- _]; exact (memsys_l2_access_agree _ _ _ _ _ _ _ _ HB E3).
Qed.

Lemma memsys_access_agree sys g addr type k delay sys' g' :
  l2_dram_stats_agree sys ->
  memsys_access sys g addr type k = Some (delay, sys', g') ->
  l2_dram_stats_agree sys'.
Proof.
  intros Hagree. unfold memsys_access.
  destruct (match SIM_MODE g with
            | SIM_MODE_A => _ | SIM_MODE_B => _ | SIM_MODE_C => _ | SIM_MODE_DEF => _
            end) as [[[dl sys1] g1]|] eqn:E; [|discriminate].
  intros [= _ <- _].
  assert (H1 : l2_dram_stats_agree sys1).
  { destruct (SIM_MODE g).
    - unfold memsys_access_modeA in E.
      destruct type; cbn in E;
        try (injection E as _ <- _; exact Hagree);
        (destruct (dcache sys) as [c|]; [|discriminate]);
        (destruct (cache_access c g _ _ k) as [[] c1];
         [| destruct (cache_install c1 g _ _ k) as [[c2 g2]|]; [|discriminate]]);
        injection E as _ <- _; apply l1_set_agree; exact Hagree.
    - unfold memsys_access_modeBC in E.
      destruct type; exact (memsys_l1_access_agree _ _ _ _ _ _ _ _ _ _ _ Hagree E).
    - unfold memsys_access_modeBC in E.
      destruct type; exact (memsys_l1_access_agree _ _ _ _ _ _ _ _ _ _ _ Hagree E).
    - unfold memsys_access_modeDEF in E.
      destruct (shift_defined g); [|discriminate].
      destruct (memsys_convert_vpn_to_pfn g _ k) as [pfn|]; [|discriminate].
      destruct type; exact (memsys_l1_access_agree _ _ _ _ _ _ _ _ _ _ _ Hagree E). }
  intros l2 d H2 Hd. apply (H1 l2 d H2 Hd).
Qed.

Lemma memsys_run_agree (refs : list Reference) : forall sys g sys' g',
  l2_dram_stats_agree sys -> memsys_run sys g refs = Some (sys', g') ->
  l2_dram_stats_agree sys'.
Proof.
  induction refs as [|r refs IH]; intros sys g sys' g' Hagree Hrun.
  - injection Hrun as <- _. exact Hagree.
  - rewrite memsys_run_cons in Hrun.
    destruct (memsys_access sys _ (ref_addr r) (ref_type r) (ref_core r))
      as [[[dl sys1] g1]|] eqn:E; [|discriminate].
    apply (IH sys1 g1 sys' g' (memsys_access_agree _ _ _ _ _ _ _ _ Hagree E) Hrun).
Qed.

(** X28.  The statistics of the DRAM agree with those of the L2.  After
    any run from [memsys_new], in every mode that has an L2, the DRAM has
    been read once for each L2 miss, read or write, and written once for
    each dirty eviction from the L2: [DRAM_READ_ACCESS] is the sum of the
    two L2 miss counters and [DRAM_WRITE_ACCESS] is the L2's
    [DIRTY_EVICTS], modulo [2^64]. *)
Theorem dram_counts_l2_misses_and_evictions (g : Globals) (refs : list Reference)
    (sys' : MemorySystem) (g' : Globals) (l2 : Cache) (d : DRAM) :
  memsys_run (memsys_new g) g refs = Some (sys', g') ->
  l2cache sys' = Some l2 -> dram sys' = Some d ->
  Dram.stat_read_access d = u64 (stat_read_miss l2 + stat_write_miss l2) /\
  Dram.stat_write_access d = u64 (stat_dirty_evicts l2).
Proof.
  intros Hrun H2 Hd.
  apply (memsys_run_agree refs (memsys_new g) g sys' g'); [| exact Hrun | exact H2 | exact Hd].
  intros l0 d0 Hl0 Hd0. unfold memsys_new in Hl0, Hd0. cbn [l2cache dram] in Hl0, Hd0.
  destruct (SIM_MODE g); try discriminate;
    injection Hl0 as <-; injection Hd0 as <-; split; reflexivity.
Qed.

Lemma dram_counts_l2_misses_and_evictions_witness :
  let g := example_globals SIM_MODE_C LRU 64 1 in
  let refs :=
    [ {| ref_cycle := 1; ref_addr := 0; ref_type := ACCESS_TYPE_STORE; ref_core := 0 |};
      {| ref_cycle := 2; ref_addr := 64; ref_type := ACCESS_TYPE_LOAD; ref_core := 0 |};
      {| ref_cycle := 3; ref_addr := 128; ref_type := ACCESS_TYPE_LOAD; ref_core := 0 |} ] in
  exists sys' g' l2 d,
    memsys_run (memsys_new g) g refs = Some (sys', g') /\
    l2cache sys' = Some l2 /\ dram sys' = Some d /\
    Dram.stat_write_access d = u64 (stat_dirty_evicts l2).
Proof.
  intros g refs.
  destruct (memsys_run (memsys_new g) g refs) as [[sys' g']|] eqn:E;
    [|vm_compute in E; discriminate E].
  destruct (l2cache sys') as [l2|] eqn:H2;
    [|vm_compute in E; injection E as <- _; discriminate H2].
  destruct (dram sys') as [d|] eqn:Hd;
    [|vm_compute in E; injection E as <- _; discriminate Hd].
  exists sys', g', l2, d.
  split; [reflexivity | split; [exact H2 | split; [exact Hd |]]].
  apply (dram_counts_l2_misses_and_evictions g refs sys' g' l2 d E H2 Hd).
Defined.

(** ** The statistics of the caches agree *)

Lemma memsys_l1_access_config sys g w a type iw k d0 delay sys' g' :
  memsys_l1_access sys g w a type iw k d0 = Some (delay, sys', g') -> same_config g g'.
Proof.
  unfold memsys_l1_access.
  destruct (l1_get w sys) as [c|]; [|discriminate].
  destruct (cache_access c g a iw k) as [[] c1].
  - intros [= _ _ <-]. apply same_config_refl.
  - destruct (memsys_l2_access (l1_set w c1 sys) g a false k)
      as [[[d2 sys1] g1]|] eqn:E2; [|discriminate].
    pose proof (memsys_l2_access_config _ _ _ _ _ _ _ _ E2) as H1.
    destruct (cache_install c1 g1 a iw k) as [[c2 g2]|] eqn:Hi; [|discriminate].
    pose proof (same_config_trans _ _ _ H1 (cache_install_config _ _ _ _ _ _ _ Hi)) as H2.
    assert (Hplain : Some (u64 (d0 + d2), l1_set w c2 sys1, g2) = Some (delay, sys', g') ->
              same_config g g').
    { intros [= _ _ <-]. exact H2. }
    destruct type; try exact Hplain;
      (destruct (valid (lastEvictedLine c2) && dirty (lastEvictedLine c2));
       [| exact Hplain]);
      (destruct (memsys_l2_access (l1_set w c2 sys1) g2 _ true k)
         as [[[d3 sys3] g3]|] eqn:E3; [|discriminate]);
      intros [= _ _ <-];
      exact (same_config_trans _ _ _ H2 (memsys_l2_access_config _ _ _ _ _ _ _ _ E3)).
Qed.

Lemma memsys_access_config sys g addr type k delay sys' g' :
  memsys_access sys g addr type k = Some (delay, sys', g') -> same_config g g'.
Proof.
  unfold memsys_access.
  destruct (match SIM_MODE g with
            | SIM_MODE_A => _ | SIM_MODE_B => _ | SIM_MODE_C => _ | SIM_MODE_DEF => _
            end) as [[[dl sys1] g1]|] eqn:E; [|discriminate].
  intros [= _ _ <-].
  destruct (SIM_MODE g).
  - unfold memsys_access_modeA in E.
    destruct type; cbn in E;
      try (injection E as _ _ <-; apply same_config_refl);
      (destruct (dcache sys) as [c|]; [|discriminate]);
      (destruct (cache_access c g _ _ k) as [[] c1];
       [injection E as _ _ <-; apply same_config_refl |]);
      (destruct (cache_install c1 g _ _ k) as [[c2 g2]|] eqn:Hi; [|discriminate]);
      injection E as _ _ <-; exact (cache_install_config _ _ _ _ _ _ _ Hi).
  - unfold memsys_access_modeBC in E.
    destruct type; exact (memsys_l1_access_config _ _ _ _ _ _ _ _ _ _ _ E).
  - unfold memsys_access_modeBC in E.
    destruct type; exact (memsys_l1_access_config _ _ _ _ _ _ _ _ _ _ _ E).
  - unfold memsys_access_modeDEF in E.
    destruct (shift_defined g); [|discriminate].
    destruct (memsys_convert_vpn_to_pfn g _ k) as [pfn|]; [|discriminate].
    destruct type; exact (memsys_l1_access_config _ _ _ _ _ _ _ _ _ _ _ E).
Qed.

Lemma memsys_l2_access_counts sys g a wb k delay sys' g' l2 :
  l2cache sys = Some l2 ->
  memsys_l2_access sys g a wb k = Some (delay, sys', g') ->
  exists l2',
    l2cache sys' = Some l2' /\
    stat_read_access l2'
    = (if wb then stat_read_access l2 else u64 (stat_read_access l2 + 1)) /\
    stat_write_access l2'
    = (if wb then u64 (stat_write_access l2 + 1) else stat_write_access l2) /\
    dcache sys' = dcache sys /\ icache sys' = icache sys.
Proof.
  intros Hl2. unfold memsys_l2_access. rewrite Hl2.
  destruct (cache_access_counters l2 g a wb k) as (Hra & Hwa & _ & _).
  destruct (cache_access l2 g a wb k) as [[] l2a]; cbn [fst snd] in Hra, Hwa.
  - intros [= _ <- _]. exists l2a. cbn. repeat split; assumption.
  - destruct (dram sys) as [d|]; [|discriminate].
    destruct (dram_access d g a false) as [dd d1].
    destruct (cache_install l2a g a wb k) as [[l2b g1]|] eqn:Hi; [|discriminate].
    destruct (cache_install_static l2a g a wb k l2b g1 Hi)
      as (_ & _ & _ & _ & _ & Hra2 & _ & Hwa2 & _).
    destruct (valid (lastEvictedLine l2b) && dirty (lastEvictedLine l2b));
      [destruct (dram_access d1 g1 _ true) as [? d2] |];
      intros [= _ <- _]; exists l2b; cbn; rewrite Hra2, Hwa2;
      repeat split; assumption.
Qed.

Lemma memsys_l1_access_counts sys g w a type iw k d0 delay sys' g' c l2 :
  w = L1_dcache \/ w = L1_icache ->
  l1_get w sys = Some c -> l2cache sys = Some l2 ->
  memsys_l1_access sys g w a type iw k d0 = Some (delay, sys', g') ->
  exists c' l2' (missed evd : bool),
    l1_get w sys' = Some c' /\ l2cache sys' = Some l2' /\
    (forall w', w' = L1_dcache \/ w' = L1_icache -> w' <> w ->
       l1_get w' sys' = l1_get w' sys) /\
    stat_read_access c'
    = (if iw then stat_read_access c else u64 (stat_read_access c + 1)) /\
    stat_write_access c'
    = (if iw then u64 (stat_write_access c + 1) else stat_write_access c) /\
    stat_read_miss c'
    = (if missed && negb iw then u64 (stat_read_miss c + 1) else stat_read_miss c) /\
    stat_write_miss c'
    = (if missed && iw then u64 (stat_write_miss c + 1) else stat_write_miss c) /\
    stat_dirty_evicts c'
    = (if evd then u64 (stat_dirty_evicts c + 1) else stat_dirty_evicts c) /\
    stat_read_access l2'
    = (if missed then u64 (stat_read_access l2 + 1) else stat_read_access l2) /\
    stat_write_access l2'
    = (if evd && match type with ACCESS_TYPE_IFETCH => false | _ => true end
       then u64 (stat_write_access l2 + 1) else stat_write_access l2).
Proof.
  intros Hw Hget Hl2. unfold memsys_l1_access. rewrite Hget.
  assert (Hself : forall x s, l1_get w (l1_set w x s) = Some x)
    by (intros x s; destruct Hw as [-> | ->]; reflexivity).
  assert (Hfr : forall x s w', w' = L1_dcache \/ w' = L1_icache -> w' <> w ->
            l1_get w' (l1_set w x s) = l1_get w' s).
  { intros x s w' [-> | ->] Hne; destruct Hw as [-> | ->]; try reflexivity; congruence. }
  assert (Hl1 : forall s s', dcache s' = dcache s -> icache s' = icache s ->
            forall w', w' = L1_dcache \/ w' = L1_icache -> l1_get w' s' = l1_get w' s).
  { intros s s' Hd Hi w' [-> | ->]; assumption. }
  destruct (cache_access_counters c g a iw k) as (Hra & Hwa & Hrm & Hwm).
  destruct (cache_access_static c g a iw k) as (_ & _ & _ & _ & _ & _ & Hde & _).
  destruct (cache_access c g a iw k) as [[] c1]; cbn [fst snd] in Hra, Hwa, Hrm, Hwm, Hde.
  - intros [= _ <- _]. exists c1, l2, false, false. cbn [andb].
    split; [apply Hself | split; [exact Hl2 | split; [apply Hfr |]]].
    repeat split; assumption.
  - destruct (memsys_l2_access (l1_set w c1 sys) g a false k)
      as [[[d2 sys1] g1]|] eqn:E2; [|discriminate].
    destruct (memsys_l2_access_counts (l1_set w c1 sys) _ _ _ _ _ _ _ l2 Hl2 E2)
      as (l2a & Hl2a & Hra2 & Hwa2 & Hd1 & Hi1).
    destruct (cache_install c1 g1 a iw k) as [[c2 g2]|] eqn:Hi; [|discriminate].
    destruct (cache_install_static c1 g1 a iw k c2 g2 Hi)
      as (_ & _ & _ & _ & _ & Hra' & Hrm' & Hwa' & Hwm' & Hde').
    set (evd := valid (lastEvictedLine c2) && dirty (lastEvictedLine c2)) in *.
    assert (Hc2 :
      stat_read_access c2
      = (if iw then stat_read_access c else u64 (stat_read_access c + 1)) /\
      stat_write_access c2
      = (if iw then u64 (stat_write_access c + 1) else stat_write_access c) /\
      stat_read_miss c2
      = (if true && negb iw then u64 (stat_read_miss c + 1) else stat_read_miss c) /\
      stat_write_miss c2
      = (if true && iw then u64 (stat_write_miss c + 1) else stat_write_miss c) /\
      stat_dirty_evicts c2
      = (if evd then u64 (stat_dirty_evicts c + 1) else stat_dirty_evicts c)).
    { rewrite Hra', Hwa', Hrm', Hwm', Hde', Hra, Hwa, Hrm, Hwm, Hde.
      destruct iw; repeat split; reflexivity. }
    assert (HgetB : forall w', w' = L1_dcache \/ w' = L1_icache -> w' <> w ->
              l1_get w' (l1_set w c2 sys1) = l1_get w' sys).
    { intros w' Hw' Hne. rewrite (Hfr c2 sys1 w' Hw' Hne).
      rewrite (Hl1 _ _ Hd1 Hi1 w' Hw'). apply Hfr; assumption. }
    assert (Hplain : Some (u64 (d0 + d2), l1_set w c2 sys1, g2) = Some (delay, sys', g') ->
              (evd && match type with ACCESS_TYPE_IFETCH => false | _ => true end) = false ->
              exists c' l2' (missed evd0 : bool),
                l1_get w sys' = Some c' /\ l2cache sys' = Some l2' /\
                (forall w', w' = L1_dcache \/ w' = L1_icache -> w' <> w ->
                   l1_get w' sys' = l1_get w' sys) /\
                stat_read_access c'
                = (if iw then stat_read_access c else u64 (stat_read_access c + 1)) /\
                stat_write_access c'
                = (if iw then u64 (stat_write_access c + 1) else stat_write_access c) /\
                stat_read_miss c'
                = (if missed && negb iw then u64 (stat_read_miss c + 1)
                   else stat_read_miss c) /\
                stat_write_miss c'
                = (if missed && iw then u64 (stat_write_miss c + 1)
                   else stat_write_miss c) /\
                stat_dirty_evicts c'
                = (if evd0 then u64 (stat_dirty_evicts c + 1) else stat_dirty_evicts c) /\
                stat_read_access l2'
                = (if missed then u64 (stat_read_access l2 + 1)
                   else stat_read_access l2) /\
                stat_write_access l2'
                = (if evd0 && match type with ACCESS_TYPE_IFETCH => false | _ => true end
                   then u64 (stat_write_access l2 + 1) else stat_write_access l2)).
    { intros [= _ <- _] Hno. exists c2, l2a, true, evd. rewrite Hno.
      split; [apply Hself | split; [exact Hl2a | split; [exact HgetB |]]].
      destruct Hc2 as (A1 & A2 & A3 & A4 & A5).
      repeat split; assumption. }
    destruct type;
      try (intros Hres; apply (Hplain Hres); apply andb_false_r);
      (destruct evd eqn:Evd; [| intros Hres; apply (Hplain Hres); reflexivity]);
      (destruct (memsys_l2_access (l1_set w c2 sys1) g2 _ true k)
         as [[[d3 sys3] g3]|] eqn:E3; [|discriminate]);
      (destruct (memsys_l2_access_counts (l1_set w c2 sys1) _ _ _ _ _ _ _ l2a Hl2a E3)
         as (l2b & Hl2b & Hra3 & Hwa3 & Hd3 & Hi3));
      intros [= _ <- _]; exists c2, l2b, true, true; cbn [andb];
      (split; [rewrite (Hl1 _ _ Hd3 Hi3 w Hw); apply Hself |]);
      (split; [exact Hl2b |]);
      (split; [intros w' Hw' Hne; rewrite (Hl1 _ _ Hd3 Hi3 w' Hw');
               apply HgetB; assumption |]);
      destruct Hc2 as (A1 & A2 & A3 & A4 & A5);
      rewrite Hra3, Hwa3, Hra2, Hwa2;
      repeat split; assumption.
Qed.

Lemma u64_inc1 x y z : u64 (u64 (x + 1) + y + z) = u64 (u64 (x + y + z) + 1).
Proof.
  rewrite (u64_add_l (x + y + z)).
  replace (u64 (x + 1) + y + z) with (u64 (x + 1) + (y + z)) by lia.
  rewrite u64_add_l. f_equal. lia.
Qed.

Lemma u64_inc2 x y z : u64 (x + u64 (y + 1) + z) = u64 (u64 (x + y + z) + 1).
Proof.
  rewrite (u64_add_l (x + y + z)).
  replace (x + u64 (y + 1) + z) with (u64 (y + 1) + (x + z)) by lia.
  rewrite u64_add_l. f_equal. lia.
Qed.

Lemma u64_inc3 x y z : u64 (x + y + u64 (z + 1)) = u64 (u64 (x + y + z) + 1).
Proof.
  rewrite (u64_add_l (x + y + z)).
  replace (x + y + u64 (z + 1)) with (u64 (z + 1) + (x + y)) by lia.
  rewrite u64_add_l. f_equal. lia.
Qed.

Lemma u64_inc_idem x : u64 (u64 (x + 1)) = u64 (u64 x + 1).
Proof. rewrite u64_idem, u64_add_l. reflexivity. Qed.

Lemma memsys_access_stats_agree sys g addr type k delay sys' g' :
  SIM_MODE g = SIM_MODE_B \/ SIM_MODE g = SIM_MODE_C ->
  cache_stats_agree sys ->
  memsys_access sys g addr type k = Some (delay, sys', g') ->
  cache_stats_agree sys'.
Proof.
  intros Hmode (dc & ic & l2 & Hdc & Hic & Hl2 & Hload & Hstore & Hif & Hiw & Hiwm & Hr2 & Hw2).
  unfold memsys_access.
  assert (HBC : match SIM_MODE g with
                | SIM_MODE_A => memsys_access_modeA sys g (addr / CACHE_LINESIZE g) type k
                | SIM_MODE_B | SIM_MODE_C =>
                    memsys_access_modeBC sys g (addr / CACHE_LINESIZE g) type k
                | SIM_MODE_DEF => memsys_access_modeDEF sys g (addr / CACHE_LINESIZE g) type k
                end = memsys_access_modeBC sys g (addr / CACHE_LINESIZE g) type k)
    by (destruct Hmode as [-> | ->]; reflexivity).
  rewrite HBC. clear HBC. set (a := addr / CACHE_LINESIZE g).
  destruct (memsys_access_modeBC sys g a type k) as [[[dl sys1] g1]|] eqn:E; [|discriminate].
  intros [= _ <- _]. unfold memsys_access_modeBC in E.
  destruct type.
  - (* instruction fetch *)
    destruct (memsys_l1_access_stats _ _ _ _ _ _ _ _ _ _ _ ACCESS_TYPE_IFETCH E) as [Sa _].
    destruct (memsys_l1_access_counts sys g L1_icache a ACCESS_TYPE_IFETCH false k _ dl sys1 g1
                ic l2 (or_intror eq_refl) Hic Hl2 E)
      as (c' & l2' & missed & evd & Hget & Hl2' & Hfr & Hra & Hwa & Hrm & Hwm & _ & Hra2 & Hwa2).
    pose proof (Hfr L1_dcache (or_introl eq_refl) ltac:(discriminate)) as Hd.
    cbn [l1_get] in Hget, Hd. cbn [stat_access] in Sa.
    exists dc, c', l2'. cbn [count_reference dcache icache l2cache stat_load_access
                             stat_store_access stat_ifetch_access].
    split; [rewrite Hd; exact Hdc | split; [exact Hget | split; [exact Hl2' |]]].
    rewrite Hra, Hwa, Hwm, Hra2, Hwa2, Hrm, !andb_false_r, Sa, Hif.
    pose proof (memsys_l1_access_stats _ _ _ _ _ _ _ _ _ _ _ ACCESS_TYPE_LOAD E) as [Sl _].
    pose proof (memsys_l1_access_stats _ _ _ _ _ _ _ _ _ _ _ ACCESS_TYPE_STORE E) as [Ss _].
    cbn [stat_access] in Sl, Ss. rewrite Sl, Ss.
    repeat split; try assumption.
    destruct missed; cbn [andb negb]; [|exact Hr2].
    rewrite Hr2, u64_inc1. reflexivity.
  - (* load *)
    destruct (memsys_l1_access_stats _ _ _ _ _ _ _ _ _ _ _ ACCESS_TYPE_LOAD E) as [Sa _].
    destruct (memsys_l1_access_counts sys g L1_dcache a ACCESS_TYPE_LOAD false k _ dl sys1 g1
                dc l2 (or_introl eq_refl) Hdc Hl2 E)
      as (c' & l2' & missed & evd & Hget & Hl2' & Hfr & Hra & Hwa & Hrm & Hwm & Hde & Hra2 & Hwa2).
    pose proof (Hfr L1_icache (or_intror eq_refl) ltac:(discriminate)) as Hi.
    cbn [l1_get] in Hget, Hi. cbn [stat_access] in Sa.
    exists c', ic, l2'. cbn [count_reference dcache icache l2cache stat_load_access
                             stat_store_access stat_ifetch_access].
    split; [exact Hget | split; [rewrite Hi; exact Hic | split; [exact Hl2' |]]].
    rewrite Hra, Hwa, Hwm, Hra2, Hwa2, Hrm, Hde, andb_false_r, andb_true_r, Sa, Hload.
    pose proof (memsys_l1_access_stats _ _ _ _ _ _ _ _ _ _ _ ACCESS_TYPE_IFETCH E) as [Si _].
    pose proof (memsys_l1_access_stats _ _ _ _ _ _ _ _ _ _ _ ACCESS_TYPE_STORE E) as [Ss _].
    cbn [stat_access] in Si, Ss. rewrite Si, Ss.
    repeat split; try assumption.
    + destruct missed; cbn [andb negb]; [|exact Hr2].
      rewrite Hr2, u64_inc2. reflexivity.
    + destruct evd; [|exact Hw2]. rewrite Hw2, u64_inc_idem. reflexivity.
  - (* store *)
    destruct (memsys_l1_access_stats _ _ _ _ _ _ _ _ _ _ _ ACCESS_TYPE_STORE E) as [Sa _].
    destruct (memsys_l1_access_counts sys g L1_dcache a ACCESS_TYPE_STORE true k _ dl sys1 g1
                dc l2 (or_introl eq_refl) Hdc Hl2 E)
      as (c' & l2' & missed & evd & Hget & Hl2' & Hfr & Hra & Hwa & Hrm & Hwm & Hde & Hra2 & Hwa2).
    pose proof (Hfr L1_icache (or_intror eq_refl) ltac:(discriminate)) as Hi.
    cbn [l1_get] in Hget, Hi. cbn [stat_access] in Sa.
    exists c', ic, l2'. cbn [count_reference dcache icache l2cache stat_load_access
                             stat_store_access stat_ifetch_access].
    split; [exact Hget | split; [rewrite Hi; exact Hic | split; [exact Hl2' |]]].
    rewrite Hra, Hwa, Hwm, Hra2, Hwa2, Hrm, Hde, andb_false_r, !andb_true_r, Sa, Hstore.
    pose proof (memsys_l1_access_stats _ _ _ _ _ _ _ _ _ _ _ ACCESS_TYPE_IFETCH E) as [Si _].
    pose proof (memsys_l1_access_stats _ _ _ _ _ _ _ _ _ _ _ ACCESS_TYPE_LOAD E) as [Sl _].
    cbn [stat_access] in Si, Sl. rewrite Si, Sl.
    repeat split; try assumption.
    + destruct missed; [|exact Hr2].
      rewrite Hr2, u64_inc3. reflexivity.
    + destruct evd; [|exact Hw2]. rewrite Hw2, u64_inc_idem. reflexivity.
Qed.

Lemma memsys_run_stats_agree (refs : list Reference) : forall sys g sys' g',
  SIM_MODE g = SIM_MODE_B \/ SIM_MODE g = SIM_MODE_C ->
  cache_stats_agree sys -> memsys_run sys g refs = Some (sys', g') ->
  cache_stats_agree sys'.
Proof.
  induction refs as [|r refs IH]; intros sys g sys' g' Hmode Hagree Hrun.
  - injection Hrun as <- _. exact Hagree.
  - rewrite memsys_run_cons in Hrun.
    set (g0 := set_current_cycle (ref_cycle r) g) in *.
    destruct (memsys_access sys g0 (ref_addr r) (ref_type r) (ref_core r))
      as [[[dl sys1] g1]|] eqn:E; [|discriminate].
    destruct (memsys_access_config _ _ _ _ _ _ _ _ E) as (Hm1 & _).
    change (SIM_MODE g0) with (SIM_MODE g) in Hm1.
    apply (IH sys1 g1 sys' g'); [rewrite Hm1; exact Hmode | | exact Hrun].
    apply (memsys_access_stats_agree sys g0 _ _ _ _ _ _ Hmode Hagree E).
Qed.

(** X29.  In modes B and C the statistics of the caches agree with one
    another and with those of the memory system.  After any run from
    [memsys_new]: the data cache has been read once per load and written
    once per store, the instruction cache read once per fetch and never
    written; the L2 has been read once for each L1 miss and written once for
    each dirty eviction from the data cache, modulo [2^64]. *)
Theorem cache_and_memsys_stats_agree (g : Globals) (refs : list Reference)
    (sys' : MemorySystem) (g' : Globals) :
  SIM_MODE g = SIM_MODE_B \/ SIM_MODE g = SIM_MODE_C ->
  memsys_run (memsys_new g) g refs = Some (sys', g') ->
  exists dc ic l2,
    dcache sys' = Some dc /\ icache sys' = Some ic /\ l2cache sys' = Some l2 /\
    stat_read_access dc = stat_load_access sys' /\
    stat_write_access dc = stat_store_access sys' /\
    stat_read_access ic = stat_ifetch_access sys' /\
    stat_write_access ic = 0 /\ stat_write_miss ic = 0 /\
    stat_read_access l2
    = u64 (stat_read_miss ic + stat_read_miss dc + stat_write_miss dc) /\
    stat_write_access l2 = u64 (stat_dirty_evicts dc).
Proof.
  intros Hmode Hrun.
  apply (memsys_run_stats_agree refs (memsys_new g) g sys' g' Hmode); [| exact Hrun].
  unfold cache_stats_agree, memsys_new. cbn [dcache icache l2cache
    stat_load_access stat_store_access stat_ifetch_access].
  destruct Hmode as [-> | ->]; eexists _, _, _;
    (split; [reflexivity | split; [reflexivity | split; [reflexivity |]]]);
    repeat split; reflexivity.
Qed.

Lemma cache_and_memsys_stats_agree_witness :
  let g := example_globals SIM_MODE_C LRU 64 1 in
  let refs :=
    [ {| ref_cycle := 1; ref_addr := 0; ref_type := ACCESS_TYPE_STORE; ref_core := 0 |};
      {| ref_cycle := 2; ref_addr := 64; ref_type := ACCESS_TYPE_LOAD; ref_core := 0 |};
      {| ref_cycle := 3; ref_addr := 0; ref_type := ACCESS_TYPE_IFETCH; ref_core := 0 |} ] in
  exists sys' g' dc l2,
    memsys_run (memsys_new g) g refs = Some (sys', g') /\
    dcache sys' = Some dc /\ l2cache sys' = Some l2 /\
    stat_write_access l2 = u64 (stat_dirty_evicts dc).
Proof.
  intros g refs.
  destruct (memsys_run (memsys_new g) g refs) as [[sys' g']|] eqn:E;
    [|vm_compute in E; discriminate E].
  destruct (cache_and_memsys_stats_agree g refs sys' g' (or_intror eq_refl) E)
    as (dc & ic & l2 & Hdc & _ & Hl2 & _ & _ & _ & _ & _ & _ & Hw).
  exists sys', g', dc, l2.
  split; [reflexivity | split; [exact Hdc | split; [exact Hl2 | exact Hw]]].
Defined.
